(** * Ownership refresh of the Rexxie ledger: a shallow embedding

    This development models [refresh-owners.cjs] (the body of
    [src/scheduled-refresh.cjs] from line 43 on): the WhatsOnChain client
    with its retry loop and adaptive delay, the jig classifier
    [findJigVout], the forward tracer [traceForward], the owner index
    helpers, [processNFT] and the driver loop.

    Modelling conventions.
    - The module-level [ledger] object and [callDelayMs] variable live in an
      explicit [World]; every [async] function is a state-and-exception
      computation over it.  A thrown error keeps the world reached so far,
      as a JavaScript exception keeps the mutations already performed.
    - The upstream provider is an arbitrary oracle: the reply to the
      [k]-th HTTP request ever issued may depend on [k] and on the
      endpoint.  Sleeping and logging are recorded as events.
    - JSON numbers that carry BSV amounts are rationals ([Q]); asset
      numbers and output indices are integers ([Z]).
    - [ledger.nfts] is a map from asset numbers to records, [ledger.owners]
      a map from its own property names to arrays of asset numbers.  A
      read of [ledger.owners[addr]] that misses the own keys sees the
      members of [Object.prototype]: for such a name the index helpers
      throw. *)

From stdpp Require Import gmap strings list fin_maps sorting.
From Stdlib Require Import QArith.

Local Open Scope Z_scope.

(** ** Transactions as returned by the provider *)

Record ScriptPubKey := {
  asm : option string;
  type : option string;
  addresses : option (list string)
}.

Record Vout := {
  n : Z;
  value : Q;
  scriptPubKey : option ScriptPubKey
}.

(** A parsed response body.  Both endpoints answer with an object; the
    fields the script reads are [txid] (on [/spent]), [vout] and
    [blockheight] (on [/tx/hash]).  A field that is absent is [None]. *)
Record Body := {
  b_txid : option string;
  b_vout : option (list Vout);
  b_blockheight : option Z
}.

(** ** Errors and results *)

Inductive Error :=
  | RateLimited                 (* new Error('rate-limited') *)
  | WocStatus (code : Z)        (* new Error(`WoC ${res.statusCode}: ...`) *)
  | TimeoutError                (* new Error('timeout') *)
  | NetworkError (msg : string) (* req.on('error', reject) *)
  | CouldNotResolveVout         (* 'could not resolve vout in lastTx' *)
  | CouldNotFetchSpendingTx     (* 'could not fetch spending tx' *)
  | TypeError.                  (* property access on undefined, non-iterable *)

Inductive Res (A : Type) :=
  | Ok (a : A)
  | Throw (e : Error).
Arguments Ok {A} a.
Arguments Throw {A} e.

(** ** Output classifier *)

Definition includes (s sub : string) : bool :=
  match String.index 0 sub s with Some _ => true | None => false end.

Definition truthy (o : option string) : bool :=
  match o with
  | Some s => negb (String.eqb s EmptyString)
  | None => false
  end.

Record Jig := {
  j_vout : Z;
  j_addr : option string;
  isOrderLock : bool
}.

(** [vout.scriptPubKey?.asm?.includes('OP_RETURN')] *)
Definition isOpReturn (v : Vout) : bool :=
  match scriptPubKey v with
  | Some spk => match asm spk with
                | Some a => includes a "OP_RETURN"%string
                | None => false
                end
  | None => false
  end.

(** [vout.scriptPubKey?.type === 'nonstandard' && vout.value <= 0.001] *)
Definition isOrderLockOut (v : Vout) : bool :=
  match scriptPubKey v with
  | Some spk => match type spk with
                | Some t => String.eqb t "nonstandard"%string && Qle_bool (value v) (1 # 1000)
                | None => false
                end
  | None => false
  end.

(** [vout.scriptPubKey?.addresses?.[0]] *)
Definition firstAddress (v : Vout) : option string :=
  match scriptPubKey v with
  | Some spk => match addresses spk with
                | Some (a :: _) => Some a
                | _ => None
                end
  | None => None
  end.

(** [addr && vout.value > 0 && vout.value <= 0.00001] *)
Definition isDustToAddress (v : Vout) : bool :=
  truthy (firstAddress v)
  && negb (Qle_bool (value v) 0)
  && Qle_bool (value v) (1 # 100000).

Fixpoint findOrderLock (outs : list Vout) : option Jig :=
  match outs with
  | [] => None
  | v :: rest =>
      if isOpReturn v then findOrderLock rest
      else if isOrderLockOut v
           then Some {| j_vout := n v; j_addr := None; isOrderLock := true |}
           else findOrderLock rest
  end.

Fixpoint findDust (outs : list Vout) : option Jig :=
  match outs with
  | [] => None
  | v :: rest =>
      if isOpReturn v then findDust rest
      else if isDustToAddress v
           then Some {| j_vout := n v; j_addr := firstAddress v; isOrderLock := false |}
           else findDust rest
  end.

(** [findJigVout(tx)], lines 146-161: the two loops in turn; iterating
    [tx.vout] throws when the field is absent. *)
Definition findJigVout (tx : Body) : Res (option Jig) :=
  match b_vout tx with
  | None => Throw TypeError
  | Some outs =>
      match findOrderLock outs with
      | Some j => Ok (Some j)
      | None => Ok (findDust outs)
      end
  end.

(** ** The ledger *)

Record Transfer := {
  t_txid : string;
  t_type : string;
  t_from : option string;
  t_to : option string;
  t_blockHeight : option Z
}.

Record Nft := {
  owner : option string;
  lastTx : option string;
  lastVout : option Z;
  transfers : list Transfer;
  burned : bool;
  burnTx : option string
}.

Record Ledger := {
  lastUpdated : nat;
  nfts : gmap Z Nft;
  owners : gmap string (list Z)
}.

(** ** The provider and the world *)

Inductive Endpoint :=
  | EpSpent (txid : string) (vout : Z)   (* `/tx/${txid}/${vout}/spent` *)
  | EpTx (txid : string).                (* `/tx/hash/${txid}` *)

Inductive Reply :=
  | Http (statusCode : Z) (body : option Body)
  | ReqTimeout
  | ReqError (msg : string).

Inductive LogMsg :=
  | LogThrottle (delay : Z)
  | LogBurned (num : Z) (txid : string) (o : option string)
  | LogMoved (num : Z) (totalHops : Z) (o : option string)
  | LogStart (total : Z)
  | LogSaved (checked total changed ownersCount : Z)
  | LogProgress (checked total changed burnedCount errors num : Z)
  | LogError (num : Z) (e : Error)
  | LogMainDone (checked changed errors : Z)
  | LogRetryRound (round : Z) (pending : Z)
  | LogResolved (num : Z) (wasChanged : bool)
  | LogRetryError (num : Z) (e : Error)
  | LogSummary (checked changed burnedRun burnedTotal errors ownersCount : Z)
  | LogUnresolved (nums : list Z).

Inductive Event :=
  | EvRequest (ep : Endpoint)
  | EvSleep (ms : Z)
  | EvLog (m : LogMsg)
  | EvSave.

Record World := {
  ledger : Ledger;
  disk : Ledger;
  callDelayMs : Z;
  clock : nat;
  events : list Event
}.

Definition M (A : Type) : Type := World -> Res A * World.

Definition ret {A} (a : A) : M A := fun w => (Ok a, w).
Definition throw {A} (e : Error) : M A := fun w => (Throw e, w).
Definition bind {A B} (m : M A) (k : A -> M B) : M B :=
  fun w => match m w with
           | (Ok a, w1) => k a w1
           | (Throw e, w1) => (Throw e, w1)
           end.
Definition liftRes {A} (r : Res A) : M A := fun w => (r, w).

Notation "'let*' x ':=' m 'in' k" := (bind m (fun x => k))
  (at level 10, x name, m at level 100, k at level 200).
Notation "m ';;' k" := (bind m (fun _ => k))
  (at level 100, k at level 200, right associativity).

Definition emit (e : Event) : M unit :=
  fun w => (Ok tt, {| ledger := ledger w; disk := disk w; callDelayMs := callDelayMs w;
                      clock := clock w; events := events w ++ [e] |}).
Definition log (m : LogMsg) : M unit := emit (EvLog m).
Definition sleep (ms : Z) : M unit := emit (EvSleep ms).
Definition getDelay : M Z := fun w => (Ok (callDelayMs w), w).
Definition setDelay (d : Z) : M unit :=
  fun w => (Ok tt, {| ledger := ledger w; disk := disk w; callDelayMs := d;
                      clock := clock w; events := events w |}).
Definition getLedger : M Ledger := fun w => (Ok (ledger w), w).

Definition withLedger (f : Ledger -> Ledger) : M unit :=
  fun w => (Ok tt, {| ledger := f (ledger w); disk := disk w; callDelayMs := callDelayMs w;
                      clock := clock w; events := events w |}).

(** [try { body } catch (e) { handler(e) }] *)
Definition tryCatch {A} (body : M A) (handler : Error -> M A) : M A :=
  fun w => match body w with
           | (Ok a, w1) => (Ok a, w1)
           | (Throw e, w1) => handler e w1
           end.

(** ** Chain client *)

Definition MAX_RETRIES : nat := 3.
Definition BASE_BACKOFF_MS : Z := 2000.
Definition MIN_DELAY_MS : Z := 200.
Definition MAX_DELAY_MS : Z := 3000.
Definition INITIAL_DELAY_MS : Z := 300.

(** [onSuccess()], lines 91-93. *)
Definition onSuccess : M unit :=
  let* d := getDelay in
  if MIN_DELAY_MS <? d then setDelay (Z.max MIN_DELAY_MS (d - 50)) else ret tt.

(** [onThrottle()], lines 94-97. *)
Definition onThrottle : M unit :=
  let* d := getDelay in
  setDelay (Z.min MAX_DELAY_MS (d * 2));;
  let* d' := getDelay in
  log (LogThrottle d').

Section Client.

(** The provider: the reply to the request issued when [clock] requests
    have already been made. *)
Variable provider : nat -> Endpoint -> Reply.

Definition fetch (ep : Endpoint) : M Reply :=
  fun w => (Ok (provider (clock w) ep),
            {| ledger := ledger w; disk := disk w; callDelayMs := callDelayMs w;
               clock := S (clock w); events := events w ++ [EvRequest ep] |}).

(** One pass through the promise inside the [try] of [wocGet], lines
    103-122. *)
Definition request (ep : Endpoint) : M (option Body) :=
  let* r := fetch ep in
  match r with
  | Http statusCode body =>
      if statusCode =? 200 then onSuccess;; ret body
      else if statusCode =? 404 then onSuccess;; ret None
      else if statusCode =? 429 then onThrottle;; throw RateLimited
      else throw (WocStatus statusCode)
  | ReqTimeout => throw TimeoutError
  | ReqError msg => throw (NetworkError msg)
  end.

(** [wocGet], lines 100-133: the
    [for (attempt = 0; attempt <= retries; attempt++)] loop;
    [left = retries - attempt]. *)
Fixpoint wocGetLoop (left attempt : nat) (ep : Endpoint) : M (option Body) :=
  tryCatch (request ep)
    (fun e => match left with
              | S left' =>
                  sleep (BASE_BACKOFF_MS * 2 ^ Z.of_nat attempt);;
                  wocGetLoop left' (S attempt) ep
              | O => throw e
              end).

Definition wocGet (ep : Endpoint) : M (option Body) :=
  wocGetLoop MAX_RETRIES 0 ep.

(** [getSpender], lines 135-139. *)
Definition getSpender (txid : string) (vout : Z) : M (option string) :=
  let* result := wocGet (EpSpent txid vout) in
  match result with
  | Some b => if truthy (b_txid b) then ret (b_txid b) else ret None
  | None => ret None
  end.

(** [getTx], lines 141-143. *)
Definition getTx (txid : string) : M (option Body) :=
  wocGet (EpTx txid).

(** [await sleep(callDelayMs)] *)
Definition pace : M unit :=
  let* d := getDelay in sleep d.

(** ** Forward tracer *)

Record TraceResult := {
  r_owner : option string;
  r_lastTx : string;
  r_lastVout : Z;
  r_newTransfers : list Transfer;
  r_hops : Z
}.

Definition HOP_CEILING : nat := 100.

Definition sendEvent (txid : string) (from to : option string) (tx : Body) : Transfer :=
  {| t_txid := txid; t_type := "send"%string; t_from := from; t_to := to;
     t_blockHeight := b_blockheight tx |}.

(** [!jig.isOrderLock && jig.addr && jig.addr !== owner] *)
Definition movesTo (jig : Jig) (o : option string) : bool :=
  negb (isOrderLock jig) && truthy (j_addr jig) && negb (bool_decide (j_addr jig = o)).

(** [traceForward], lines 175-212: the [while (hops < 100)] loop;
    [fuel = 100 - hops]. *)
Fixpoint traceLoop (fuel : nat) (txid : string) (vout : Z) (o : option string)
    (newTransfers : list Transfer) (hops : Z) : M TraceResult :=
  let stop h := ret {| r_owner := o; r_lastTx := txid; r_lastVout := vout;
                       r_newTransfers := newTransfers; r_hops := h |} in
  match fuel with
  | O => stop hops
  | S fuel' =>
      let* spendingTxid := getSpender txid vout in
      pace;;
      match spendingTxid with
      | None => stop hops
      | Some stx =>
          let hops' := hops + 1 in
          let* spendTx := getTx stx in
          pace;;
          match spendTx with
          | None => stop hops'
          | Some tx =>
              let* jig := liftRes (findJigVout tx) in
              match jig with
              | None => stop hops'
              | Some j =>
                  if movesTo j o
                  then traceLoop fuel' stx (j_vout j) (j_addr j)
                         (newTransfers ++ [sendEvent stx o (j_addr j) tx]) hops'
                  else traceLoop fuel' stx (j_vout j) o newTransfers hops'
              end
          end
      end
  end.

Definition traceForward (startTxid : string) (startVout : Z)
    (currentOwner : option string) : M TraceResult :=
  traceLoop HOP_CEILING startTxid startVout currentOwner [] 0.

(** The variables of the loop: the cursor [txid], [vout], the holder
    [owner] and the transfers collected. *)
Record Position := {
  p_txid : string;
  p_vout : Z;
  p_owner : option string;
  p_transfers : list Transfer
}.

(** One pass of the loop body, lines 183-209, from position [p]: the
    position the pass moves to, or [None] when it breaks. *)
Definition hop (p : Position) : M (option Position) :=
  let* spendingTxid := getSpender (p_txid p) (p_vout p) in
  pace;;
  match spendingTxid with
  | None => ret None
  | Some stx =>
      let* spendTx := getTx stx in
      pace;;
      match spendTx with
      | None => ret None
      | Some tx =>
          let* jig := liftRes (findJigVout tx) in
          match jig with
          | None => ret None
          | Some j =>
              if movesTo j (p_owner p)
              then ret (Some {| p_txid := stx; p_vout := j_vout j; p_owner := j_addr j;
                                p_transfers := p_transfers p
                                  ++ [sendEvent stx (p_owner p) (j_addr j) tx] |})
              else ret (Some {| p_txid := stx; p_vout := j_vout j; p_owner := p_owner p;
                                p_transfers := p_transfers p |})
          end
      end
  end.

(** The position reached by [k] passes from [p], none of which breaks. *)
Fixpoint reach (k : nat) (p : Position) : M (option Position) :=
  match k with
  | O => ret (Some p)
  | S k' =>
      let* q := hop p in
      match q with
      | None => ret None
      | Some q => reach k' q
      end
  end.

End Client.

(** ** Ledger store *)

(** [saveLedger()], lines 83-86: stamps [collection.lastUpdated] and writes the whole
    document.  The wall clock is abstracted to the logical clock.
    [fs.writeFileSync] overwrites the file in place: [disk] is the content
    of the file once the call has returned, and the model has no state in
    the middle of a write, so nothing proved here speaks of a process
    killed while it writes. *)
Definition saveLedger : M unit :=
  fun w =>
    let l := {| lastUpdated := clock w; nfts := nfts (ledger w); owners := owners (ledger w) |} in
    (Ok tt, {| ledger := l; disk := l; callDelayMs := callDelayMs w;
               clock := clock w; events := events w ++ [EvSave] |}).

(** A property name: [ledger.owners[addr]] coerces [addr] to a string, so
    a [null] owner reads the property called [null]. *)
Definition propertyKey (addr : option string) : string :=
  match addr with
  | Some a => a
  | None => "null"%string
  end.

(** The members of [Object.prototype].  [ledger.owners] is a plain object
    as [JSON.parse] makes it: reading a property that is not one of its
    own keys yields the member inherited under that name, when there is
    one, and [undefined] otherwise. *)
Definition prototypeMembers : list string :=
  [ "constructor"; "__defineGetter__"; "__defineSetter__"; "hasOwnProperty";
    "__lookupGetter__"; "__lookupSetter__"; "isPrototypeOf"; "propertyIsEnumerable";
    "toString"; "valueOf"; "__proto__"; "toLocaleString" ]%string.

Definition inherited (k : string) : bool := bool_decide (k ∈ prototypeMembers).

(** What [ledger.owners[addr]] evaluates to. *)
Inductive Slot :=
  | Own (l : list Z)   (* an own key: the array stored under it *)
  | Member             (* a function or object of [Object.prototype]: truthy, not an array *)
  | Undefined.

Definition readOwners (idx : gmap string (list Z)) (addr : option string) : Slot :=
  match idx !! propertyKey addr with
  | Some l => Own l
  | None => if inherited (propertyKey addr) then Member else Undefined
  end.

Definition setOwners (f : gmap string (list Z) -> gmap string (list Z)) : M unit :=
  withLedger (fun l => {| lastUpdated := lastUpdated l; nfts := nfts l; owners := f (owners l) |}).

(** [removeFromOwnerIndex], lines 214-218, on the index.  On an inherited
    member the guard [!ledger.owners[addr]] is false and [.filter] is not
    a function: the call throws before it has written anything. *)
Definition removeFromIndex (addr : option string) (num : Z)
    (idx : gmap string (list Z)) : Res (gmap string (list Z)) :=
  match readOwners idx addr with
  | Undefined => Ok idx
  | Member => Throw TypeError
  | Own l =>
      let l' := filter (fun n => n ≠ num) l in
      if bool_decide (length l' = 0%nat)
      then Ok (delete (propertyKey addr) (<[propertyKey addr := l']> idx))
      else Ok (<[propertyKey addr := l']> idx)
  end.

(** [addToOwnerIndex], lines 220-223, on the index.  On an inherited
    member no array is created and [.includes] is not a function: the
    call throws before it has written anything. *)
Definition addToIndex (addr : option string) (num : Z)
    (idx : gmap string (list Z)) : Res (gmap string (list Z)) :=
  match readOwners idx addr with
  | Member => Throw TypeError
  | Undefined =>
      let idx1 := <[propertyKey addr := []]> idx in
      Ok (<[propertyKey addr := [] ++ [num]]> idx1)
  | Own l =>
      if bool_decide (num ∈ l) then Ok idx
      else Ok (<[propertyKey addr := l ++ [num]]> idx)
  end.

Definition removeFromOwnerIndex (addr : option string) (num : Z) : M unit :=
  let* l := getLedger in
  let* idx := liftRes (removeFromIndex addr num (owners l)) in
  setOwners (fun _ => idx).

Definition addToOwnerIndex (addr : option string) (num : Z) : M unit :=
  let* l := getLedger in
  let* idx := liftRes (addToIndex addr num (owners l)) in
  setOwners (fun _ => idx).

(** [const nft = ledger.nfts[num]] followed by a property read: the read
    throws when the record is missing. *)
Definition getNft (num : Z) : M Nft :=
  let* l := getLedger in
  match nfts l !! num with
  | Some x => ret x
  | None => throw TypeError
  end.

(** Assignment to fields of the record aliased by [nft]. *)
Definition modifyNft (num : Z) (f : Nft -> Nft) : M unit :=
  withLedger (fun l => {| lastUpdated := lastUpdated l; nfts := alter f num (nfts l);
                          owners := owners l |}).

Definition setLastVout (v : Z) (x : Nft) : Nft :=
  {| owner := owner x; lastTx := lastTx x; lastVout := Some v;
     transfers := transfers x; burned := burned x; burnTx := burnTx x |}.
Definition setBurned (x : Nft) : Nft :=
  {| owner := owner x; lastTx := lastTx x; lastVout := lastVout x;
     transfers := transfers x; burned := true; burnTx := burnTx x |}.
Definition setBurnTx (t : string) (x : Nft) : Nft :=
  {| owner := owner x; lastTx := lastTx x; lastVout := lastVout x;
     transfers := transfers x; burned := burned x; burnTx := Some t |}.
Definition pushTransfers (ts : list Transfer) (x : Nft) : Nft :=
  {| owner := owner x; lastTx := lastTx x; lastVout := lastVout x;
     transfers := transfers x ++ ts; burned := burned x; burnTx := burnTx x |}.
Definition setOwner (o : option string) (x : Nft) : Nft :=
  {| owner := o; lastTx := lastTx x; lastVout := lastVout x;
     transfers := transfers x; burned := burned x; burnTx := burnTx x |}.
Definition setLastTx (t : string) (x : Nft) : Nft :=
  {| owner := owner x; lastTx := Some t; lastVout := lastVout x;
     transfers := transfers x; burned := burned x; burnTx := burnTx x |}.

Definition burnEvent (txid : string) (from : option string) (tx : Body) : Transfer :=
  {| t_txid := txid; t_type := "burn"%string; t_from := from; t_to := None;
     t_blockHeight := b_blockheight tx |}.

Inductive Status := Skip | Unchanged | Changed | Burned.

Section Refresh.

Variable provider : nat -> Endpoint -> Reply.

(** [resolveLastVout(nft)], lines 164-172, with [nft] the record of asset
    [num]. *)
Definition resolveLastVout (num : Z) : M (option Z) :=
  let* nft := getNft num in
  match lastVout nft with
  | Some v => ret (Some v)
  | None =>
      let* tx := getTx provider (default "undefined"%string (lastTx nft)) in
      pace;;
      match tx with
      | None => ret None
      | Some tx =>
          let* result := liftRes (findJigVout tx) in
          match result with
          | Some j => modifyNft num (setLastVout (j_vout j));; ret (Some (j_vout j))
          | None => ret None
          end
      end
  end.

(** [processNFT(num)], lines 226-291.  Every read of a field of [nft] is a
    read of the record in the ledger at that moment. *)
Definition processNFT (num : Z) : M Status :=
  let* nft := getNft num in
  if negb (truthy (lastTx nft)) then ret Skip
  else if burned nft then ret Unchanged
  else
    let* lastVout := resolveLastVout num in
    match lastVout with
    | None => throw CouldNotResolveVout
    | Some lastVout =>
        let* nft := getNft num in
        let* spendingTxid := getSpender provider (default "undefined"%string (lastTx nft)) lastVout in
        pace;;
        match spendingTxid with
        | None => ret Unchanged
        | Some spendingTxid =>
            let* spendTx := getTx provider spendingTxid in
            pace;;
            match spendTx with
            | None => throw CouldNotFetchSpendingTx
            | Some spendTx =>
                let* jig := liftRes (findJigVout spendTx) in
                match jig with
                | None =>
                    modifyNft num setBurned;;
                    modifyNft num (setBurnTx spendingTxid);;
                    let* nft := getNft num in
                    modifyNft num (pushTransfers [burnEvent spendingTxid (owner nft) spendTx]);;
                    let* nft := getNft num in
                    log (LogBurned num spendingTxid (owner nft));;
                    ret Burned
                | Some jig =>
                    let* nft := getNft num in
                    let oldOwner := owner nft in
                    let moved := movesTo jig oldOwner in
                    let currentOwner := if moved then j_addr jig else oldOwner in
                    let firstTransfers :=
                      if moved then [sendEvent spendingTxid oldOwner (j_addr jig) spendTx]
                      else [] in
                    let* result := traceForward provider spendingTxid (j_vout jig) currentOwner in
                    let allNewTransfers := firstTransfers ++ r_newTransfers result in
                    modifyNft num (pushTransfers allNewTransfers);;
                    modifyNft num (setOwner (r_owner result));;
                    modifyNft num (setLastTx (r_lastTx result));;
                    modifyNft num (setLastVout (r_lastVout result));;
                    (if bool_decide (oldOwner = r_owner result) then ret tt
                     else removeFromOwnerIndex oldOwner num;;
                          addToOwnerIndex (r_owner result) num);;
                    let totalHops := Z.of_nat (length allNewTransfers) + r_hops result in
                    log (LogMoved num totalHops (r_owner result));;
                    ret Changed
                end
            end
        end
    end.

(** ** Driver *)

Record Counters := {
  checked : Z;
  changed : Z;
  burnedRun : Z;
  errors : Z;
  failedNFTs : list Z
}.

Fixpoint forEach {A B} (f : A -> B -> M A) (a : A) (l : list B) : M A :=
  match l with
  | [] => ret a
  | x :: rest => let* a' := f a x in forEach f a' rest
  end.

(** [Object.keys(ledger.nfts).map(Number).sort((a, b) => a - b)] *)
Definition sortedNums (l : Ledger) : list Z :=
  merge_sort Z.le (map fst (map_to_list (nfts l))).

(** Body of the main [for (const num of nums)] loop, lines 304-325. *)
Definition mainStep (total : Z) (c : Counters) (num : Z) : M Counters :=
  let c := {| checked := checked c + 1; changed := changed c; burnedRun := burnedRun c;
              errors := errors c; failedNFTs := failedNFTs c |} in
  tryCatch
    (let* result := processNFT num in
     match result with
     | Changed =>
         let c := {| checked := checked c; changed := changed c + 1;
                     burnedRun := burnedRun c; errors := errors c;
                     failedNFTs := failedNFTs c |} in
         (if changed c mod 10 =? 0
          then saveLedger;;
               let* l := getLedger in
               log (LogSaved (checked c) total (changed c) (Z.of_nat (size (owners l))))
          else ret tt);;
         ret c
     | Burned =>
         let c := {| checked := checked c; changed := changed c;
                     burnedRun := burnedRun c + 1; errors := errors c;
                     failedNFTs := failedNFTs c |} in
         (if burnedRun c mod 10 =? 0 then saveLedger else ret tt);;
         ret c
     | _ =>
         (if checked c mod 50 =? 0
          then log (LogProgress (checked c) total (changed c) (burnedRun c) (errors c) num)
          else ret tt);;
         ret c
     end)
    (fun e =>
       log (LogError num e);;
       ret {| checked := checked c; changed := changed c; burnedRun := burnedRun c;
              errors := errors c + 1; failedNFTs := failedNFTs c ++ [num] |}).

(** Body of the loop over [retryList], lines 337-351. *)
Definition retryStep (c : Counters) (num : Z) : M Counters :=
  tryCatch
    (let* result := processNFT num in
     let c := match result with
              | Changed => {| checked := checked c; changed := changed c + 1;
                              burnedRun := burnedRun c; errors := errors c;
                              failedNFTs := failedNFTs c |}
              | _ => c
              end in
     log (LogResolved num match result with Changed => true | _ => false end);;
     ret {| checked := checked c; changed := changed c; burnedRun := burnedRun c;
            errors := errors c - 1; failedNFTs := failedNFTs c |})
    (fun e =>
       log (LogRetryError num e);;
       ret {| checked := checked c; changed := changed c; burnedRun := burnedRun c;
              errors := errors c; failedNFTs := failedNFTs c ++ [num] |}).

(** One iteration of
    [for (round = 1; round <= 2 && failedNFTs.length > 0; round++)], lines
    331-353. *)
Definition retryRound (round : Z) (c : Counters) : M Counters :=
  match failedNFTs c with
  | [] => ret c
  | retryList =>
      let c := {| checked := checked c; changed := changed c; burnedRun := burnedRun c;
                  errors := errors c; failedNFTs := [] |} in
      log (LogRetryRound round (Z.of_nat (length retryList)));;
      sleep 5000;;
      let* c := forEach retryStep c retryList in
      saveLedger;;
      ret c
  end.

(** The main pass only, up to and including the first unconditional save. *)
Definition mainPass : M Counters :=
  let* l := getLedger in
  let nums := sortedNums l in
  let total := Z.of_nat (length nums) in
  log (LogStart total);;
  let* c := forEach (mainStep total)
              {| checked := 0; changed := 0; burnedRun := 0; errors := 0; failedNFTs := [] |}
              nums in
  saveLedger;;
  log (LogMainDone (checked c) (changed c) (errors c));;
  ret c.

(** One run of the script, lines 293-372: main pass, retry rounds,
    summary, final save. *)
Definition refresh : M Counters :=
  let* c := mainPass in
  let* c := retryRound 1 c in
  let* c := retryRound 2 c in
  let* l := getLedger in
  let uniqueOwners := Z.of_nat (size (owners l)) in
  let totalBurned := Z.of_nat (length (filter (fun kv => burned kv.2 = true) (map_to_list (nfts l)))) in
  log (LogSummary (checked c) (changed c) (burnedRun c) totalBurned
         (Z.of_nat (length (failedNFTs c))) uniqueOwners);;
  (match failedNFTs c with
   | [] => ret tt
   | _ => log (LogUnresolved (failedNFTs c))
   end);;
  saveLedger;;
  ret c.

End Refresh.

(** ** Specification vocabulary *)

(** The record of an asset after a committed burn, and after a committed
    move. *)
Definition burnedRecord (x : Nft) (stx : string) (tx : Body) : Nft :=
  {| owner := owner x; lastTx := lastTx x; lastVout := lastVout x;
     transfers := transfers x ++ [burnEvent stx (owner x) tx];
     burned := true; burnTx := Some stx |}.

Definition movedRecord (x : Nft) (ts : list Transfer) (o : option string)
    (ltx : string) (lv : Z) : Nft :=
  {| owner := o; lastTx := Some ltx; lastVout := Some lv;
     transfers := transfers x ++ ts; burned := burned x; burnTx := burnTx x |}.

(** The index without [num] under [addr], and with [num] under [addr]:
    what the two helpers leave when they return. *)
Definition unlisted (addr : option string) (num : Z)
    (idx : gmap string (list Z)) : gmap string (list Z) :=
  match idx !! propertyKey addr with
  | None => idx
  | Some l =>
      let l' := filter (fun n => n ≠ num) l in
      if bool_decide (length l' = 0%nat)
      then delete (propertyKey addr) (<[propertyKey addr := l']> idx)
      else <[propertyKey addr := l']> idx
  end.

Definition listed (addr : option string) (num : Z)
    (idx : gmap string (list Z)) : gmap string (list Z) :=
  let idx1 := match idx !! propertyKey addr with
              | None => <[propertyKey addr := []]> idx
              | Some _ => idx
              end in
  match idx1 !! propertyKey addr with
  | Some l => if bool_decide (num ∈ l) then idx1
              else <[propertyKey addr := l ++ [num]]> idx1
  | None => idx1
  end.

(** A helper called with [addr] on [idx] throws: the name is inherited
    and not an own key. *)
Definition throwsOn (idx : gmap string (list Z)) (addr : option string) : bool :=
  match readOwners idx addr with Member => true | _ => false end.

(** The owner index after a committed move. *)
Definition movedIndex (old new : option string) (num : Z)
    (idx : gmap string (list Z)) : gmap string (list Z) :=
  if bool_decide (old = new) then idx
  else listed new num (unlisted old num idx).

(** Lines 283-286 on the index: the result of the two calls and the
    index they leave, which is the index reached when one of them
    throws. *)
Definition commitIndex (old new : option string) (num : Z)
    (idx : gmap string (list Z)) : Res unit * gmap string (list Z) :=
  if bool_decide (old = new) then (Ok tt, idx)
  else match removeFromIndex old num idx with
       | Throw e => (Throw e, idx)
       | Ok idx1 =>
           match addToIndex new num idx1 with
           | Throw e => (Throw e, idx1)
           | Ok idx2 => (Ok tt, idx2)
           end
       end.

(** The result of [processNFT] after the index calls of the commit. *)
Definition committed (r : Res unit) : Res Status :=
  match r with
  | Ok _ => Ok Changed
  | Throw e => Throw e
  end.

Definition withNfts (f : gmap Z Nft -> gmap Z Nft) (l : Ledger) : Ledger :=
  {| lastUpdated := lastUpdated l; nfts := f (nfts l); owners := owners l |}.

(** What [resolveLastVout] may have done to the ledger: nothing, or
    filled in a [lastVout] that was not stored. *)
Inductive cached (num : Z) (L : Ledger) : Ledger -> Prop :=
  | cached_same : cached num L L
  | cached_set x v :
      nfts L !! num = Some x -> lastVout x = None -> burned x = false ->
      cached num L (withNfts (insert num (setLastVout v x)) L).

(** A chain of custody from [o] to [o']: every transfer is a [send] from
    the holder at that point to another, non-empty address, which is the
    holder from then on. *)
Fixpoint custody (o : option string) (ts : list Transfer) (o' : option string) : Prop :=
  match ts with
  | [] => o' = o
  | t :: rest =>
      t_type t = "send"%string /\ t_from t = o /\
      truthy (t_to t) = true /\ t_to t <> o /\
      custody (t_to t) rest o'
  end.

(** What [wocGet] resolves with on a reply, if the reply is a success. *)
Definition replyValue (r : Reply) : option (option Body) :=
  match r with
  | Http statusCode body =>
      if statusCode =? 200 then Some body
      else if statusCode =? 404 then Some None
      else None
  | _ => None
  end.

(** The provider reports the address [a]: it is the first address of an
    output of a transaction body that some request is answered with. *)
Definition reported (provider : nat -> Endpoint -> Reply) (a : string) : Prop :=
  exists k ep tx outs v,
    replyValue (provider k ep) = Some (Some tx) /\ b_vout tx = Some outs /\
    v ∈ outs /\ firstAddress v = Some a.

(** The ledger transitions of one [processNFT] call, by result.  [R]
    holds of the addresses a new owner can be.  A move is committed to
    the record first and to the index after that: when an index helper
    throws, the record has moved and the index is as the helpers left
    it. *)
Inductive outcome (R : string -> Prop) (num : Z) (L : Ledger) : Res Status -> Ledger -> Prop :=
  | out_throw e : outcome R num L (Throw e) L
  | out_skip : outcome R num L (Ok Skip) L
  | out_unchanged : outcome R num L (Ok Unchanged) L
  | out_burned x stx tx :
      nfts L !! num = Some x -> burned x = false ->
      outcome R num L (Ok Burned) (withNfts (insert num (burnedRecord x stx tx)) L)
  | out_changed x ts o ltx lv idx' :
      nfts L !! num = Some x -> burned x = false -> truthy (lastTx x) = true ->
      custody (owner x) ts o ->
      (o = owner x \/ exists a, o = Some a /\ R a) ->
      truthy (Some ltx) = true ->
      commitIndex (owner x) o num (owners L) = (Ok tt, idx') ->
      outcome R num L (Ok Changed)
        {| lastUpdated := lastUpdated L;
           nfts := <[num := movedRecord x ts o ltx lv]> (nfts L);
           owners := idx' |}
  | out_torn x ts o ltx lv e idx' :
      nfts L !! num = Some x -> burned x = false -> truthy (lastTx x) = true ->
      custody (owner x) ts o ->
      (o = owner x \/ exists a, o = Some a /\ R a) ->
      truthy (Some ltx) = true ->
      commitIndex (owner x) o num (owners L) = (Throw e, idx') ->
      outcome R num L (Throw e)
        {| lastUpdated := lastUpdated L;
           nfts := <[num := movedRecord x ts o ltx lv]> (nfts L);
           owners := idx' |}.

Definition isThrottle (r : Reply) : bool :=
  match r with
  | Http statusCode _ => statusCode =? 429
  | _ => false
  end.

(** A failure other than rate limiting. *)
Definition isHardFailure (r : Reply) : bool :=
  match replyValue r with
  | Some _ => false
  | None => negb (isThrottle r)
  end.

(** Hard failures among the replies to requests [k], ..., [k + n - 1]. *)
Fixpoint hardFailures (provider : nat -> Endpoint -> Reply) (ep : Endpoint)
    (k n : nat) : nat :=
  match n with
  | O => O
  | S n' => ((if isHardFailure (provider k ep) then 1 else 0)
             + hardFailures provider ep (S k) n')%nat
  end.

(** The reading of "throttling is outside the retry budget": a request
    whose [n] failed replies contain at most [MAX_RETRIES] hard failures,
    and whose next reply is a success, delivers that success. *)
Definition throttlingOutsideBudget : Prop :=
  forall (provider : nat -> Endpoint -> Reply) (ep : Endpoint) (w : World)
         (n : nat) (v : option Body),
    (forall i, (i < n)%nat -> replyValue (provider (clock w + i)%nat ep) = None) ->
    replyValue (provider (clock w + n)%nat ep) = Some v ->
    (hardFailures provider ep (clock w) n <= MAX_RETRIES)%nat ->
    (wocGet provider ep w).1 = Ok v.

(** *** A provider that keeps giving the same answer *)

Section Answers.

Variable provider : nat -> Endpoint -> Reply.

(** Whenever it is asked, the provider answers [ep] with the value [v]. *)
Definition answers (ep : Endpoint) (v : option Body) : Prop :=
  forall k, replyValue (provider k ep) = Some v.

(** Output [vout] of [txid] is reported spent by [stx]. *)
Definition spentBy (txid : string) (vout : Z) (stx : string) : Prop :=
  exists b, answers (EpSpent txid vout) (Some b) /\ b_txid b = Some stx /\
            truthy (Some stx) = true.

(** Output [vout] of [txid] is reported unspent. *)
Definition unspent (txid : string) (vout : Z) : Prop :=
  exists v, answers (EpSpent txid vout) v /\
            match v with Some b => truthy (b_txid b) = false | None => True end.

Definition hasTx (txid : string) (tx : Body) : Prop := answers (EpTx txid) (Some tx).

Definition noTx (txid : string) : Prop := answers (EpTx txid) None.

End Answers.

(** *** Why the tracing loop ended *)

Inductive StopReason :=
  | AtTip        (* [if (!spendingTxid) break] *)
  | TxMissing    (* [if (!spendTx) break] *)
  | NoJig        (* [if (!jig) break] *)
  | Ceiling.     (* [hops < 100] is false *)

Section Stop.

Variable provider : nat -> Endpoint -> Reply.

(** The loop of [traceForward] again, followed through the same requests,
    but returning the exit it takes instead of the accumulated state.
    The owner and the transfers play no part in the control flow. *)
Fixpoint stopReasonLoop (fuel : nat) (txid : string) (vout : Z) : M StopReason :=
  match fuel with
  | O => ret Ceiling
  | S fuel' =>
      let* spendingTxid := getSpender provider txid vout in
      pace;;
      match spendingTxid with
      | None => ret AtTip
      | Some stx =>
          let* spendTx := getTx provider stx in
          pace;;
          match spendTx with
          | None => ret TxMissing
          | Some tx =>
              let* jig := liftRes (findJigVout tx) in
              match jig with
              | None => ret NoJig
              | Some j => stopReasonLoop fuel' stx (j_vout j)
              end
          end
      end
  end.

Definition stopReason (startTxid : string) (startVout : Z) : M StopReason :=
  stopReasonLoop HOP_CEILING startTxid startVout.

End Stop.

(** The reading of "the ceiling is reported to the caller": some function
    of the value [traceForward] returns tells whether the loop ended at
    the ceiling. *)
Definition ceilingReported : Prop :=
  exists report : TraceResult -> bool,
    forall (provider : nat -> Endpoint -> Reply) (txid : string) (vout : Z)
           (o : option string) (w : World) (r : TraceResult),
      (traceForward provider txid vout o w).1 = Ok r ->
      (report r = true <-> (stopReason provider txid vout w).1 = Ok Ceiling).

(** The messages written to the log, in order. *)
Definition logged (evs : list Event) : list LogMsg :=
  omap (fun e => match e with EvLog m => Some m | _ => None end) evs.

(** Asset [num] has the live record [x], last seen at output [vout] of
    [txid], with the output index stored. *)
Definition trackedAt (w : World) (num : Z) (x : Nft) (txid : string) (vout : Z) : Prop :=
  nfts (ledger w) !! num = Some x /\ lastTx x = Some txid /\
  truthy (lastTx x) = true /\ burned x = false /\ lastVout x = Some vout.

(** As [trackedAt], but the output index may still have to be resolved:
    then the provider has the transaction [txid] and the classifier finds
    its jig at [vout]. *)
Definition locatedAt (provider : nat -> Endpoint -> Reply) (w : World) (num : Z)
    (x : Nft) (txid : string) (vout : Z) : Prop :=
  nfts (ledger w) !! num = Some x /\ lastTx x = Some txid /\
  truthy (lastTx x) = true /\ burned x = false /\
  (lastVout x = Some vout \/
   (lastVout x = None /\
    exists tx j, hasTx provider txid tx /\ findJigVout tx = Ok (Some j) /\ j_vout j = vout)).

(** *** Settled ledgers *)

(** The chain as a provider that answers the same at every request. *)
Definition steady (chain : Endpoint -> Reply) : nat -> Endpoint -> Reply :=
  fun _ => chain.

(** The record needs no work: it has no [lastTx], or is burned, or its
    stored position is one the chain reports unspent. *)
Definition atTip (chain : Endpoint -> Reply) (x : Nft) : bool :=
  negb (truthy (lastTx x)) || burned x ||
  match lastTx x, lastVout x with
  | Some t, Some v =>
      match replyValue (chain (EpSpent t v)) with
      | Some (Some b) => negb (truthy (b_txid b))
      | Some None => true
      | None => false
      end
  | _, _ => false
  end.

Definition settledb (chain : Endpoint -> Reply) (l : Ledger) : bool :=
  forallb (fun kv : Z * Nft => atTip chain kv.2) (map_to_list (nfts l)).

(** Counters of a run in which nothing changed, burned or failed. *)
Definition quiet (c : Counters) : Prop :=
  changed c = 0 /\ burnedRun c = 0 /\ errors c = 0 /\ failedNFTs c = [].

(** The reading of "idempotence": whatever the chain and the ledger, a
    second run against the same chain leaves records and index as the
    first run left them, and counts no change, burn or failure. *)
Definition refreshIdempotent : Prop :=
  forall (chain : Endpoint -> Reply) (w : World),
    let w1 := (refresh (steady chain) w).2 in
    exists c w2, refresh (steady chain) w1 = (Ok c, w2) /\
      nfts (ledger w2) = nfts (ledger w1) /\ owners (ledger w2) = owners (ledger w1) /\
      changed c = 0 /\ burnedRun c = 0 /\ failedNFTs c = [].

(** A property of the asset records and the owner index, read off a world. *)
Definition ledgerInv (I : gmap Z Nft -> gmap string (list Z) -> Prop) (w : World) : Prop :=
  I (nfts (ledger w)) (owners (ledger w)).

(** Properties kept by each of the three committed ledger updates. *)
Record stable (I : gmap Z Nft -> gmap string (list Z) -> Prop) : Prop := {
  stable_cache : forall m idx num x v,
    I m idx -> m !! num = Some x -> burned x = false -> lastVout x = None ->
    I (<[num := setLastVout v x]> m) idx;
  stable_burn : forall m idx num x stx tx,
    I m idx -> m !! num = Some x -> burned x = false ->
    I (<[num := burnedRecord x stx tx]> m) idx;
  stable_move : forall m idx num x ts o ltx lv,
    I m idx -> m !! num = Some x -> burned x = false ->
    o = owner x \/ truthy o = true ->
    custody (owner x) ts o ->
    I (<[num := movedRecord x ts o ltx lv]> m) (movedIndex (owner x) o num idx)
}.

(** No owner in the ledger, and no address the provider reports, is the
    name of a member of [Object.prototype]; no Bitcoin address is. *)
Definition cleanOwners (m : gmap Z Nft) : Prop :=
  forall id x, m !! id = Some x -> inherited (propertyKey (owner x)) = false.

Definition cleanProvider (provider : nat -> Endpoint -> Reply) : Prop :=
  forall a, reported provider a -> inherited a = false.

(** [I] holds of the ledger, and no owner in it names a member of
    [Object.prototype]. *)
Definition cleanInv (I : gmap Z Nft -> gmap string (list Z) -> Prop) (w : World) : Prop :=
  ledgerInv I w /\ cleanOwners (nfts (ledger w)).

(** [preserves P m]: running [m] keeps [P], whether it returns or throws. *)
Definition preserves {A} (P : World -> Prop) (m : M A) : Prop :=
  forall w, P w -> P (m w).2.

(** Membership of asset [id] in the array stored under [a]. *)
Definition holds (idx : gmap string (list Z)) (a : string) (id : Z) : Prop :=
  exists l, idx !! a = Some l /\ id ∈ l.

(** Index consistency: [id] is listed under [a] exactly when the record of
    [id] names [a] as owner. *)
Definition indexConsistent (m : gmap Z Nft) (idx : gmap string (list Z)) : Prop :=
  forall (a : string) (id : Z),
    holds idx a id <-> exists x, m !! id = Some x /\ owner x = Some a.

(** The events of [w] continue those of [w0] with a request for [ep]. *)
Definition beginsWith (w0 : World) (ep : Endpoint) (w : World) : Prop :=
  exists evs, events w = events w0 ++ EvRequest ep :: evs.



(** Hygiene of the owner index: no empty array, no repeated asset number. *)
Definition hygienic (idx : gmap string (list Z)) : Prop :=
  forall a l, idx !! a = Some l -> l <> [] /\ NoDup l.

(** A call of one of the two owner-index helpers. *)
Inductive IndexCall :=
  | CallAdd (addr : option string) (num : Z)
  | CallRemove (addr : option string) (num : Z).

Definition runCall (c : IndexCall) : M unit :=
  match c with
  | CallAdd addr num => addToOwnerIndex addr num
  | CallRemove addr num => removeFromOwnerIndex addr num
  end.

Fixpoint runCalls (cs : list IndexCall) : M unit :=
  match cs with
  | [] => ret tt
  | c :: rest => runCall c;; runCalls rest
  end.

(** The number of property names whose array lists at least one asset. *)
Definition holders (idx : gmap string (list Z)) : nat :=
  size (filter (fun kv : string * list Z => kv.2 <> []) idx).

(** [passes n]: the world after [n] consecutive runs of the script. *)
Fixpoint passes (provider : nat -> Endpoint -> Reply) (n : nat) (w : World) : World :=
  match n with
  | O => w
  | S n' => passes provider n' (refresh provider w).2
  end.

(** [netOp m]: running [m] leaves the ledger as it is. *)
Definition netOp {A} (m : M A) : Prop :=
  forall w, ledger (m w).2 = ledger w.

(** [returns m]: [m] never throws. *)
Definition returns {A} (m : M A) : Prop :=
  forall w, exists a w', m w = (Ok a, w').

(** ** Concrete chains used as test inputs *)

Module Scenario.

Definition p2pkh (a : string) : ScriptPubKey :=
  {| asm := Some "OP_DUP OP_HASH160 OP_EQUALVERIFY OP_CHECKSIG"%string;
     type := Some "pubkeyhash"%string; addresses := Some [a] |}.

(** A 1000-satoshi output to [a]: the jig of a plain transfer. *)
Definition dustOut (i : Z) (a : string) : Vout :=
  {| n := i; value := (1 # 100000)%Q; scriptPubKey := Some (p2pkh a) |}.

(** A 1-satoshi non-standard output: an order lock. *)
Definition lockOut (i : Z) : Vout :=
  {| n := i; value := (1 # 100000000)%Q;
     scriptPubKey := Some {| asm := Some "OP_SHA256 OP_CHECKSIG"%string;
                             type := Some "nonstandard"%string; addresses := None |} |}.

(** Half a coin to [a]: an ordinary payment, not a jig. *)
Definition payOut (i : Z) (a : string) : Vout :=
  {| n := i; value := (1 # 2)%Q; scriptPubKey := Some (p2pkh a) |}.

Definition txBody (id : string) (outs : list Vout) (height : Z) : Body :=
  {| b_txid := Some id; b_vout := Some outs; b_blockheight := Some height |}.

Definition spentIn (id : string) : Reply :=
  Http 200 (Some {| b_txid := Some id; b_vout := None; b_blockheight := None |}).

Definition notSpent : Reply := Http 404 None.

Definition nftAt (o : string) (t : string) (v : option Z) : Nft :=
  {| owner := Some o; lastTx := Some t; lastVout := v; transfers := [];
     burned := false; burnTx := None |}.

(** Asset 7, held by [A], last seen at output 0 of [P]. *)
Definition ledger7 (v : option Z) : Ledger :=
  {| lastUpdated := 0;
     nfts := {[ 7 := nftAt "A" "P" v ]};
     owners := {[ "A"%string := [7] ]} |}.

Definition world7 (v : option Z) : World :=
  {| ledger := ledger7 v; disk := ledger7 v; callDelayMs := INITIAL_DELAY_MS;
     clock := 0; events := [] |}.

(** [P:0] is spent into an order lock in [T1], which is spent into a dust
    output to [B] in [T2]; that output is unspent. *)
Definition escrowChain (k : nat) (ep : Endpoint) : Reply :=
  match ep with
  | EpSpent "P" 0 => spentIn "T1"
  | EpTx "T1" => Http 200 (Some (txBody "T1" [payOut 0 "X"; lockOut 1] 800))
  | EpSpent "T1" 1 => spentIn "T2"
  | EpTx "T2" => Http 200 (Some (txBody "T2" [dustOut 0 "B"; payOut 1 "A"] 801))
  | _ => notSpent
  end%string.

(** [P:0] moves to [B] in [T1]; [T1:0] is spent by [T2], which has no jig
    output. *)
Definition lateBurnChain (k : nat) (ep : Endpoint) : Reply :=
  match ep with
  | EpSpent "P" 0 => spentIn "T1"
  | EpTx "T1" => Http 200 (Some (txBody "T1" [dustOut 0 "B"] 800))
  | EpSpent "T1" 0 => spentIn "T2"
  | EpTx "T2" => Http 200 (Some (txBody "T2" [payOut 0 "X"] 801))
  | _ => notSpent
  end%string.

(** As [lateBurnChain], but the provider answers 404 for [T2]. *)
Definition missingTxChain (k : nat) (ep : Endpoint) : Reply :=
  match ep with
  | EpSpent "P" 0 => spentIn "T1"
  | EpTx "T1" => Http 200 (Some (txBody "T1" [dustOut 0 "B"] 800))
  | EpSpent "T1" 0 => spentIn "T2"
  | EpTx "T2" => Http 404 None
  | _ => notSpent
  end%string.



(** Asset 7 again, already marked burned in [T0]. *)
Definition burned7 : Nft :=
  {| owner := Some "A"%string; lastTx := Some "P"%string; lastVout := Some 0;
     transfers := [burnEvent "T0" (Some "A"%string) (txBody "T0" [] 790)];
     burned := true; burnTx := Some "T0"%string |}.

Definition burnedWorld : World :=
  let l := {| lastUpdated := 0; nfts := {[ 7 := burned7 ]};
              owners := {[ "A"%string := [7] ]} |} in
  {| ledger := l; disk := l; callDelayMs := INITIAL_DELAY_MS; clock := 0; events := [] |}.

(** Asset 7, held by [A], last seen at output 0 of [O]. *)
Definition worldAtO : World :=
  let l := {| lastUpdated := 0; nfts := {[ 7 := nftAt "A" "O" (Some 0) ]};
              owners := {[ "A"%string := [7] ]} |} in
  {| ledger := l; disk := l; callDelayMs := INITIAL_DELAY_MS; clock := 0; events := [] |}.

(** A chain without end: [O:0] is spent by [P], and output 0 of every
    later transaction [t] by the transaction named [t] followed by [a];
    each of them pays the dust back to [A]. *)
Definition longChain (k : nat) (ep : Endpoint) : Reply :=
  match ep with
  | EpSpent t 0 => if String.eqb t "O" then spentIn "P" else spentIn (t ++ "a")
  | EpSpent _ _ => notSpent
  | EpTx t => Http 200 (Some (txBody t [dustOut 0 "A"] 800))
  end%string.

(** A chain that ends in a transaction without a jig: [P:0] is spent by
    [Paa], the names grow by one letter from there on, and the
    transaction whose name has 102 letters, the hundredth after [P], pays
    no dust. *)
Definition cutChain (k : nat) (ep : Endpoint) : Reply :=
  match ep with
  | EpSpent t 0 =>
      if String.eqb t "O" then spentIn "P"
      else if String.eqb t "P" then spentIn "Paa"
      else spentIn (t ++ "a")
  | EpSpent _ _ => notSpent
  | EpTx t =>
      if (String.length t =? 102)%nat
      then Http 200 (Some (txBody t [payOut 0 "X"] 800))
      else Http 200 (Some (txBody t [dustOut 0 "A"] 800))
  end%string.

Fixpoint letters (k : nat) : string :=
  match k with
  | O => EmptyString
  | S k' => ("a" ++ letters k')%string
  end.

(** What both chains make [traceForward] return from [P:0]: the cursor on
    the hundredth transaction after [P] in [longChain], a hundred hops. *)
Definition afterHundred : TraceResult :=
  {| r_owner := Some "A"%string; r_lastTx := ("P" ++ letters 100)%string; r_lastVout := 0;
     r_newTransfers := []; r_hops := 100 |}.

(** Four rate-limit responses, then the provider answers normally. *)
Definition throttled (k : nat) (ep : Endpoint) : Reply :=
  if (k <? 4)%nat then Http 429 None else spentIn "T1".

End Scenario.

(** * The rest of the scripts *)

(** ** The backup wrapper, [scheduled-refresh.cjs], lines 16-33

    The backup directory is the list of its file names.  [Array.sort()]
    without a comparator orders strings by code unit; for the ASCII names
    the wrapper writes this is the order of [String.le]. *)

Module Backup.

Definition startsWith (f p : string) : bool := String.prefix p f.

Definition endsWith (f s : string) : bool :=
  String.prefix (String.rev s) (String.rev f).

(** [f.startsWith('ledger-') && f.endsWith('.json')] *)
Definition isBackup (f : string) : bool :=
  startsWith f "ledger-" && endsWith f ".json".

Definition KEEP : nat := 30.

(** [fs.readdirSync(BACKUP_DIR).filter(...).sort().reverse()] *)
Definition backups (files : list string) : list string :=
  reverse (merge_sort String.le (filter (fun f => isBackup f = true) files)).

(** The files unlinked by
    [if (backups.length > 30) backups.slice(30).forEach(unlink)]. *)
Definition removed (files : list string) : list string :=
  if (KEEP <? length (backups files))%nat then drop KEEP (backups files) else [].

(** The directory after the clean-up. *)
Definition cleanup (files : list string) : list string :=
  filter (fun f => f ∉ removed files) files.

(** A directory with thirty-two backups and two other files. *)
Definition sample : list string :=
  "ledger.json"%string
  :: map (fun k => ("ledger-2026-" ++ Scenario.letters k ++ ".json")%string) (seq 0 32)
  ++ ["notes.txt"%string].

End Backup.

(** ** The classifier of the backfill script, [unnamed/part_001], lines
    41-56: the same two loops, returning the output index only. *)

Module Backfill.

Fixpoint firstOrderLock (outs : list Vout) : option Z :=
  match outs with
  | [] => None
  | v :: rest =>
      if isOpReturn v then firstOrderLock rest
      else if isOrderLockOut v then Some (n v)
      else firstOrderLock rest
  end.

Fixpoint firstDust (outs : list Vout) : option Z :=
  match outs with
  | [] => None
  | v :: rest =>
      if isOpReturn v then firstDust rest
      else if isDustToAddress v then Some (n v)
      else firstDust rest
  end.

Definition findJigVout (tx : Body) : Res (option Z) :=
  match b_vout tx with
  | None => Throw TypeError
  | Some outs =>
      match firstOrderLock outs with
      | Some i => Ok (Some i)
      | None => Ok (firstDust outs)
      end
  end.

End Backfill.

(** ** The classification inside [traceNFT], [index-owners.cjs], lines
    85-124: the variables [newAddr], [newVout] and [isOrderLock] after the
    two loops, and the test that records a transfer. *)

Module Indexer.

Record Found := {
  newAddr : option string;
  newVout : option Z;
  orderLock : bool
}.

(** The first loop: [newVout = vout.n; isOrderLock = true; break]. *)
Fixpoint lockLoop (outs : list Vout) : option Z :=
  match outs with
  | [] => None
  | v :: rest =>
      if isOpReturn v then lockLoop rest
      else if isOrderLockOut v then Some (n v)
      else lockLoop rest
  end.

(** The second loop: [newAddr = addr; newVout = vout.n; break]. *)
Fixpoint dustLoop (outs : list Vout) : option (option string * Z) :=
  match outs with
  | [] => None
  | v :: rest =>
      if isOpReturn v then dustLoop rest
      else if isDustToAddress v then Some (firstAddress v, n v)
      else dustLoop rest
  end.

(** [spendTx.vout] after [let newAddr = null; let newVout = null;
    let isOrderLock = false;], lines 85-110. *)
Definition classify (spendTx : Body) : Res Found :=
  match b_vout spendTx with
  | None => Throw TypeError
  | Some outs =>
      match lockLoop outs with
      | Some i => Ok {| newAddr := None; newVout := Some i; orderLock := true |}
      | None =>
          match dustLoop outs with
          | Some (a, i) => Ok {| newAddr := a; newVout := Some i; orderLock := false |}
          | None => Ok {| newAddr := None; newVout := None; orderLock := false |}
          end
      end
  end.

(** [!isOrderLock && newAddr && newAddr !== currentAddr] *)
Definition recordsTransfer (f : Found) (currentAddr : option string) : bool :=
  negb (orderLock f) && truthy (newAddr f) && negb (bool_decide (newAddr f = currentAddr)).

(** Lines 112-127, the rest of one pass of the loop: [None] is the
    [break] on [newVout === null]; otherwise the new [currentVout], the
    new [currentAddr] and the transfers pushed in this pass. *)
Definition advance (spendingTxid : string) (spendTx : Body) (currentAddr : option string)
    : Res (option (Z * option string * list Transfer)) :=
  match classify spendTx with
  | Throw e => Throw e
  | Ok f =>
      match newVout f with
      | None => Ok None
      | Some v =>
          if recordsTransfer f currentAddr
          then Ok (Some (v, newAddr f,
                 [ {| t_txid := spendingTxid; t_type := "send"%string;
                      t_from := currentAddr; t_to := newAddr f;
                      t_blockHeight := b_blockheight spendTx |} ]))
          else Ok (Some (v, currentAddr, []))
      end
  end.

End Indexer.


(** ** Vocabulary for the further properties *)

(** [MIN_DELAY_MS <= callDelayMs <= MAX_DELAY_MS] *)
Definition delayInRange (w : World) : Prop :=
  MIN_DELAY_MS <= callDelayMs w <= MAX_DELAY_MS.

Definition isRequest (e : Event) : bool :=
  match e with EvRequest _ => true | _ => false end.

(** The requests and the pauses among a list of events, in order. *)
Definition requestsOf (evs : list Event) : list Endpoint :=
  omap (fun e => match e with EvRequest ep => Some ep | _ => None end) evs.

Definition sleepsOf (evs : list Event) : list Z :=
  omap (fun e => match e with EvSleep ms => Some ms | _ => None end) evs.

(** The error the promise of [wocGet] is rejected with on a reply, lines
    112-120. *)
Definition replyError (r : Reply) : option Error :=
  match r with
  | Http statusCode _ =>
      if statusCode =? 200 then None
      else if statusCode =? 404 then None
      else if statusCode =? 429 then Some RateLimited
      else Some (WocStatus statusCode)
  | ReqTimeout => Some TimeoutError
  | ReqError msg => Some (NetworkError msg)
  end.

(** The pauses [BASE_BACKOFF_MS * Math.pow(2, attempt)] for [k] attempts
    from [attempt] on. *)
Definition backoffs (attempt k : nat) : list Z :=
  map (fun i => BASE_BACKOFF_MS * 2 ^ Z.of_nat i) (seq attempt k).

(** Record [x'] continues record [x]: the history is extended at its end,
    an owner, a stored output index and the burned flag are not lost. *)
Definition continues (x x' : Nft) : Prop :=
  transfers x `prefix_of` transfers x' /\
  (truthy (owner x) = true -> truthy (owner x') = true) /\
  (is_Some (lastVout x) -> is_Some (lastVout x')) /\
  (burned x = true -> burned x' = true).

(** A burned record names the burning transaction, and its history ends
    with the burn event of that transaction, sent by the owner. *)
Definition burnRecorded (x : Nft) : Prop :=
  burned x = true ->
  exists stx t, burnTx x = Some stx /\ last (transfers x) = Some t /\
    t_type t = "burn"%string /\ t_txid t = stx /\ t_from t = owner x /\ t_to t = None.

(** The property names of the index are the owners of the records. *)
Definition keysAreOwners (m : gmap Z Nft) (idx : gmap string (list Z)) : Prop :=
  forall a, is_Some (idx !! a) <-> exists id x, m !! id = Some x /\ owner x = Some a.

(** The recipient of the last transfer of a history that is not a burn,
    if there is one. *)
Definition recipient (ts : list Transfer) : option (option string) :=
  foldl (fun acc t => if String.eqb (t_type t) "burn" then acc else Some (t_to t)) None ts.

(** The owner of the record is the last recipient of its history. *)
Definition coherent (x : Nft) : Prop :=
  forall a, recipient (transfers x) = Some a -> a = owner x.

(** Asset 7 as the indexer leaves it: minted to [A], still at output 0
    of [P]. *)
Definition minted7 : World :=
  let x := {| owner := Some "A"%string; lastTx := Some "P"%string; lastVout := Some 0;
              transfers := [ {| t_txid := "P"%string; t_type := "mint"%string;
                                t_from := None; t_to := Some "A"%string;
                                t_blockHeight := None |} ];
              burned := false; burnTx := None |} in
  let l := {| lastUpdated := 0; nfts := {[ 7 := x ]}; owners := {[ "A"%string := [7] ]} |} in
  {| ledger := l; disk := l; callDelayMs := INITIAL_DELAY_MS; clock := 0; events := [] |}.

(** [ticks m n]: running [m] advances the request counter by at most
    [n], and never sets it back. *)
Definition ticks {A} (m : M A) (n : nat) : Prop :=
  forall w, (clock w <= clock (m w).2 <= clock w + n)%nat.

(** The world [w'] continues [w]: the events of [w] followed by [evs],
    with one tick of the request counter for each request among them. *)
Definition accounted (w : World) (evs : list Event) (w' : World) : Prop :=
  events w' = events w ++ evs /\
  clock w' = (clock w + length (requestsOf evs))%nat.

(** [yields m Q]: [m] returns, and what it returns satisfies [Q]. *)
Definition yields {A} (m : M A) (Q : A -> Prop) : Prop :=
  forall w, exists a w', m w = (Ok a, w') /\ Q a.

(** The counters of the driver add up, after the main loop has gone
    through the assets [done]: every asset is counted once, the error
    count is the length of the retry queue, which lists assets gone
    through, in their order, and an asset counts as changed, burned or
    failed at most once. *)
Definition tally (done : list Z) (c : Counters) : Prop :=
  checked c = Z.of_nat (length done) /\
  errors c = Z.of_nat (length (failedNFTs c)) /\
  failedNFTs c `sublist_of` done /\
  0 <= changed c /\ 0 <= burnedRun c /\
  changed c + burnedRun c + errors c <= checked c.

(** The counters inside a retry round, with [todo] still to be retried
    and [done] retried: the error count is the number of assets that
    failed again plus the number of those not yet retried. *)
Definition retrying (n : Z) (done todo : list Z) (c : Counters) : Prop :=
  checked c = n /\
  errors c = Z.of_nat (length (failedNFTs c)) + Z.of_nat (length todo) /\
  failedNFTs c `sublist_of` done /\
  0 <= changed c /\ 0 <= burnedRun c /\
  changed c + burnedRun c + errors c <= n.

(** ** The client of the indexer and of the backfill script

    [wocGet(ep)], [index-owners.cjs], lines 24-40, and [unnamed/part_001],
    lines 22-38: no retry budget and no adaptive delay; a 429 schedules
    the same request again after five seconds, and the promise is settled
    by that request.  [fuel] bounds the number of requests followed;
    [None] is a promise not settled within them. *)

Module Plain.

Section PlainClient.

Variable provider : nat -> Endpoint -> Reply.

Fixpoint wocGet (fuel : nat) (ep : Endpoint) (w : World)
    : option (Res (option Body) * World) :=
  match fuel with
  | O => None
  | S fuel' =>
      let w1 := (fetch provider ep w).2 in
      match provider (clock w) ep with
      | Http statusCode body =>
          if statusCode =? 200 then Some (Ok body, w1)
          else if statusCode =? 404 then Some (Ok None, w1)
          else if statusCode =? 429 then wocGet fuel' ep (sleep 5000 w1).2
          else Some (Throw (WocStatus statusCode), w1)
      | ReqTimeout => Some (Throw TimeoutError, w1)
      | ReqError msg => Some (Throw (NetworkError msg), w1)
      end
  end.

End PlainClient.

End Plain.

(** What a request is settled with on a reply that is not a 429. *)
Definition settles (r : Reply) : Res (option Body) :=
  match replyValue r with
  | Some v => Ok v
  | None => Throw (default RateLimited (replyError r))
  end.
(** * Verification *)

(** ** Computations that leave the ledger alone *)

Lemma netOp_ret {A} (a : A) : netOp (ret a).
Proof. by intros w. Qed.

Lemma netOp_throw {A} (e : Error) : netOp (@throw A e).
Proof. by intros w. Qed.

Lemma netOp_liftRes {A} (r : Res A) : netOp (liftRes r).
Proof. by intros w. Qed.

Lemma netOp_bind {A B} (m : M A) (k : A -> M B) :
  netOp m -> (forall a, netOp (k a)) -> netOp (bind m k).
Proof.
  intros Hm Hk w. unfold bind. specialize (Hm w).
  destruct (m w) as [[a|e] w1]; simpl in *; [by rewrite Hk | done].
Qed.

Lemma netOp_tryCatch {A} (m : M A) (h : Error -> M A) :
  netOp m -> (forall e, netOp (h e)) -> netOp (tryCatch m h).
Proof.
  intros Hm Hh w. unfold tryCatch. specialize (Hm w).
  destruct (m w) as [[a|e] w1]; simpl in *; [done | by rewrite Hh].
Qed.

Lemma netOp_emit e : netOp (emit e).
Proof. by intros w. Qed.

Lemma netOp_getDelay : netOp getDelay.
Proof. by intros w. Qed.

Lemma netOp_setDelay d : netOp (setDelay d).
Proof. by intros w. Qed.

Create HintDb net discriminated.
#[local] Hint Resolve netOp_ret netOp_throw netOp_liftRes netOp_emit
  netOp_getDelay netOp_setDelay : net.

Ltac net_step :=
  first [ apply netOp_bind; [| intros ?]
        | apply netOp_tryCatch; [| intros ?]
        | progress (unfold log, sleep)
        | solve [auto with net]
        | case_match ].

Lemma netOp_onSuccess : netOp onSuccess.
Proof. unfold onSuccess. repeat net_step. Qed.

Lemma netOp_onThrottle : netOp onThrottle.
Proof. unfold onThrottle. repeat net_step. Qed.

#[local] Hint Resolve netOp_onSuccess netOp_onThrottle : net.

Section ClientFrame.

Variable provider : nat -> Endpoint -> Reply.

Lemma netOp_fetch ep : netOp (fetch provider ep).
Proof. by intros w. Qed.
Hint Resolve netOp_fetch : net.

Lemma netOp_request ep : netOp (request provider ep).
Proof. unfold request. repeat net_step. Qed.
Hint Resolve netOp_request : net.

Lemma netOp_wocGetLoop left attempt ep : netOp (wocGetLoop provider left attempt ep).
Proof.
  revert attempt. induction left as [|left IH]; intros attempt; simpl; repeat net_step.
Qed.

Lemma netOp_wocGet ep : netOp (wocGet provider ep).
Proof. apply netOp_wocGetLoop. Qed.
Hint Resolve netOp_wocGet : net.

Lemma netOp_getSpender txid vout : netOp (getSpender provider txid vout).
Proof. unfold getSpender. repeat net_step. Qed.

Lemma netOp_getTx txid : netOp (getTx provider txid).
Proof. apply netOp_wocGet. Qed.

Lemma netOp_pace : netOp pace.
Proof. unfold pace. repeat net_step. Qed.
Hint Resolve netOp_getSpender netOp_getTx netOp_pace : net.

Lemma netOp_traceLoop fuel txid vout o ts hops :
  netOp (traceLoop provider fuel txid vout o ts hops).
Proof.
  revert txid vout o ts hops.
  induction fuel as [|fuel IH]; intros; simpl; repeat net_step.
Qed.

Lemma netOp_traceForward txid vout o : netOp (traceForward provider txid vout o).
Proof. apply netOp_traceLoop. Qed.

End ClientFrame.

#[local] Hint Resolve netOp_getSpender netOp_getTx netOp_pace netOp_traceForward
  netOp_wocGet : net.

Lemma netOp_run {A} (m : M A) w r w' :
  netOp m -> m w = (r, w') -> ledger w' = ledger w.
Proof. intros H E. specialize (H w). by rewrite E in H. Qed.

Lemma movesTo_truthy j o : movesTo j o = true -> truthy (j_addr j) = true.
Proof. unfold movesTo. intros H. repeat (apply andb_prop in H as [H ?]). done. Qed.

(** ** Facts about the classifier *)

Lemma findOrderLock_Some outs j :
  findOrderLock outs = Some j -> isOrderLock j = true /\ j_addr j = None.
Proof.
  induction outs as [|v rest IH]; cbn [findOrderLock]; [done|].
  destruct (isOpReturn v); [done|].
  destruct (isOrderLockOut v); [|done]. by intros [= <-].
Qed.

Lemma findDust_Some outs j :
  findDust outs = Some j -> isOrderLock j = false /\ truthy (j_addr j) = true.
Proof.
  induction outs as [|v rest IH]; cbn [findDust]; [done|].
  destruct (isOpReturn v); [done|].
  destruct (isDustToAddress v) eqn:Hd; [|done]. intros [= <-]. split; [done|].
  unfold isDustToAddress in Hd. cbn [j_addr].
  by destruct (truthy (firstAddress v)).
Qed.

Lemma findJigVout_Some tx j :
  findJigVout tx = Ok (Some j) ->
  (isOrderLock j = true /\ j_addr j = None) \/
  (isOrderLock j = false /\ truthy (j_addr j) = true).
Proof.
  unfold findJigVout. destruct (b_vout tx) as [outs|]; [|done].
  destruct (findOrderLock outs) as [j'|] eqn:Ho.
  - intros [= <-]. left. by eapply findOrderLock_Some.
  - intros [= Hd]. right. by eapply findDust_Some.
Qed.

(** A non-standard output of at most 0.001 that is not an OP_RETURN makes
    the transaction an order lock, whatever else it pays. *)
Lemma findJigVout_orderLock tx outs v :
  b_vout tx = Some outs -> v ∈ outs ->
  isOpReturn v = false -> isOrderLockOut v = true ->
  exists j, findJigVout tx = Ok (Some j) /\ isOrderLock j = true /\ j_addr j = None.
Proof.
  intros Hb Hin Hop Hlock. unfold findJigVout. rewrite Hb.
  assert (exists j, findOrderLock outs = Some j) as [j Hj].
  { clear Hb. induction Hin as [v rest|v v' rest Hin IH]; cbn [findOrderLock].
    - rewrite Hop, Hlock. by eexists.
    - destruct (isOpReturn v'); [by apply IH|].
      destruct (isOrderLockOut v'); [by eexists | by apply IH]. }
  rewrite Hj. exists j. split; [done|]. by eapply findOrderLock_Some.
Qed.

(** ** The chain client *)

Lemma request_throttled provider ep w body :
  provider (clock w) ep = Http 429 body ->
  request provider ep w =
    (Throw RateLimited,
     {| ledger := ledger w; disk := disk w;
        callDelayMs := Z.min MAX_DELAY_MS (callDelayMs w * 2);
        clock := S (clock w);
        events := (events w ++ [EvRequest ep])
                  ++ [EvLog (LogThrottle (Z.min MAX_DELAY_MS (callDelayMs w * 2)))] |}).
Proof. intros H. unfold request, bind, fetch. rewrite H. reflexivity. Qed.

Lemma request_failed provider ep w :
  replyValue (provider (clock w) ep) = None ->
  exists e w', request provider ep w = (Throw e, w') /\ clock w' = S (clock w).
Proof.
  intros H. unfold request, bind, fetch, replyValue in *.
  destruct (provider (clock w) ep) as [s b| |msg]; [|by eexists _, _..].
  destruct (s =? 200); [done|]. destruct (s =? 404); [done|].
  destruct (s =? 429); by eexists _, _.
Qed.

Lemma request_ok provider ep w v :
  replyValue (provider (clock w) ep) = Some v ->
  exists w', request provider ep w = (Ok v, w') /\
    clock w' = S (clock w) /\ ledger w' = ledger w.
Proof.
  intros H. unfold request, bind, fetch, replyValue in *.
  destruct (provider (clock w) ep) as [s b| |msg]; [|done..].
  unfold onSuccess, bind, getDelay.
  destruct (s =? 200).
  { injection H as <-. cbn [callDelayMs]. destruct (MIN_DELAY_MS <? callDelayMs w); by eexists. }
  destruct (s =? 404); [|done].
  injection H as <-. cbn [callDelayMs]. destruct (MIN_DELAY_MS <? callDelayMs w); by eexists.
Qed.

Lemma wocGetLoop_S provider left attempt ep :
  wocGetLoop provider (S left) attempt ep =
  tryCatch (request provider ep)
    (fun e => sleep (BASE_BACKOFF_MS * 2 ^ Z.of_nat attempt);;
              wocGetLoop provider left (S attempt) ep).
Proof. reflexivity. Qed.

Lemma wocGetLoop_O provider attempt ep :
  wocGetLoop provider O attempt ep = tryCatch (request provider ep) (fun e => throw e).
Proof. reflexivity. Qed.

(** After [n <= left] failed replies and a success, the loop delivers the
    success. *)
Lemma wocGetLoop_ok provider ep v n : forall left attempt w,
  (n <= left)%nat ->
  (forall i, (i < n)%nat -> replyValue (provider (clock w + i)%nat ep) = None) ->
  replyValue (provider (clock w + n)%nat ep) = Some v ->
  exists w', wocGetLoop provider left attempt ep w = (Ok v, w') /\
    clock w' = (clock w + S n)%nat /\ ledger w' = ledger w.
Proof.
  induction n as [|n IH]; intros left attempt w Hle Hfail Hok.
  - rewrite Nat.add_0_r in Hok. destruct (request_ok provider ep w v Hok) as (w' & E & Hc & Hl).
    exists w'. split; [|split; [lia | done]].
    destruct left; [rewrite wocGetLoop_O | rewrite wocGetLoop_S]; unfold tryCatch; by rewrite E.
  - destruct left as [|left]; [lia|].
    pose proof (Hfail O ltac:(lia)) as H0. rewrite Nat.add_0_r in H0.
    destruct (request_failed provider ep w H0) as (e & w1 & E & Hc).
    pose proof (netOp_run _ _ _ _ (netOp_request provider ep) E) as Hl1.
    rewrite wocGetLoop_S. unfold tryCatch. rewrite E. unfold bind, sleep, emit.
    destruct (IH left (S attempt)
                {| ledger := ledger w1; disk := disk w1; callDelayMs := callDelayMs w1;
                   clock := clock w1;
                   events := events w1 ++ [EvSleep (BASE_BACKOFF_MS * 2 ^ Z.of_nat attempt)] |})
      as (w' & E' & Hc' & Hl').
    + lia.
    + intros i Hi. cbn [clock]. rewrite Hc.
      replace (S (clock w) + i)%nat with (clock w + S i)%nat by lia. apply Hfail. lia.
    + cbn [clock]. rewrite Hc.
      by replace (S (clock w) + n)%nat with (clock w + S n)%nat by lia.
    + exists w'. split; [exact E'|]. cbn [clock ledger] in *. split; [lia | congruence].
Qed.

(** After [left + 1] failed replies the loop throws. *)
Lemma wocGetLoop_exhausted provider ep : forall left attempt w,
  (forall i, (i <= left)%nat -> replyValue (provider (clock w + i)%nat ep) = None) ->
  exists e w', wocGetLoop provider left attempt ep w = (Throw e, w').
Proof.
  induction left as [|left IH]; intros attempt w Hfail.
  - pose proof (Hfail O ltac:(lia)) as H0. rewrite Nat.add_0_r in H0.
    destruct (request_failed provider ep w H0) as (e & w1 & E & Hc).
    rewrite wocGetLoop_O. unfold tryCatch. rewrite E. by eexists _, _.
  - pose proof (Hfail O ltac:(lia)) as H0. rewrite Nat.add_0_r in H0.
    destruct (request_failed provider ep w H0) as (e & w1 & E & Hc).
    rewrite wocGetLoop_S. unfold tryCatch. rewrite E. unfold bind, sleep, emit.
    apply IH. intros i Hi. cbn [clock]. rewrite Hc.
    replace (S (clock w) + i)%nat with (clock w + S i)%nat by lia. apply Hfail. lia.
Qed.

Lemma wocGetLoop_throttled provider ep : forall left attempt w,
  (forall i, (i <= left)%nat -> isThrottle (provider (clock w + i)%nat ep) = true) ->
  (wocGetLoop provider left attempt ep w).1 = Throw RateLimited.
Proof.
  assert (forall w, isThrottle (provider (clock w) ep) = true ->
            exists body, provider (clock w) ep = Http 429 body) as Hthr.
  { intros w H. destruct (provider (clock w) ep) as [s b| |]; [|done..].
    cbn [isThrottle] in H. apply Z.eqb_eq in H as ->. by eexists. }
  induction left as [|left IH]; intros attempt w Hall.
  - pose proof (Hall O ltac:(lia)) as H0. rewrite Nat.add_0_r in H0.
    destruct (Hthr w H0) as [body Hb].
    rewrite wocGetLoop_O. unfold tryCatch. by rewrite (request_throttled _ _ _ _ Hb).
  - pose proof (Hall O ltac:(lia)) as H0. rewrite Nat.add_0_r in H0.
    destruct (Hthr w H0) as [body Hb].
    rewrite wocGetLoop_S. unfold tryCatch. rewrite (request_throttled _ _ _ _ Hb).
    unfold bind, sleep, emit. apply IH. intros i Hi. cbn [clock].
    replace (S (clock w) + i)%nat with (clock w + S i)%nat by lia. apply Hall. lia.
Qed.

(** ** What a trace returns *)

Lemma traceLoop_S provider fuel txid vout o ts hops :
  traceLoop provider (S fuel) txid vout o ts hops =
  (let stop h := ret {| r_owner := o; r_lastTx := txid; r_lastVout := vout;
                        r_newTransfers := ts; r_hops := h |} in
   let* spendingTxid := getSpender provider txid vout in
   pace;;
   match spendingTxid with
   | None => stop hops
   | Some stx =>
       let* spendTx := getTx provider stx in
       pace;;
       match spendTx with
       | None => stop (hops + 1)
       | Some tx =>
           let* jig := liftRes (findJigVout tx) in
           match jig with
           | None => stop (hops + 1)
           | Some j =>
               if movesTo j o
               then traceLoop provider fuel stx (j_vout j) (j_addr j)
                      (ts ++ [sendEvent stx o (j_addr j) tx]) (hops + 1)
               else traceLoop provider fuel stx (j_vout j) o ts (hops + 1)
           end
       end
   end).
Proof. reflexivity. Qed.

(** A value [wocGet] returns is the value of a reply. *)
Lemma request_reply provider ep w v w' :
  request provider ep w = (Ok v, w') -> replyValue (provider (clock w) ep) = Some v.
Proof.
  unfold request, bind, fetch, replyValue.
  destruct (provider (clock w) ep) as [s b| |msg]; [|done..].
  unfold onSuccess, onThrottle, bind, getDelay, setDelay, log, emit, ret, throw.
  destruct (s =? 200).
  { cbn. destruct (MIN_DELAY_MS <? callDelayMs w); cbn; by intros [= <- _]. }
  destruct (s =? 404).
  { cbn. destruct (MIN_DELAY_MS <? callDelayMs w); cbn; by intros [= <- _]. }
  by destruct (s =? 429).
Qed.

Lemma wocGetLoop_reply provider ep : forall left attempt w v w',
  wocGetLoop provider left attempt ep w = (Ok v, w') ->
  exists k, replyValue (provider k ep) = Some v.
Proof.
  induction left as [|left IH]; intros attempt w v w'.
  - rewrite wocGetLoop_O. unfold tryCatch, throw.
    destruct (request provider ep w) as [[v0|e] w1] eqn:E; [|done].
    intros [= <- _]. eexists. by eapply request_reply.
  - rewrite wocGetLoop_S. unfold tryCatch.
    destruct (request provider ep w) as [[v0|e] w1] eqn:E.
    + intros [= <- _]. eexists. by eapply request_reply.
    + unfold bind, sleep, emit. apply IH.
Qed.

Lemma wocGet_reply provider ep w v w' :
  wocGet provider ep w = (Ok v, w') -> exists k, replyValue (provider k ep) = Some v.
Proof. apply wocGetLoop_reply. Qed.

Lemma findDust_elem outs j :
  findDust outs = Some j -> exists v, v ∈ outs /\ firstAddress v = j_addr j.
Proof.
  induction outs as [|v rest IH]; cbn [findDust]; [done|].
  assert (findDust rest = Some j -> exists v0, v0 ∈ v :: rest /\ firstAddress v0 = j_addr j)
    as Hrest.
  { intros H. destruct (IH H) as (v0 & Hin & Ha). exists v0. split; [by right | done]. }
  destruct (isOpReturn v); [done|].
  destruct (isDustToAddress v); [|done].
  intros [= <-]. exists v. split; [by left | done].
Qed.

(** The address of a jig found in a transaction the provider answered
    with is an address the provider reports. *)
Lemma findJigVout_reported provider k ep tx j a :
  replyValue (provider k ep) = Some (Some tx) ->
  findJigVout tx = Ok (Some j) -> j_addr j = Some a -> reported provider a.
Proof.
  intros Hr. unfold findJigVout. destruct (b_vout tx) as [outs|] eqn:Hb; [|done].
  destruct (findOrderLock outs) as [j'|] eqn:Hl.
  - intros [= <-] Ha. apply findOrderLock_Some in Hl as [_ Hn]. congruence.
  - intros [= Hd] Ha. destruct (findDust_elem _ _ Hd) as (v & Hin & Hv).
    exists k, ep, tx, outs, v. split_and!; try done. congruence.
Qed.

Lemma custody_app o ts1 o1 ts2 o2 :
  custody o ts1 o1 -> custody o1 ts2 o2 -> custody o (ts1 ++ ts2) o2.
Proof.
  revert o. induction ts1 as [|t ts1 IH]; intros o; cbn [custody app].
  - by intros ->.
  - intros (Ha & Hb & Hc & Hd & H) Hrest. split_and!; try done. by apply IH.
Qed.

Lemma custody_send stx o j tx :
  movesTo j o = true -> custody o [sendEvent stx o (j_addr j) tx] (j_addr j).
Proof.
  unfold movesTo. intros H. apply andb_prop in H as [H Hne]. apply andb_prop in H as [_ Ht].
  cbn [custody sendEvent t_type t_from t_to]. split_and!; try done.
  apply negb_true_iff, bool_decide_eq_false in Hne. done.
Qed.

(** The end of a chain of custody is its start or a non-empty address. *)
Lemma custody_owner ts : forall o o', custody o ts o' -> o' = o \/ truthy o' = true.
Proof.
  induction ts as [|t ts IH]; intros o o'; cbn [custody]; [by left|].
  intros (_ & _ & Ht & _ & Hc). right.
  destruct (IH _ _ Hc) as [-> | H]; done.
Qed.

Lemma getSpender_truthy provider txid vout w s w' :
  getSpender provider txid vout w = (Ok (Some s), w') -> truthy (Some s) = true.
Proof.
  unfold getSpender, bind.
  destruct (wocGet provider (EpSpent txid vout) w) as [[[b|]|e] w1]; [| |done].
  - destruct (truthy (b_txid b)) eqn:Hb; unfold ret; [|done]. intros [= <- _]. done.
  - done.
Qed.

Lemma traceLoop_result provider fuel : forall txid vout o ts hops w r w',
  traceLoop provider fuel txid vout o ts hops w = (Ok r, w') ->
  exists ts', r_newTransfers r = ts ++ ts' /\ custody o ts' (r_owner r) /\
    Z.of_nat (length ts') <= r_hops r - hops /\
    (truthy (Some txid) = true -> truthy (Some (r_lastTx r)) = true) /\
    (r_owner r = o \/ exists a, r_owner r = Some a /\ reported provider a).
Proof.
  induction fuel as [|fuel IH]; intros txid vout o ts hops w r w'.
  - cbn [traceLoop]. unfold ret. intros [= <- _]. exists [].
    cbn [r_newTransfers r_owner r_hops r_lastTx custody length]. rewrite app_nil_r.
    split_and!; [done..|lia|done|by left].
  - rewrite traceLoop_S. cbv zeta. unfold bind.
    assert (forall h, hops <= h ->
      exists ts', ts = ts ++ ts' /\ custody o ts' o /\ Z.of_nat (length ts') <= h - hops) as Hstop.
    { intros h Hh. exists []. rewrite app_nil_r. cbn [custody length]. split_and!; [done..|lia]. }
    destruct (getSpender provider txid vout w) as [[[stx|]|e] w1] eqn:E1; [| |done].
    2:{ destruct (pace w1) as [[|] ?]; [|done]. unfold ret. intros [= <- _].
        destruct (Hstop hops) as (ts' & ? & ? & ?); [lia|]. exists ts'. split_and!; try done.
        by left. }
    apply getSpender_truthy in E1.
    destruct (pace w1) as [[|] w2]; [|done].
    destruct (getTx provider stx w2) as [[[tx|]|e] w3] eqn:E3; [| |done].
    2:{ destruct (pace w3) as [[|] ?]; [|done]. unfold ret. intros [= <- _].
        destruct (Hstop (hops + 1)) as (ts' & ? & ? & ?); [lia|]. exists ts'.
        split_and!; try done. by left. }
    apply wocGet_reply in E3 as [k Hk].
    destruct (pace w3) as [[|] w4]; [|done].
    unfold liftRes. destruct (findJigVout tx) as [[j|]|] eqn:Hj; [| |done].
    2:{ unfold ret. intros [= <- _].
        destruct (Hstop (hops + 1)) as (ts' & ? & ? & ?); [lia|]. exists ts'.
        split_and!; try done. by left. }
    destruct (movesTo j o) eqn:Hm; intros H;
      destruct (IH _ _ _ _ _ _ _ _ H) as (ts' & Hts & Hc & Hlen & Hl & Hrep).
    + exists (sendEvent stx o (j_addr j) tx :: ts'). split_and!.
      * by rewrite Hts, <- app_assoc.
      * apply (custody_app o [sendEvent stx o (j_addr j) tx] (j_addr j)); [|done].
        by apply custody_send.
      * cbn [length]. lia.
      * intros _. by apply Hl.
      * right. destruct Hrep as [Hsame | Hrep]; [|done].
        apply movesTo_truthy in Hm. destruct (j_addr j) as [addr|] eqn:Ha; [|done].
        exists addr. split; [done|]. by eapply findJigVout_reported.
    + exists ts'. split_and!; try done; [lia|]. intros _. by apply Hl.
Qed.

Lemma traceForward_result provider txid vout o w r w' :
  traceForward provider txid vout o w = (Ok r, w') ->
  custody o (r_newTransfers r) (r_owner r) /\
  Z.of_nat (length (r_newTransfers r)) <= r_hops r /\
  (truthy (Some txid) = true -> truthy (Some (r_lastTx r)) = true) /\
  (r_owner r = o \/ exists a, r_owner r = Some a /\ reported provider a).
Proof.
  unfold traceForward. intros H.
  destruct (traceLoop_result provider _ _ _ _ _ _ _ _ _ H)
    as (ts' & Hts & Hc & Hlen & Hl & Hrep).
  cbn [app] in Hts. subst ts'. split_and!; [done | lia | done | done].
Qed.

(** ** The index helpers *)

Lemma throwsOn_inherited idx addr :
  throwsOn idx addr = true -> inherited (propertyKey addr) = true.
Proof.
  unfold throwsOn, readOwners. destruct (idx !! propertyKey addr); [done|].
  by destruct (inherited (propertyKey addr)).
Qed.

Lemma removeFromIndex_spec addr num idx :
  removeFromIndex addr num idx =
  if throwsOn idx addr then Throw TypeError else Ok (unlisted addr num idx).
Proof.
  unfold removeFromIndex, throwsOn, unlisted, readOwners.
  destruct (idx !! propertyKey addr) as [l|].
  - by case_bool_decide.
  - by destruct (inherited (propertyKey addr)).
Qed.

Lemma addToIndex_spec addr num idx :
  addToIndex addr num idx =
  if throwsOn idx addr then Throw TypeError else Ok (listed addr num idx).
Proof.
  unfold addToIndex, throwsOn, listed, readOwners.
  destruct (idx !! propertyKey addr) as [l|] eqn:Hk.
  - rewrite Hk. by case_bool_decide.
  - destruct (inherited (propertyKey addr)); [done|].
    rewrite lookup_insert_eq. rewrite bool_decide_eq_false_2 by apply not_elem_of_nil.
    done.
Qed.

Lemma commitIndex_Ok old new num idx idx' :
  commitIndex old new num idx = (Ok tt, idx') -> idx' = movedIndex old new num idx.
Proof.
  unfold commitIndex, movedIndex. case_bool_decide; [by intros [= <-]|].
  rewrite removeFromIndex_spec. destruct (throwsOn idx old); [done|].
  rewrite addToIndex_spec. destruct (throwsOn (unlisted old num idx) new); [done|].
  by intros [= <-].
Qed.

Lemma commitIndex_Throw old new num idx e idx' :
  commitIndex old new num idx = (Throw e, idx') ->
  e = TypeError /\ old <> new /\
  ((throwsOn idx old = true /\ idx' = idx) \/
   (throwsOn idx old = false /\ throwsOn (unlisted old num idx) new = true /\
    idx' = unlisted old num idx)).
Proof.
  unfold commitIndex. case_bool_decide as Hne; [done|].
  rewrite removeFromIndex_spec. destruct (throwsOn idx old) eqn:H1.
  { intros [= <- <-]. split_and!; try done. by left. }
  rewrite addToIndex_spec. destruct (throwsOn (unlisted old num idx) new) eqn:H2; [|done].
  intros [= <- <-]. split_and!; try done. by right.
Qed.

(** With names that are not inherited the commit of the index goes
    through. *)
Lemma commitIndex_clean old new num idx :
  inherited (propertyKey old) = false -> inherited (propertyKey new) = false ->
  commitIndex old new num idx = (Ok tt, movedIndex old new num idx).
Proof.
  intros Ho Hn. destruct (commitIndex old new num idx) as [[[]|e] idx'] eqn:E.
  - by rewrite (commitIndex_Ok _ _ _ _ _ E).
  - apply commitIndex_Throw in E as (_ & _ & [[H _]|(_ & H & _)]);
      apply throwsOn_inherited in H; congruence.
Qed.

Lemma removeFromOwnerIndex_run addr num w :
  removeFromOwnerIndex addr num w =
  match removeFromIndex addr num (owners (ledger w)) with
  | Ok idx => setOwners (fun _ => idx) w
  | Throw e => (Throw e, w)
  end.
Proof.
  unfold removeFromOwnerIndex, bind, getLedger, liftRes.
  by destruct (removeFromIndex addr num (owners (ledger w))).
Qed.

Lemma addToOwnerIndex_run addr num w :
  addToOwnerIndex addr num w =
  match addToIndex addr num (owners (ledger w)) with
  | Ok idx => setOwners (fun _ => idx) w
  | Throw e => (Throw e, w)
  end.
Proof.
  unfold addToOwnerIndex, bind, getLedger, liftRes.
  by destruct (addToIndex addr num (owners (ledger w))).
Qed.

(** Lines 283-286: the two calls end as [commitIndex] says, and touch
    nothing but the index. *)
Lemma commitIndex_run old new num w :
  exists w',
    (if bool_decide (old = new) then ret tt
     else removeFromOwnerIndex old num;; addToOwnerIndex new num) w
      = ((commitIndex old new num (owners (ledger w))).1, w') /\
    nfts (ledger w') = nfts (ledger w) /\
    owners (ledger w') = (commitIndex old new num (owners (ledger w))).2 /\
    lastUpdated (ledger w') = lastUpdated (ledger w) /\
    events w' = events w /\ disk w' = disk w /\ clock w' = clock w /\
    callDelayMs w' = callDelayMs w.
Proof.
  unfold commitIndex. destruct (bool_decide (old = new)); [by exists w|].
  unfold bind. rewrite removeFromOwnerIndex_run.
  destruct (removeFromIndex old num (owners (ledger w))) as [idx1|e]; [|by exists w].
  set (w1 := (setOwners (fun _ => idx1) w).2).
  change (setOwners (fun _ => idx1) w) with (Ok tt, w1). cbv beta iota.
  rewrite addToOwnerIndex_run.
  change (owners (ledger w1)) with idx1.
  destruct (addToIndex new num idx1) as [idx2|e]; [|by exists w1].
  by eexists.
Qed.
Section RefreshFacts.
Variable provider : nat -> Endpoint -> Reply.

Lemma alter_lookup_insert (f : Nft -> Nft) (m : gmap Z Nft) i x :
  m !! i = Some x -> alter f i m = <[i := f x]> m.
Proof.
  intros H. apply map_eq. intros j. rewrite lookup_alter, lookup_insert.
  case_decide; [subst; by rewrite H | done].
Qed.

Lemma getNft_run num w :
  getNft num w = (match nfts (ledger w) !! num with Some x => Ok x | None => Throw TypeError end, w).
Proof. unfold getNft, bind, getLedger. simpl. by destruct (nfts (ledger w) !! num). Qed.

Lemma modifyNft_run num f w x :
  nfts (ledger w) !! num = Some x ->
  exists w', modifyNft num f w = (Ok tt, w') /\
    ledger w' = withNfts (insert num (f x)) (ledger w).
Proof.
  intros Hx. eexists. split; [reflexivity|]. simpl. unfold withNfts.
  by rewrite (alter_lookup_insert _ _ _ _ Hx).
Qed.

Lemma modifyNft_step num f w x m :
  nfts (ledger w) = <[num := x]> m ->
  exists w', modifyNft num f w = (Ok tt, w') /\
    nfts (ledger w') = <[num := f x]> m /\
    owners (ledger w') = owners (ledger w) /\
    lastUpdated (ledger w') = lastUpdated (ledger w).
Proof.
  intros Hx. eexists. split; [reflexivity|]. cbn [modifyNft withLedger ledger nfts owners lastUpdated snd].
  rewrite Hx, alter_insert_eq. done.
Qed.

Lemma setOwners_step f w :
  exists w', setOwners f w = (Ok tt, w') /\
    nfts (ledger w') = nfts (ledger w) /\
    owners (ledger w') = f (owners (ledger w)) /\
    lastUpdated (ledger w') = lastUpdated (ledger w).
Proof. eexists. split; [reflexivity|]. done. Qed.

Lemma ledger_ext (l1 l2 : Ledger) :
  lastUpdated l1 = lastUpdated l2 -> nfts l1 = nfts l2 -> owners l1 = owners l2 -> l1 = l2.
Proof. destruct l1, l2; simpl; congruence. Qed.

Lemma resolveLastVout_run num w r w' x :
  nfts (ledger w) !! num = Some x -> burned x = false ->
  resolveLastVout provider num w = (r, w') ->
  (ledger w' = ledger w /\ (forall v, r = Ok (Some v) -> lastVout x = Some v)) \/
  (exists v, lastVout x = None /\ r = Ok (Some v) /\
     ledger w' = withNfts (insert num (setLastVout v x)) (ledger w)).
Proof.
  intros Hx Hb. unfold resolveLastVout, bind. rewrite getNft_run, Hx.
  destruct (lastVout x) as [v|] eqn:Hv.
  { intros [= <- <-]. left. split; [done|]. by intros ? [= <-]. }
  destruct (getTx _ _ w) as [[tx|e] w1] eqn:E1.
  2:{ intros [= <- <-]. left. split; [by eapply netOp_run; [|exact E1]; auto with net | done]. }
  apply netOp_run in E1; [|auto with net].
  destruct (pace w1) as [[[]|e] w2] eqn:E2; apply netOp_run in E2; auto with net.
  2:{ intros [= <- <-]. left. split; [congruence | done]. }
  destruct tx as [tx|].
  2:{ intros [= <- <-]. left. split; [congruence | done]. }
  unfold liftRes. destruct (findJigVout tx) as [[j|]|e].
  - destruct (modifyNft_run num (setLastVout (j_vout j)) w2 x) as (w3 & -> & E3);
      [congruence|].
    intros [= <- <-]. right. exists (j_vout j). split; [done|]. split; [done|].
    rewrite E3. congruence.
  - intros [= <- <-]. left. split; [congruence | done].
  - intros [= <- <-]. left. split; [congruence | done].
Qed.

Lemma burnedRecord_steps x stx tx :
  pushTransfers [burnEvent stx (owner x) tx] (setBurnTx stx (setBurned x))
  = burnedRecord x stx tx.
Proof. reflexivity. Qed.

Lemma processNFT_outcome num w r w' :
  processNFT provider num w = (r, w') ->
  exists L1, cached num (ledger w) L1 /\ outcome (reported provider) num L1 r (ledger w').
Proof.
  unfold processNFT. unfold bind at 1. rewrite getNft_run.
  destruct (nfts (ledger w) !! num) as [x|] eqn:Hx.
  2:{ intros [= <- <-]. exists (ledger w). split; constructor. }
  destruct (truthy (lastTx x)) eqn:Htx; cbn [negb].
  2:{ intros [= <- <-]. exists (ledger w). split; constructor. }
  destruct (burned x) eqn:Hb.
  { intros [= <- <-]. exists (ledger w). split; constructor. }
  unfold bind at 1.
  destruct (resolveLastVout provider num w) as [[lv|e] w1] eqn:E1.
  2:{ intros [= <- <-].
      destruct (resolveLastVout_run _ _ _ _ _ Hx Hb E1) as [[-> _] | (v & _ & ? & _)]; [|done].
      eexists. split; constructor. }
  assert (exists x1, nfts (ledger w1) !! num = Some x1 /\ burned x1 = false /\
            truthy (lastTx x1) = true /\
            cached num (ledger w) (ledger w1)) as (x1 & Hx1 & Hb1 & Htx1 & Hc).
  { destruct (resolveLastVout_run _ _ _ _ _ Hx Hb E1) as [[-> _] | (v & Hv & _ & ->)].
    - exists x. split_and!; [done..|constructor].
    - exists (setLastVout v x). split_and!; [by simplify_map_eq | done | done | by constructor]. }
  clear E1 Hx Hb Htx x. intros H. exists (ledger w1). split; [done|]. clear Hc w.
  revert H.
  destruct lv as [lv|]; [| intros [= <- <-]; constructor].
  unfold bind at 1. rewrite getNft_run, Hx1.
  unfold bind at 1.
  destruct (getSpender _ _ _ w1) as [[stx|e] w2] eqn:E2.
  2:{ apply netOp_run in E2; auto with net. intros [= <- <-]. rewrite E2. constructor. }
  pose proof E2 as E2t. apply netOp_run in E2; auto with net.
  unfold bind at 1.
  destruct (pace w2) as [[[]|e] w3] eqn:E3; apply netOp_run in E3; auto with net.
  2:{ intros [= <- <-]. rewrite E3, E2. constructor. }
  destruct stx as [stx|]; [| intros [= <- <-]; rewrite E3, E2; constructor].
  apply getSpender_truthy in E2t.
  unfold bind at 1.
  destruct (getTx _ _ w3) as [[tx|e] w4] eqn:E4.
  2:{ apply netOp_run in E4; auto with net. intros [= <- <-]. rewrite E4, E3, E2. constructor. }
  pose proof E4 as E4r. unfold getTx in E4r. apply wocGet_reply in E4r as [k Hk].
  apply netOp_run in E4; auto with net.
  unfold bind at 1.
  destruct (pace w4) as [[[]|e] w5] eqn:E5; apply netOp_run in E5; auto with net.
  2:{ intros [= <- <-]. rewrite E5, E4, E3, E2. constructor. }
  assert (ledger w5 = ledger w1) as E by congruence. clear E2 E3 E4 E5 w2 w3.
  destruct tx as [tx|]; [| intros [= <- <-]; rewrite E; constructor].
  unfold bind at 1, liftRes.
  destruct (findJigVout tx) as [[j|]|e] eqn:Hj; [| | intros [= <- <-]; rewrite E; constructor].
  - unfold bind at 1. rewrite getNft_run, E, Hx1.
    unfold bind at 1.
    destruct (traceForward _ _ _ _ w5) as [[res|e] w6] eqn:E6.
    2:{ apply netOp_run in E6; auto with net. intros [= <- <-]. rewrite E6, E. constructor. }
    pose proof (netOp_run _ _ _ _ (netOp_traceForward provider _ _ _) E6) as E6'.
    apply traceForward_result in E6 as (Hcus & _ & Hltx & Hrep). specialize (Hltx E2t).
    set (ts := (if movesTo j (owner x1) then _ else _) ++ _).
    assert (custody (owner x1) ts (r_owner res)) as Hts.
    { unfold ts. destruct (movesTo j (owner x1)) eqn:Hm; [|done].
      eapply custody_app; [by apply custody_send | done]. }
    assert (r_owner res = owner x1 \/ exists a, r_owner res = Some a /\ reported provider a)
      as Hnew.
    { destruct (movesTo j (owner x1)) eqn:Hm; [|done].
      destruct Hrep as [Hsame | Hrep]; [|by right]. right.
      apply movesTo_truthy in Hm. destruct (j_addr j) as [addr|] eqn:Ha; [|done].
      exists addr. split; [done|]. by eapply findJigVout_reported. }
    assert (nfts (ledger w6) = <[num := x1]> (nfts (ledger w1))) as Hm0.
    { rewrite E6', E. symmetry. by apply insert_id. }
    assert (owners (ledger w6) = owners (ledger w1)) as Ho0 by (by rewrite E6', E).
    assert (lastUpdated (ledger w6) = lastUpdated (ledger w1)) as Hl0 by (by rewrite E6', E).
    unfold bind.
    destruct (modifyNft_step num (pushTransfers ts) w6 _ _ Hm0) as (w7 & -> & Hm7 & Ho7 & Hl7).
    destruct (modifyNft_step num (setOwner (r_owner res)) w7 _ _ Hm7)
      as (w8 & -> & Hm8 & Ho8 & Hl8).
    destruct (modifyNft_step num (setLastTx (r_lastTx res)) w8 _ _ Hm8)
      as (w9 & -> & Hm9 & Ho9 & Hl9).
    destruct (modifyNft_step num (setLastVout (r_lastVout res)) w9 _ _ Hm9)
      as (w10 & -> & Hm10 & Ho10 & Hl10).
    destruct (commitIndex_run (owner x1) (r_owner res) num w10)
      as (w11 & Hrun & Hm11 & Ho11 & Hl11 & _).
    unfold bind in Hrun. rewrite Hrun.
    assert (owners (ledger w10) = owners (ledger w1)) as Ho by congruence.
    rewrite Ho in Ho11.
    assert (ledger w11 =
      {| lastUpdated := lastUpdated (ledger w1);
         nfts := <[num := movedRecord x1 ts (r_owner res) (r_lastTx res) (r_lastVout res)]>
                   (nfts (ledger w1));
         owners := (commitIndex (owner x1) (r_owner res) num (owners (ledger w1))).2 |}) as Hled.
    { apply ledger_ext; cbn [lastUpdated nfts owners]; [congruence | | congruence].
      rewrite Hm11, Hm10. done. }
    rewrite Ho.
    destruct (commitIndex (owner x1) (r_owner res) num (owners (ledger w1)))
      as [[[]|e] idx'] eqn:Ec; cbn [fst snd] in *.
    + unfold log, emit, ret. intros H. injection H as <- <-. cbn [ledger]. rewrite Hled.
      by eapply out_changed.
    + intros H. injection H as <- <-. rewrite Hled. by eapply out_torn.
  - pose proof Hx1 as Hx5. rewrite <- E in Hx5.
    unfold bind.
    destruct (modifyNft_run num setBurned w5 x1 Hx5) as (w6 & -> & E6).
    assert (nfts (ledger w6) !! num = Some (setBurned x1)) as Hx6.
    { rewrite E6. apply lookup_insert_eq. }
    destruct (modifyNft_run num (setBurnTx stx) w6 _ Hx6) as (w7 & -> & E7).
    assert (nfts (ledger w7) !! num = Some (setBurnTx stx (setBurned x1))) as Hx7.
    { rewrite E7. apply lookup_insert_eq. }
    rewrite getNft_run, Hx7. cbn [owner setBurnTx setBurned].
    destruct (modifyNft_run num (pushTransfers [burnEvent stx (owner x1) tx]) w7 _ Hx7)
      as (w8 & -> & E8).
    rewrite burnedRecord_steps in E8.
    assert (nfts (ledger w8) !! num = Some (burnedRecord x1 stx tx)) as Hx8.
    { rewrite E8. apply lookup_insert_eq. }
    rewrite getNft_run, Hx8. unfold log, emit, ret.
    intros H. injection H as <- <-. cbn [ledger].
    rewrite E8, E7, E6. unfold withNfts. cbn [nfts lastUpdated owners].
    rewrite (insert_insert_eq (nfts (ledger w5))).
    rewrite (insert_insert_eq (nfts (ledger w5))).
    rewrite E.
    exact (out_burned _ num (ledger w1) x1 stx tx Hx1 Hb1).
Qed.
End RefreshFacts.

(** ** Invariants through [processNFT] and the driver *)

Lemma preserves_ret {A} P (a : A) : preserves P (ret a).
Proof. by intros w. Qed.

Lemma preserves_bind {A B} P (m : M A) (k : A -> M B) :
  preserves P m -> (forall a, preserves P (k a)) -> preserves P (bind m k).
Proof.
  intros Hm Hk w Hw. unfold bind. specialize (Hm w Hw).
  destruct (m w) as [[a|e] w1]; cbn [snd] in *; [by apply Hk | done].
Qed.

Lemma preserves_tryCatch {A} P (m : M A) (h : Error -> M A) :
  preserves P m -> (forall e, preserves P (h e)) -> preserves P (tryCatch m h).
Proof.
  intros Hm Hh w Hw. unfold tryCatch. specialize (Hm w Hw).
  destruct (m w) as [[a|e] w1]; cbn [snd] in *; [done | by apply Hh].
Qed.

Lemma preserves_forEach {A B} P (f : A -> B -> M A) (l : list B) :
  (forall a x, preserves P (f a x)) -> forall a, preserves P (forEach f a l).
Proof.
  intros Hf. induction l as [|x l IH]; intros a; cbn [forEach].
  - apply preserves_ret.
  - apply preserves_bind; [apply Hf | intros a'; apply IH].
Qed.

Lemma preserves_netOp {A} I (m : M A) : netOp m -> preserves (ledgerInv I) m.
Proof. intros Hm w Hw. unfold ledgerInv. by rewrite Hm. Qed.

Lemma preserves_saveLedger I : preserves (ledgerInv I) saveLedger.
Proof. by intros w Hw. Qed.

Lemma preserves_log I msg : preserves (ledgerInv I) (log msg).
Proof. by intros w Hw. Qed.

Lemma preserves_sleep I ms : preserves (ledgerInv I) (sleep ms).
Proof. by intros w Hw. Qed.

Lemma preserves_getLedger I : preserves (ledgerInv I) getLedger.
Proof. by intros w Hw. Qed.

Lemma preserves_throw {A} P (e : Error) : preserves P (@throw A e).
Proof. by intros w. Qed.

Lemma preserves_liftRes {A} P (r : Res A) : preserves P (liftRes r).
Proof. by intros w. Qed.

Lemma preserves_read P : preserves P getLedger /\ preserves P getDelay.
Proof. by split; intros w. Qed.

(** The driver keeps what [processNFT], the log and [saveLedger] keep. *)
Section Driver.

Variable provider : nat -> Endpoint -> Reply.
Variable P : World -> Prop.
Hypothesis P_emit : forall e, isRequest e = false -> preserves P (emit e).
Hypothesis P_save : preserves P saveLedger.
Hypothesis P_proc : forall num, preserves P (processNFT provider num).

Ltac drive :=
  repeat first
    [ apply P_proc | apply P_save | apply P_emit; reflexivity
    | apply preserves_ret
    | apply (proj1 (preserves_read P))
    | apply preserves_bind; [| intros ?]
    | apply preserves_tryCatch; [| intros ?]
    | apply preserves_forEach; intros ? ?
    | case_match ].

Lemma drive_mainStep total c num : preserves P (mainStep provider total c num).
Proof. unfold mainStep, log. drive. Qed.

Lemma drive_retryStep c num : preserves P (retryStep provider c num).
Proof. unfold retryStep, log. drive. Qed.

Lemma drive_retryRound round c : preserves P (retryRound provider round c).
Proof.
  unfold retryRound, log, sleep. destruct (failedNFTs c); [apply preserves_ret|].
  repeat first [apply drive_retryStep | drive].
Qed.

Lemma drive_mainPass : preserves P (mainPass provider).
Proof. unfold mainPass, log. repeat first [apply drive_mainStep | drive]. Qed.

Lemma drive_refresh : preserves P (refresh provider).
Proof.
  unfold refresh, log.
  repeat first [apply drive_mainPass | apply drive_retryRound | drive].
Qed.

End Driver.

Lemma cached_inv I num L L1 :
  stable I -> cached num L L1 -> I (nfts L) (owners L) -> I (nfts L1) (owners L1).
Proof.
  intros HI [|x v Hx Hv Hb] H; [done|]. cbn [withNfts nfts owners].
  by eapply (stable_cache I HI).
Qed.

(** *** Properties of the records

    A property that does not look at the index is kept by every call,
    also by one that throws in an index helper: the record is written
    before the helpers are called. *)
Section DriverFacts.

Variable provider : nat -> Endpoint -> Reply.
Variable I : gmap Z Nft -> gmap string (list Z) -> Prop.
Hypothesis I_stable : stable I.
Hypothesis I_blind : forall m idx idx', I m idx -> I m idx'.

Lemma outcome_inv R num L r L' :
  outcome R num L r L' -> I (nfts L) (owners L) -> I (nfts L') (owners L').
Proof.
  intros [e| | |x stx tx Hx Hb
          |x ts o ltx lv idx' Hx Hb Htx Hcus Ho Hltx Hc
          |x ts o ltx lv e idx' Hx Hb Htx Hcus Ho Hltx Hc] HI; try done.
  - cbn [withNfts nfts owners]. by eapply (stable_burn I I_stable).
  - cbn [nfts owners]. eapply I_blind. eapply (stable_move I I_stable); try done.
    by apply custody_owner in Hcus.
  - cbn [nfts owners]. eapply I_blind. eapply (stable_move I I_stable); try done.
    by apply custody_owner in Hcus.
Qed.

Lemma preserves_processNFT num : preserves (ledgerInv I) (processNFT provider num).
Proof.
  intros w Hw. unfold ledgerInv in *.
  destruct (processNFT provider num w) as [r w'] eqn:E.
  destruct (processNFT_outcome provider num w r w' E) as (L1 & Hc & Ho).
  cbn [snd]. eapply outcome_inv; [exact Ho|]. eapply cached_inv; [done | exact Hc | exact Hw].
Qed.

Lemma preserves_mainStep total c num :
  preserves (ledgerInv I) (mainStep provider total c num).
Proof.
  apply drive_mainStep;
    [by intros e _ w Hw | by intros w Hw | apply preserves_processNFT].
Qed.

Lemma preserves_retryStep c num : preserves (ledgerInv I) (retryStep provider c num).
Proof. apply drive_retryStep; [by intros e _ w Hw | apply preserves_processNFT]. Qed.

Lemma preserves_refresh : preserves (ledgerInv I) (refresh provider).
Proof.
  apply drive_refresh;
    [by intros e _ w Hw | by intros w Hw | apply preserves_processNFT].
Qed.

End DriverFacts.

(** *** Properties of records and index

    A property that relates records and index is kept when the index
    helpers do not throw: when no owner in the ledger and no address the
    provider reports is the name of a member of [Object.prototype]. *)
Section CleanFacts.

Variable provider : nat -> Endpoint -> Reply.
Variable I : gmap Z Nft -> gmap string (list Z) -> Prop.
Hypothesis I_stable : stable I.
Hypothesis provider_clean : cleanProvider provider.

Lemma cached_clean num L L1 :
  cached num L L1 -> cleanOwners (nfts L) -> cleanOwners (nfts L1).
Proof.
  intros [|x v Hx Hv Hb] H; [done|]. cbn [withNfts nfts]. intros id y.
  destruct (decide (id = num)) as [->|Hne].
  - rewrite lookup_insert_eq. intros [= <-]. by apply (H num x).
  - rewrite lookup_insert_ne by done. apply H.
Qed.

(** On such a ledger a call is never torn. *)
Lemma outcome_clean num L r L' :
  outcome (reported provider) num L r L' ->
  I (nfts L) (owners L) -> cleanOwners (nfts L) ->
  I (nfts L') (owners L') /\ cleanOwners (nfts L').
Proof.
  assert (forall x o, cleanOwners (nfts L) -> nfts L !! num = Some x ->
            (o = owner x \/ exists a, o = Some a /\ reported provider a) ->
            inherited (propertyKey (owner x)) = false /\ inherited (propertyKey o) = false)
    as Hkeys.
  { intros x o Hcl Hx Ho. split; [by apply (Hcl num x)|].
    destruct Ho as [-> | (a & -> & Ha)]; [by apply (Hcl num x) | by apply provider_clean]. }
  intros [e| | |x stx tx Hx Hb
          |x ts o ltx lv idx' Hx Hb Htx Hcus Ho Hltx Hc
          |x ts o ltx lv e idx' Hx Hb Htx Hcus Ho Hltx Hc] HI Hcl; try done.
  - cbn [withNfts nfts owners]. split; [by eapply (stable_burn I I_stable)|].
    intros id y. destruct (decide (id = num)) as [->|Hne].
    + rewrite lookup_insert_eq. intros [= <-]. by apply (Hcl num x).
    + rewrite lookup_insert_ne by done. apply Hcl.
  - destruct (Hkeys x o Hcl Hx Ho) as [Hk Hk'].
    apply commitIndex_Ok in Hc as ->. cbn [nfts owners]. split.
    + eapply (stable_move I I_stable); try done. by apply custody_owner in Hcus.
    + intros id y. destruct (decide (id = num)) as [->|Hne].
      * rewrite lookup_insert_eq. by intros [= <-].
      * rewrite lookup_insert_ne by done. apply Hcl.
  - destruct (Hkeys x o Hcl Hx Ho) as [Hk Hk'].
    rewrite (commitIndex_clean _ _ num (owners L) Hk Hk') in Hc. done.
Qed.

Lemma clean_processNFT num : preserves (cleanInv I) (processNFT provider num).
Proof.
  intros w [Hw Hcl]. unfold cleanInv, ledgerInv in *.
  destruct (processNFT provider num w) as [r w'] eqn:E.
  destruct (processNFT_outcome provider num w r w' E) as (L1 & Hc & Ho).
  cbn [snd]. eapply outcome_clean; [exact Ho | |].
  - eapply cached_inv; [done | exact Hc | exact Hw].
  - eapply cached_clean; [exact Hc | exact Hcl].
Qed.

Lemma clean_mainStep total c num : preserves (cleanInv I) (mainStep provider total c num).
Proof.
  apply drive_mainStep; [by intros e _ w Hw | by intros w Hw | apply clean_processNFT].
Qed.

Lemma clean_retryStep c num : preserves (cleanInv I) (retryStep provider c num).
Proof. apply drive_retryStep; [by intros e _ w Hw | apply clean_processNFT]. Qed.

Lemma clean_refresh : preserves (cleanInv I) (refresh provider).
Proof.
  apply drive_refresh; [by intros e _ w Hw | by intros w Hw | apply clean_processNFT].
Qed.

End CleanFacts.

(** ** The owner index *)

Lemma holds_unlisted addr num idx a id :
  holds (unlisted addr num idx) a id <->
  holds idx a id /\ ~ (a = propertyKey addr /\ id = num).
Proof.
  unfold unlisted, holds. set (k := propertyKey addr).
  destruct (idx !! k) as [l|] eqn:Hk.
  - case_bool_decide as Hlen.
    + apply nil_length_inv in Hlen.
      split.
      * intros (l' & Hl' & Hin). destruct (decide (a = k)) as [->|Hne].
        { by rewrite lookup_delete_eq in Hl'. }
        rewrite lookup_delete_ne, lookup_insert_ne in Hl' by done.
        split; [by exists l' | by intros [? _]].
      * intros [(l' & Hl' & Hin) Hn]. destruct (decide (a = k)) as [->|Hne].
        { rewrite Hk in Hl'. injection Hl' as <-.
          exfalso. eapply (filter_nil_not_elem_of _ _ id Hlen); [|done].
          intros ->. by apply Hn. }
        exists l'. by rewrite lookup_delete_ne, lookup_insert_ne.
    + split.
      * intros (l' & Hl' & Hin). destruct (decide (a = k)) as [->|Hne].
        { rewrite lookup_insert_eq in Hl'. injection Hl' as <-.
          apply list_elem_of_filter in Hin as [Hid Hin].
          split; [by exists l | by intros [_ ?]]. }
        rewrite lookup_insert_ne in Hl' by done.
        split; [by exists l' | by intros [? _]].
      * intros [(l' & Hl' & Hin) Hn]. destruct (decide (a = k)) as [->|Hne].
        { rewrite Hk in Hl'. injection Hl' as <-.
          eexists. rewrite lookup_insert_eq. split; [done|].
          apply list_elem_of_filter. split; [|done]. intros ->. by apply Hn. }
        exists l'. by rewrite lookup_insert_ne.
  - split.
    + intros (l & Hl & Hin). split; [by exists l|]. intros [-> _]. congruence.
    + by intros [? _].
Qed.

Lemma holds_listed addr num idx a id :
  holds (listed addr num idx) a id <->
  holds idx a id \/ (a = propertyKey addr /\ id = num).
Proof.
  unfold listed, holds. set (k := propertyKey addr).
  destruct (idx !! k) as [l|] eqn:Hk.
  - rewrite Hk. case_bool_decide as Hin.
    + split; [by left|]. intros [H|[-> ->]]; [done | by exists l].
    + split.
      * intros (l' & Hl' & Hid). destruct (decide (a = k)) as [->|Hne].
        { rewrite lookup_insert_eq in Hl'. injection Hl' as <-.
          apply elem_of_app in Hid as [Hid|Hid]; [left; by exists l|].
          apply list_elem_of_singleton in Hid. by right. }
        rewrite lookup_insert_ne in Hl' by done. left. by exists l'.
      * intros [(l' & Hl' & Hid)|[-> ->]].
        { destruct (decide (a = k)) as [->|Hne].
          - rewrite Hk in Hl'. injection Hl' as <-. eexists.
            rewrite lookup_insert_eq. split; [done|]. apply elem_of_app. by left.
          - exists l'. by rewrite lookup_insert_ne. }
        eexists. rewrite lookup_insert_eq. split; [done|].
        apply elem_of_app. right. by apply list_elem_of_singleton.
  - rewrite lookup_insert_eq. case_bool_decide as Hin; [by apply elem_of_nil in Hin|].
    rewrite insert_insert_eq. cbn [app].
    split.
    + intros (l' & Hl' & Hid). destruct (decide (a = k)) as [->|Hne].
      { rewrite lookup_insert_eq in Hl'. injection Hl' as <-.
        apply list_elem_of_singleton in Hid. by right. }
      rewrite lookup_insert_ne in Hl' by done. left. by exists l'.
    + intros [(l' & Hl' & Hid)|[-> ->]].
      { destruct (decide (a = k)) as [->|Hne]; [congruence|].
        exists l'. by rewrite lookup_insert_ne. }
      eexists. rewrite lookup_insert_eq. split; [done|]. by apply list_elem_of_singleton.
Qed.

Lemma truthy_Some o : truthy o = true -> exists s, o = Some s.
Proof. destruct o; [eauto | done]. Qed.

Lemma indexConsistent_stable : stable indexConsistent.
Proof.
  split.
  - intros m idx num x v HI Hx _ _ a id. rewrite (HI a id).
    destruct (decide (id = num)) as [->|Hne].
    + rewrite lookup_insert_eq, Hx. split; intros (y & [= <-] & Ho); eauto.
    + by rewrite lookup_insert_ne.
  - intros m idx num x stx tx HI Hx _ a id. rewrite (HI a id).
    destruct (decide (id = num)) as [->|Hne].
    + rewrite lookup_insert_eq, Hx. split; intros (y & [= <-] & Ho); eauto.
    + by rewrite lookup_insert_ne.
  - intros m idx num x ts o ltx lv HI Hx _ Ho _ a id. unfold movedIndex.
    case_bool_decide as Hsame.
    + rewrite (HI a id). destruct (decide (id = num)) as [->|Hne].
      * rewrite lookup_insert_eq, Hx.
        split; intros (y & [= <-] & Hy); eexists; (split; [done|]);
          cbn [owner movedRecord] in *; congruence.
      * by rewrite lookup_insert_ne.
    + destruct Ho as [Ho|Ho]; [congruence|].
      apply truthy_Some in Ho as [s ->].
      rewrite holds_listed, holds_unlisted, (HI a id). cbn [propertyKey].
      destruct (decide (id = num)) as [->|Hne].
      * rewrite lookup_insert_eq, Hx. split.
        -- intros [[(y & [= <-] & Hy) Hn]|[-> _]].
           ++ exfalso. apply Hn. by rewrite Hy.
           ++ eauto.
        -- intros (y & [= <-] & [= ->]). by right.
      * rewrite lookup_insert_ne by done. split.
        -- by intros [[? _]|[_ ?]].
        -- intros H. left. split; [done | by intros [_ ?]].
Qed.

Lemma hygienic_unlisted addr num idx :
  hygienic idx -> hygienic (unlisted addr num idx).
Proof.
  intros Hh a l. unfold unlisted. set (k := propertyKey addr).
  destruct (idx !! k) as [l0|] eqn:Hk; [|apply Hh].
  case_bool_decide as Hlen.
  - destruct (decide (a = k)) as [->|Hne]; [by rewrite lookup_delete_eq|].
    rewrite lookup_delete_ne, lookup_insert_ne by done. apply Hh.
  - destruct (decide (a = k)) as [->|Hne].
    + rewrite lookup_insert_eq. intros [= <-]. split.
      * intros Hnil. apply Hlen. by rewrite Hnil.
      * apply NoDup_filter. by apply (Hh k l0).
    + rewrite lookup_insert_ne by done. apply Hh.
Qed.

Lemma hygienic_listed addr num idx :
  hygienic idx -> hygienic (listed addr num idx).
Proof.
  intros Hh a l. unfold listed. set (k := propertyKey addr).
  destruct (idx !! k) as [l0|] eqn:Hk.
  - rewrite Hk. case_bool_decide as Hin; [apply Hh|].
    destruct (decide (a = k)) as [->|Hne].
    + rewrite lookup_insert_eq. intros [= <-]. split; [by destruct l0|].
      apply NoDup_app. split_and!.
      * by apply (Hh k l0).
      * intros y Hy Hy'. apply list_elem_of_singleton in Hy' as ->. done.
      * apply NoDup_singleton.
    + rewrite lookup_insert_ne by done. apply Hh.
  - rewrite lookup_insert_eq. case_bool_decide as Hin; [by apply elem_of_nil in Hin|].
    rewrite insert_insert_eq. cbn [app].
    destruct (decide (a = k)) as [->|Hne].
    + rewrite lookup_insert_eq. intros [= <-]. split; [done | apply NoDup_singleton].
    + rewrite lookup_insert_ne by done. apply Hh.
Qed.

Lemma hygienic_holders idx : hygienic idx -> size idx = holders idx.
Proof.
  intros Hh. unfold holders. rewrite map_filter_id; [done|].
  intros a l Hl. by apply (Hh a l).
Qed.

(** ** The driver never throws *)

Lemma returns_ret {A} (a : A) : returns (ret a).
Proof. intros w. by eexists _, _. Qed.

Lemma returns_bind {A B} (m : M A) (k : A -> M B) :
  returns m -> (forall a, returns (k a)) -> returns (bind m k).
Proof.
  intros Hm Hk w. unfold bind. destruct (Hm w) as (a & w1 & ->). apply Hk.
Qed.



Lemma returns_emit e : returns (emit e).
Proof. intros w. by eexists _, _. Qed.

Lemma returns_saveLedger : returns saveLedger.
Proof. intros w. by eexists _, _. Qed.

Lemma returns_getLedger : returns getLedger.
Proof. intros w. by eexists _, _. Qed.


Section DriverReturns.

Variable provider : nat -> Endpoint -> Reply.






End DriverReturns.

(** ** The model on small inputs *)

Example includes_op_return :
  includes "0 OP_RETURN 72756e" "OP_RETURN" = true /\
  includes "OP_DUP OP_HASH160" "OP_RETURN" = false.
Proof. split; reflexivity. Qed.

Example findJigVout_prefers_order_lock :
  findJigVout (Scenario.txBody "T" [Scenario.dustOut 0 "B"; Scenario.lockOut 1] 1)
  = Ok (Some {| j_vout := 1; j_addr := None; isOrderLock := true |}).
Proof. reflexivity. Qed.

Example findJigVout_dust :
  findJigVout (Scenario.txBody "T" [Scenario.payOut 0 "X"; Scenario.dustOut 1 "B"] 1)
  = Ok (Some {| j_vout := 1; j_addr := Some "B"%string; isOrderLock := false |}).
Proof. reflexivity. Qed.

Example findJigVout_none :
  findJigVout (Scenario.txBody "T" [Scenario.payOut 0 "X"] 1) = Ok None.
Proof. reflexivity. Qed.

Example findJigVout_not_a_transaction :
  findJigVout {| b_txid := Some "T"%string; b_vout := None; b_blockheight := None |}
  = Throw TypeError.
Proof. reflexivity. Qed.

Example removeFromIndex_last :
  removeFromIndex (Some "A"%string) 7 {[ "A"%string := [7] ]} = Ok ∅.
Proof. by vm_compute. Qed.

Example addToIndex_twice :
  addToIndex (Some "A"%string) 7 {[ "A"%string := [7] ]} = Ok {[ "A"%string := [7] ]} /\
  addToIndex (Some "A"%string) 7 ∅ = Ok {[ "A"%string := [7] ]}.
Proof. split; by vm_compute. Qed.

(** [ledger.owners['constructor']] is the function [Object] unless the
    index has a key of that name. *)
Example addToIndex_inherited :
  addToIndex (Some "constructor"%string) 7 ∅ = Throw TypeError /\
  removeFromIndex (Some "toString"%string) 7 {[ "A"%string := [7] ]} = Throw TypeError /\
  addToIndex (Some "constructor"%string) 7 {[ "constructor"%string := [3] ]}
    = Ok {[ "constructor"%string := [3; 7] ]} /\
  removeFromIndex None 7 {[ "A"%string := [7] ]} = Ok {[ "A"%string := [7] ]}.
Proof. split_and!; by vm_compute. Qed.

Example escrow_run :
  (processNFT Scenario.escrowChain 7 (Scenario.world7 (Some 0))).1 = Ok Changed /\
  logged (events (refresh Scenario.escrowChain (Scenario.world7 (Some 0))).2)
  = [LogStart 1; LogMoved 7 2 (Some "B"%string); LogMainDone 1 1 0; LogSummary 1 1 0 0 0 1].
Proof. split; by vm_compute. Qed.

Example throttled_twice_then_ok :
  let r := wocGet (fun k ep => if (k <? 2)%nat then Http 429 None else Scenario.notSpent)
             (EpSpent "P" 0) (Scenario.world7 (Some 0)) in
  r.1 = Ok None /\ callDelayMs r.2 = 1150 /\
  events r.2 = [EvRequest (EpSpent "P" 0); EvLog (LogThrottle 600); EvSleep 2000;
                EvRequest (EpSpent "P" 0); EvLog (LogThrottle 1200); EvSleep 4000;
                EvRequest (EpSpent "P" 0)].
Proof. cbv zeta. split_and!; by vm_compute. Qed.

(** ** Facts about the concrete chains *)

Lemma ledger7_consistent v : indexConsistent (nfts (Scenario.ledger7 v)) (owners (Scenario.ledger7 v)).
Proof.
  intros a id. unfold holds. cbn [Scenario.ledger7 nfts owners]. split.
  - intros (l & Hl & Hin). apply lookup_singleton_Some in Hl as [<- <-].
    apply list_elem_of_singleton in Hin as ->. eexists. by rewrite lookup_singleton_eq.
  - intros (x & Hx & Ho). apply lookup_singleton_Some in Hx as [<- <-].
    injection Ho as <-. exists [7]. rewrite lookup_singleton_eq. split; [done|].
    by apply list_elem_of_singleton.
Qed.

Lemma ledger7_hygienic v : hygienic (owners (Scenario.ledger7 v)).
Proof.
  intros a l Hl. cbn [Scenario.ledger7 owners] in Hl.
  apply lookup_singleton_Some in Hl as [<- <-].
  split; [done | apply NoDup_singleton].
Qed.

(** ** The test chains report ordinary addresses *)

Lemma ledger7_clean v : cleanOwners (nfts (Scenario.ledger7 v)).
Proof.
  intros id x Hx. cbn [Scenario.ledger7 nfts] in Hx.
  apply lookup_singleton_Some in Hx as [_ <-]. reflexivity.
Qed.

Lemma escrowChain_clean : cleanProvider Scenario.escrowChain.
Proof.
  intros a (k & ep & tx & outs & v & Hr & Ho & Hv & Ha).
  unfold Scenario.escrowChain, Scenario.notSpent, Scenario.spentIn in Hr.
  repeat case_match; try discriminate Hr.
  all: injection Hr as <-; cbn in Ho; try discriminate Ho.
  all: injection Ho as <-.
  all: repeat (apply elem_of_cons in Hv as [->|Hv]); try (by apply elem_of_nil in Hv).
  all: vm_compute in Ha; try discriminate Ha; injection Ha as <-; reflexivity.
Qed.

(** ** Requests against a provider that keeps its answers *)

Section SteadyProvider.

Variable provider : nat -> Endpoint -> Reply.

Lemma wocGet_answers ep v w :
  answers provider ep v ->
  exists w', wocGet provider ep w = (Ok v, w') /\ ledger w' = ledger w.
Proof.
  intros Ha. unfold wocGet.
  destruct (wocGetLoop_ok provider ep v O MAX_RETRIES O w) as (w' & E & _ & Hl).
  - lia.
  - intros i Hi. lia.
  - apply Ha.
  - by exists w'.
Qed.

Lemma getSpender_spentBy txid vout stx w :
  spentBy provider txid vout stx ->
  exists w', getSpender provider txid vout w = (Ok (Some stx), w') /\ ledger w' = ledger w.
Proof.
  intros (b & Ha & Hb & Ht). unfold getSpender, bind.
  destruct (wocGet_answers _ _ w Ha) as (w' & -> & Hl).
  rewrite Hb, Ht. by exists w'.
Qed.

Lemma getSpender_unspent txid vout w :
  unspent provider txid vout ->
  exists w', getSpender provider txid vout w = (Ok None, w') /\ ledger w' = ledger w.
Proof.
  intros (v & Ha & Hv). unfold getSpender, bind.
  destruct (wocGet_answers _ _ w Ha) as (w' & -> & Hl).
  destruct v as [b|]; [rewrite Hv|]; by exists w'.
Qed.

Lemma getTx_hasTx txid tx w :
  hasTx provider txid tx ->
  exists w', getTx provider txid w = (Ok (Some tx), w') /\ ledger w' = ledger w.
Proof. intros Ha. by apply wocGet_answers. Qed.

Lemma getTx_noTx txid w :
  noTx provider txid ->
  exists w', getTx provider txid w = (Ok None, w') /\ ledger w' = ledger w.
Proof. intros Ha. by apply wocGet_answers. Qed.

Lemma pace_run w : exists w', pace w = (Ok tt, w') /\ ledger w' = ledger w.
Proof. by eexists. Qed.

(** *** One iteration of the tracing loop *)

Lemma traceLoop_tip fuel txid vout o ts hops w :
  unspent provider txid vout ->
  exists w', traceLoop provider (S fuel) txid vout o ts hops w =
               (Ok {| r_owner := o; r_lastTx := txid; r_lastVout := vout;
                      r_newTransfers := ts; r_hops := hops |}, w') /\
             ledger w' = ledger w.
Proof.
  intros Hu. rewrite traceLoop_S. cbv zeta. unfold bind.
  destruct (getSpender_unspent _ _ w Hu) as (w1 & -> & H1).
  destruct (pace_run w1) as (w2 & -> & H2).
  exists w2. split; [done | congruence].
Qed.

Lemma traceLoop_hop fuel txid vout o ts hops w stx tx j :
  spentBy provider txid vout stx -> hasTx provider stx tx ->
  findJigVout tx = Ok (Some j) ->
  exists w', ledger w' = ledger w /\
    traceLoop provider (S fuel) txid vout o ts hops w =
    traceLoop provider fuel stx (j_vout j)
      (if movesTo j o then j_addr j else o)
      (if movesTo j o then ts ++ [sendEvent stx o (j_addr j) tx] else ts)
      (hops + 1) w'.
Proof.
  intros Hs Ht Hj. rewrite traceLoop_S. cbv zeta. unfold bind.
  destruct (getSpender_spentBy _ _ _ w Hs) as (w1 & -> & H1).
  destruct (pace_run w1) as (w2 & -> & H2).
  destruct (getTx_hasTx _ _ w2 Ht) as (w3 & -> & H3).
  destruct (pace_run w3) as (w4 & -> & H4).
  unfold liftRes. rewrite Hj.
  exists w4. split; [congruence|]. by destruct (movesTo j o).
Qed.

Lemma traceLoop_noJig fuel txid vout o ts hops w stx tx :
  spentBy provider txid vout stx -> hasTx provider stx tx ->
  findJigVout tx = Ok None ->
  exists w', traceLoop provider (S fuel) txid vout o ts hops w =
               (Ok {| r_owner := o; r_lastTx := txid; r_lastVout := vout;
                      r_newTransfers := ts; r_hops := hops + 1 |}, w') /\
             ledger w' = ledger w.
Proof.
  intros Hs Ht Hj. rewrite traceLoop_S. cbv zeta. unfold bind.
  destruct (getSpender_spentBy _ _ _ w Hs) as (w1 & -> & H1).
  destruct (pace_run w1) as (w2 & -> & H2).
  destruct (getTx_hasTx _ _ w2 Ht) as (w3 & -> & H3).
  destruct (pace_run w3) as (w4 & -> & H4).
  unfold liftRes. rewrite Hj.
  exists w4. split; [done | congruence].
Qed.

Lemma traceLoop_noTx fuel txid vout o ts hops w stx :
  spentBy provider txid vout stx -> noTx provider stx ->
  exists w', traceLoop provider (S fuel) txid vout o ts hops w =
               (Ok {| r_owner := o; r_lastTx := txid; r_lastVout := vout;
                      r_newTransfers := ts; r_hops := hops + 1 |}, w') /\
             ledger w' = ledger w.
Proof.
  intros Hs Ht. rewrite traceLoop_S. cbv zeta. unfold bind.
  destruct (getSpender_spentBy _ _ _ w Hs) as (w1 & -> & H1).
  destruct (pace_run w1) as (w2 & -> & H2).
  destruct (getTx_noTx _ w2 Ht) as (w3 & -> & H3).
  destruct (pace_run w3) as (w4 & -> & H4).
  exists w4. split; [done | congruence].
Qed.

End SteadyProvider.

(** ** [processNFT] against a provider that keeps its answers *)

Section SteadyRefresh.

Variable provider : nat -> Endpoint -> Reply.

(** The block of assignments that commits a trace: the record first,
    the index after it, and the message when the index calls returned. *)
Lemma commit_run num x ts o ltx lv oldOwner total w :
  nfts (ledger w) !! num = Some x ->
  exists w',
    (modifyNft num (pushTransfers ts);;
     modifyNft num (setOwner o);;
     modifyNft num (setLastTx ltx);;
     modifyNft num (setLastVout lv);;
     (if bool_decide (oldOwner = o) then ret tt
      else removeFromOwnerIndex oldOwner num;; addToOwnerIndex o num);;
     log (LogMoved num total o);;
     ret Changed) w
      = (committed (commitIndex oldOwner o num (owners (ledger w))).1, w') /\
    ledger w' = {| lastUpdated := lastUpdated (ledger w);
                   nfts := <[num := movedRecord x ts o ltx lv]> (nfts (ledger w));
                   owners := (commitIndex oldOwner o num (owners (ledger w))).2 |} /\
    events w' = events w ++
      match (commitIndex oldOwner o num (owners (ledger w))).1 with
      | Ok _ => [EvLog (LogMoved num total o)]
      | Throw _ => []
      end.
Proof.
  intros Hx.
  assert (nfts (ledger w) = <[num := x]> (nfts (ledger w))) as Hm0
    by (symmetry; by apply insert_id).
  unfold bind.
  destruct (modifyNft_step num (pushTransfers ts) w _ _ Hm0) as (w7 & E7 & Hm7 & Ho7 & Hl7).
  assert (events w7 = events w) as He7 by (by injection E7 as <-).
  rewrite E7.
  destruct (modifyNft_step num (setOwner o) w7 _ _ Hm7) as (w8 & E8 & Hm8 & Ho8 & Hl8).
  assert (events w8 = events w7) as He8 by (by injection E8 as <-).
  rewrite E8.
  destruct (modifyNft_step num (setLastTx ltx) w8 _ _ Hm8) as (w9 & E9 & Hm9 & Ho9 & Hl9).
  assert (events w9 = events w8) as He9 by (by injection E9 as <-).
  rewrite E9.
  destruct (modifyNft_step num (setLastVout lv) w9 _ _ Hm9)
    as (w10 & E10 & Hm10 & Ho10 & Hl10).
  assert (events w10 = events w9) as He10 by (by injection E10 as <-).
  rewrite E10.
  destruct (commitIndex_run oldOwner o num w10) as (w11 & Hrun & Hm11 & Ho11 & Hl11 & He11 & _).
  unfold bind in Hrun. rewrite Hrun.
  assert (owners (ledger w10) = owners (ledger w)) as Ho by congruence.
  rewrite Ho in *.
  assert (ledger w11 =
    {| lastUpdated := lastUpdated (ledger w);
       nfts := <[num := movedRecord x ts o ltx lv]> (nfts (ledger w));
       owners := (commitIndex oldOwner o num (owners (ledger w))).2 |}) as Hled.
  { apply ledger_ext; cbn [lastUpdated nfts owners]; [congruence | | congruence].
    rewrite Hm11, Hm10. done. }
  destruct (commitIndex oldOwner o num (owners (ledger w))) as [[[]|e] idx'];
    cbn [fst snd committed] in *.
  - unfold log, emit, ret. eexists. split; [reflexivity|]. cbn [ledger events].
    split; [done | congruence].
  - exists w11. split; [done|]. split; [done|]. rewrite app_nil_r. congruence.
Qed.


Ltac run_prefix Hx Ht Hb Hv :=
  unfold processNFT; unfold bind at 1; rewrite getNft_run, Hx, Ht, Hb; cbn [negb];
  unfold bind at 1; unfold resolveLastVout at 1; unfold bind at 1;
  rewrite getNft_run, Hx, Hv; unfold ret at 1;
  unfold bind at 1; rewrite getNft_run, Hx.

Lemma processNFT_unchanged num x txid vout w :
  trackedAt w num x txid vout -> unspent provider txid vout ->
  exists w', processNFT provider num w = (Ok Unchanged, w') /\ ledger w' = ledger w.
Proof.
  intros (Hx & Hl & Ht & Hb & Hv) Hu. run_prefix Hx Ht Hb Hv. rewrite Hl. cbn [default from_option id].
  unfold bind.
  destruct (getSpender_unspent _ _ _ w Hu) as (w1 & -> & H1).
  destruct (pace_run w1) as (w2 & -> & H2).
  exists w2. split; [done | congruence].
Qed.

Lemma processNFT_noTx num x txid vout w stx :
  trackedAt w num x txid vout -> spentBy provider txid vout stx -> noTx provider stx ->
  exists w', processNFT provider num w = (Throw CouldNotFetchSpendingTx, w') /\
             ledger w' = ledger w.
Proof.
  intros (Hx & Hl & Ht & Hb & Hv) Hs Hn. run_prefix Hx Ht Hb Hv. rewrite Hl. cbn [default from_option id].
  unfold bind.
  destruct (getSpender_spentBy _ _ _ _ w Hs) as (w1 & -> & H1).
  destruct (pace_run w1) as (w2 & -> & H2).
  destruct (getTx_noTx _ _ w2 Hn) as (w3 & -> & H3).
  destruct (pace_run w3) as (w4 & -> & H4).
  exists w4. split; [done | congruence].
Qed.

(** A spend at the first hop into a transaction without a jig output is
    recorded as a burn. *)
Lemma processNFT_burned num x txid vout w stx tx :
  trackedAt w num x txid vout -> spentBy provider txid vout stx ->
  hasTx provider stx tx -> findJigVout tx = Ok None ->
  exists w', processNFT provider num w = (Ok Burned, w') /\
    nfts (ledger w') = <[num := burnedRecord x stx tx]> (nfts (ledger w)) /\
    owners (ledger w') = owners (ledger w).
Proof.
  intros (Hx & Hl & Ht & Hb & Hv) Hs Hh Hj.
  run_prefix Hx Ht Hb Hv. rewrite Hl. cbn [default from_option id].
  unfold bind at 1.
  destruct (getSpender_spentBy _ _ _ _ w Hs) as (w1 & -> & H1).
  unfold bind at 1.
  destruct (pace_run w1) as (w2 & -> & H2).
  unfold bind at 1.
  destruct (getTx_hasTx _ _ _ w2 Hh) as (w3 & -> & H3).
  unfold bind at 1.
  destruct (pace_run w3) as (w4 & -> & H4).
  unfold bind at 1. unfold liftRes. rewrite Hj.
  assert (nfts (ledger w4) !! num = Some x) as Hx4 by congruence.
  unfold bind.
  destruct (modifyNft_run num setBurned w4 x Hx4) as (w6 & -> & E6).
  assert (nfts (ledger w6) !! num = Some (setBurned x)) as Hx6.
  { rewrite E6. apply lookup_insert_eq. }
  destruct (modifyNft_run num (setBurnTx stx) w6 _ Hx6) as (w7 & -> & E7).
  assert (nfts (ledger w7) !! num = Some (setBurnTx stx (setBurned x))) as Hx7.
  { rewrite E7. apply lookup_insert_eq. }
  rewrite getNft_run, Hx7. cbn [owner setBurnTx setBurned].
  destruct (modifyNft_run num (pushTransfers [burnEvent stx (owner x) tx]) w7 _ Hx7)
    as (w8 & -> & E8).
  rewrite burnedRecord_steps in E8.
  assert (nfts (ledger w8) !! num = Some (burnedRecord x stx tx)) as Hx8.
  { rewrite E8. apply lookup_insert_eq. }
  rewrite getNft_run, Hx8. unfold log, emit, ret.
  eexists. split; [reflexivity|]. cbn [ledger].
  rewrite E8, E7, E6. unfold withNfts. cbn [nfts lastUpdated owners].
  rewrite (insert_insert_eq (nfts (ledger w4))).
  rewrite (insert_insert_eq (nfts (ledger w4))).
  split; congruence.
Qed.

(** A spend at the first hop into a transaction with a jig output: once
    the trace from there returns, its result is committed. *)
Lemma processNFT_traced num x txid vout w stx tx j :
  trackedAt w num x txid vout -> spentBy provider txid vout stx ->
  hasTx provider stx tx -> findJigVout tx = Ok (Some j) ->
  let cur := if movesTo j (owner x) then j_addr j else owner x in
  let first := if movesTo j (owner x)
               then [sendEvent stx (owner x) (j_addr j) tx] else [] in
  exists w5, ledger w5 = ledger w /\
    forall res w6,
      traceForward provider stx (j_vout j) cur w5 = (Ok res, w6) ->
      let idx := commitIndex (owner x) (r_owner res) num (owners (ledger w)) in
      exists w',
        processNFT provider num w = (committed idx.1, w') /\
        ledger w' =
          {| lastUpdated := lastUpdated (ledger w);
             nfts := <[num := movedRecord x (first ++ r_newTransfers res) (r_owner res)
                                 (r_lastTx res) (r_lastVout res)]> (nfts (ledger w));
             owners := idx.2 |} /\
        events w' = events w6 ++
          match idx.1 with
          | Ok _ =>
              [EvLog (LogMoved num
                        (Z.of_nat (length (first ++ r_newTransfers res)) + r_hops res)
                        (r_owner res))]
          | Throw _ => []
          end.
Proof.
  intros (Hx & Hl & Ht & Hb & Hv) Hs Hh Hj cur first.
  run_prefix Hx Ht Hb Hv. rewrite Hl. cbn [default from_option id].
  unfold bind at 1.
  destruct (getSpender_spentBy _ _ _ _ w Hs) as (w1 & -> & H1).
  unfold bind at 1.
  destruct (pace_run w1) as (w2 & -> & H2).
  unfold bind at 1.
  destruct (getTx_hasTx _ _ _ w2 Hh) as (w3 & -> & H3).
  unfold bind at 1.
  destruct (pace_run w3) as (w4 & -> & H4).
  unfold bind at 1. unfold liftRes. rewrite Hj.
  assert (ledger w4 = ledger w) as E4 by congruence.
  exists w4. split; [done|]. intros res w6 E6. cbv zeta.
  unfold bind at 1. rewrite getNft_run, E4, Hx. cbv zeta.
  unfold bind at 1. fold cur. rewrite E6.
  pose proof (netOp_run _ _ _ _ (netOp_traceForward provider _ _ _) E6) as E6'.
  assert (nfts (ledger w6) !! num = Some x) as Hx6 by congruence.
  fold first.
  destruct (commit_run num x (first ++ r_newTransfers res) (r_owner res) (r_lastTx res)
              (r_lastVout res) (owner x)
              (Z.of_nat (length (first ++ r_newTransfers res)) + r_hops res) w6 Hx6)
    as (w' & -> & Hl' & He').
  assert (ledger w6 = ledger w) as E6w by congruence.
  rewrite E6w in Hl', He' |- *.
  exists w'. split; [done|]. split; [|done]. exact Hl'.
Qed.

(** Resolving the output index first: the call goes on as a call on the
    ledger in which the index is stored. *)
Lemma processNFT_resolve num x txid vout w :
  locatedAt provider w num x txid vout ->
  exists w1,
    trackedAt w1 num (setLastVout vout x) txid vout /\
    nfts (ledger w1) = <[num := setLastVout vout x]> (nfts (ledger w)) /\
    owners (ledger w1) = owners (ledger w) /\
    lastUpdated (ledger w1) = lastUpdated (ledger w) /\
    processNFT provider num w = processNFT provider num w1.
Proof.
  intros (Hx & Hl & Ht & Hb & Hv).
  assert (forall w1, nfts (ledger w1) !! num = Some (setLastVout vout x) ->
            processNFT provider num w1 =
            (let* lastVout := ret (Some vout) in
             match lastVout with
             | None => throw CouldNotResolveVout
             | Some lastVout =>
                 let* nft := getNft num in
                 let* spendingTxid :=
                   getSpender provider (default "undefined"%string (lastTx nft)) lastVout in
                 pace;;
                 match spendingTxid with
                 | None => ret Unchanged
                 | Some spendingTxid =>
                     let* spendTx := getTx provider spendingTxid in
                     pace;;
                     match spendTx with
                     | None => throw CouldNotFetchSpendingTx
                     | Some spendTx =>
                         let* jig := liftRes (findJigVout spendTx) in
                         match jig with
                         | None =>
                             modifyNft num setBurned;;
                             modifyNft num (setBurnTx spendingTxid);;
                             let* nft := getNft num in
                             modifyNft num
                               (pushTransfers [burnEvent spendingTxid (owner nft) spendTx]);;
                             let* nft := getNft num in
                             log (LogBurned num spendingTxid (owner nft));;
                             ret Burned
                         | Some jig =>
                             let* nft := getNft num in
                             let oldOwner := owner nft in
                             let moved := movesTo jig oldOwner in
                             let currentOwner := if moved then j_addr jig else oldOwner in
                             let firstTransfers :=
                               if moved
                               then [sendEvent spendingTxid oldOwner (j_addr jig) spendTx]
                               else [] in
                             let* result :=
                               traceForward provider spendingTxid (j_vout jig) currentOwner in
                             let allNewTransfers := firstTransfers ++ r_newTransfers result in
                             modifyNft num (pushTransfers allNewTransfers);;
                             modifyNft num (setOwner (r_owner result));;
                             modifyNft num (setLastTx (r_lastTx result));;
                             modifyNft num (setLastVout (r_lastVout result));;
                             (if bool_decide (oldOwner = r_owner result) then ret tt
                              else removeFromOwnerIndex oldOwner num;;
                                   addToOwnerIndex (r_owner result) num);;
                             let totalHops :=
                               Z.of_nat (length allNewTransfers) + r_hops result in
                             log (LogMoved num totalHops (r_owner result));;
                             ret Changed
                         end
                     end
                 end
             end) w1) as Hcached.
  { intros w1 Hx1. unfold processNFT. unfold bind at 1. rewrite getNft_run, Hx1.
    cbn [lastTx burned setLastVout]. rewrite Ht, Hb. cbn [negb].
    unfold bind at 1. unfold resolveLastVout at 1. unfold bind at 1.
    rewrite getNft_run, Hx1. cbn [lastVout setLastVout]. reflexivity. }
  destruct Hv as [Hv | (Hv & tx & j & Htx & Hj & <-)].
  - exists w.
    assert (setLastVout vout x = x) as Hsame.
    { clear -Hv. destruct x. cbn [lastVout] in Hv. unfold setLastVout. cbn. congruence. }
    rewrite Hsame. split_and!; [by split_and! | by rewrite insert_id | done..].
  - destruct (getTx_hasTx provider txid tx w Htx) as (wa & Ea & Hla).
    destruct (pace_run wa) as (wb & Eb & Hlb).
    assert (nfts (ledger wb) !! num = Some x) as Hxb by congruence.
    destruct (modifyNft_run num (setLastVout (j_vout j)) wb x Hxb) as (w1 & E1 & Hl1).
    assert (nfts (ledger w1) !! num = Some (setLastVout (j_vout j) x)) as Hx1.
    { rewrite Hl1. apply lookup_insert_eq. }
    exists w1. split_and!.
    + by split_and!.
    + rewrite Hl1. cbn [withNfts nfts]. congruence.
    + rewrite Hl1. cbn [withNfts owners]. congruence.
    + rewrite Hl1. cbn [withNfts lastUpdated]. congruence.
    + rewrite (Hcached w1 Hx1).
      unfold processNFT. unfold bind at 1. rewrite getNft_run, Hx, Ht, Hb. cbn [negb].
      unfold bind at 1. unfold resolveLastVout at 1. unfold bind at 1.
      rewrite getNft_run, Hx, Hv, Hl. cbn [default from_option id].
      unfold bind at 1. rewrite Ea. unfold bind at 1. rewrite Eb.
      unfold bind at 1, liftRes at 1. rewrite Hj.
      unfold bind at 1. rewrite E1. unfold ret at 1.
      unfold bind at 2. unfold ret at 2. reflexivity.
Qed.

End SteadyRefresh.

(** ** The hop ceiling *)

Lemma stopReasonLoop_S provider fuel txid vout :
  stopReasonLoop provider (S fuel) txid vout =
  (let* spendingTxid := getSpender provider txid vout in
   pace;;
   match spendingTxid with
   | None => ret AtTip
   | Some stx =>
       let* spendTx := getTx provider stx in
       pace;;
       match spendTx with
       | None => ret TxMissing
       | Some tx =>
           let* jig := liftRes (findJigVout tx) in
           match jig with
           | None => ret NoJig
           | Some j => stopReasonLoop provider fuel stx (j_vout j)
           end
       end
   end).
Proof. reflexivity. Qed.

(** A loop that ends at the ceiling returns normally, in the same world,
    with one hop counted per unit of fuel. *)
Lemma stopReasonLoop_ceiling provider fuel : forall txid vout o ts hops w w',
  stopReasonLoop provider fuel txid vout w = (Ok Ceiling, w') ->
  exists r, traceLoop provider fuel txid vout o ts hops w = (Ok r, w') /\
            r_hops r = hops + Z.of_nat fuel.
Proof.
  induction fuel as [|fuel IH]; intros txid vout o ts hops w w'.
  - cbn [stopReasonLoop traceLoop]. unfold ret. intros [= <-].
    eexists. split; [reflexivity|]. cbn [r_hops]. lia.
  - rewrite stopReasonLoop_S, traceLoop_S. cbv zeta. unfold bind.
    destruct (getSpender provider txid vout w) as [[[stx|]|e] w1]; [| |done].
    2:{ destruct (pace w1) as [[[]|] w2]; [|done]. by intros [= ?]. }
    destruct (pace w1) as [[[]|] w2]; [|done].
    destruct (getTx provider stx w2) as [[[tx|]|e] w3]; [| |done].
    2:{ destruct (pace w3) as [[[]|] w4]; [|done]. by intros [= ?]. }
    destruct (pace w3) as [[[]|] w4]; [|done].
    unfold liftRes. destruct (findJigVout tx) as [[j|]|e]; [| |done].
    2:{ by intros [= ?]. }
    intros H.
    destruct (movesTo j o);
      [ destruct (IH stx (j_vout j) (j_addr j) (ts ++ [sendEvent stx o (j_addr j) tx])
                    (hops + 1) w4 w' H) as (r & -> & Hr)
      | destruct (IH stx (j_vout j) o ts (hops + 1) w4 w' H) as (r & -> & Hr) ];
      exists r; (split; [done | lia]).
Qed.

(** [traceForward] never counts more than a hundred hops. *)
Lemma traceLoop_hops provider fuel : forall txid vout o ts hops w r w',
  traceLoop provider fuel txid vout o ts hops w = (Ok r, w') ->
  hops <= r_hops r <= hops + Z.of_nat fuel.
Proof.
  induction fuel as [|fuel IH]; intros txid vout o ts hops w r w'.
  - cbn [traceLoop]. unfold ret. intros [= <- _]. cbn [r_hops]. lia.
  - rewrite traceLoop_S. cbv zeta. unfold bind.
    destruct (getSpender provider txid vout w) as [[[stx|]|e] w1]; [| |done].
    2:{ destruct (pace w1) as [[[]|] w2]; [|done]. unfold ret. intros [= <- _].
        cbn [r_hops]. lia. }
    destruct (pace w1) as [[[]|] w2]; [|done].
    destruct (getTx provider stx w2) as [[[tx|]|e] w3]; [| |done].
    2:{ destruct (pace w3) as [[[]|] w4]; [|done]. unfold ret. intros [= <- _].
        cbn [r_hops]. lia. }
    destruct (pace w3) as [[[]|] w4]; [|done].
    unfold liftRes. destruct (findJigVout tx) as [[j|]|e]; [| |done].
    2:{ unfold ret. intros [= <- _]. cbn [r_hops]. lia. }
    destruct (movesTo j o); intros H; apply IH in H; lia.
Qed.


Lemma reach_S provider k p :
  reach provider (S k) p =
  (let* q := hop provider p in
   match q with
   | None => ret None
   | Some q => reach provider k q
   end).
Proof. reflexivity. Qed.

(** A loop that ends at the ceiling has made one pass of the loop body
    per unit of fuel, none of which broke, and returns the position the
    last pass moved to. *)
Lemma stopReasonLoop_reach provider fuel : forall p hops w w',
  stopReasonLoop provider fuel (p_txid p) (p_vout p) w = (Ok Ceiling, w') ->
  exists q h,
    reach provider fuel p w = (Ok (Some q), w') /\
    traceLoop provider fuel (p_txid p) (p_vout p) (p_owner p) (p_transfers p) hops w =
      (Ok {| r_owner := p_owner q; r_lastTx := p_txid q; r_lastVout := p_vout q;
             r_newTransfers := p_transfers q; r_hops := h |}, w') /\
    h = hops + Z.of_nat fuel.
Proof.
  induction fuel as [|fuel IH]; intros p hops w w'.
  - cbn [stopReasonLoop traceLoop reach]. unfold ret. intros [= <-].
    exists p, hops. split_and!; [done..|lia].
  - rewrite stopReasonLoop_S, traceLoop_S, reach_S. unfold hop. cbv zeta. unfold bind.
    destruct (getSpender provider (p_txid p) (p_vout p) w) as [[[stx|]|e] w1]; [| |done].
    2:{ destruct (pace w1) as [[[]|] w2]; [|done]. by intros [= ?]. }
    destruct (pace w1) as [[[]|] w2]; [|done].
    destruct (getTx provider stx w2) as [[[tx|]|e] w3]; [| |done].
    2:{ destruct (pace w3) as [[[]|] w4]; [|done]. by intros [= ?]. }
    destruct (pace w3) as [[[]|] w4]; [|done].
    unfold liftRes. destruct (findJigVout tx) as [[j|]|e]; [| |done].
    2:{ by intros [= ?]. }
    intros H. unfold ret.
    destruct (movesTo j (p_owner p)).
    + destruct (IH {| p_txid := stx; p_vout := j_vout j; p_owner := j_addr j;
                      p_transfers := p_transfers p
                        ++ [sendEvent stx (p_owner p) (j_addr j) tx] |}
                  (hops + 1) w4 w' H) as (q & h & Hq & Ht & Hh).
      exists q, h. split_and!; [exact Hq | exact Ht | lia].
    + destruct (IH {| p_txid := stx; p_vout := j_vout j; p_owner := p_owner p;
                      p_transfers := p_transfers p |}
                  (hops + 1) w4 w' H) as (q & h & Hq & Ht & Hh).
      exists q, h. split_and!; [exact Hq | exact Ht | lia].
Qed.
(** ** A second run over a settled ledger *)

Section Settled.

Variable chain : Endpoint -> Reply.

Lemma settledb_lookup l num x :
  settledb chain l = true -> nfts l !! num = Some x -> atTip chain x = true.
Proof.
  unfold settledb. rewrite forallb_forall. intros H Hx.
  apply (H (num, x)). apply list_elem_of_In. by apply elem_of_map_to_list.
Qed.

Lemma processNFT_settled num x w :
  settledb chain (ledger w) = true -> nfts (ledger w) !! num = Some x ->
  exists s w', processNFT (steady chain) num w = (Ok s, w') /\
    (s = Unchanged \/ s = Skip) /\ ledger w' = ledger w.
Proof.
  intros Hs Hx. pose proof (settledb_lookup _ _ _ Hs Hx) as Ht. unfold atTip in Ht.
  destruct (truthy (lastTx x)) eqn:Hl.
  2:{ exists Skip, w. split; [|by auto].
      unfold processNFT. unfold bind at 1. by rewrite getNft_run, Hx, Hl. }
  destruct (burned x) eqn:Hb.
  { exists Unchanged, w. split; [|by auto].
    unfold processNFT. unfold bind at 1. by rewrite getNft_run, Hx, Hl, Hb. }
  cbn [negb orb] in Ht.
  destruct (lastTx x) as [t|] eqn:Hlt; [|done].
  destruct (lastVout x) as [v|] eqn:Hv; [|done].
  destruct (processNFT_unchanged (steady chain) num x t v w) as (w' & E & Hw').
  - unfold trackedAt. rewrite Hlt. by split_and!.
  - destruct (replyValue (chain (EpSpent t v))) as [[b|]|] eqn:Hr; [| |done].
    + exists (Some b). split; [by intros k|]. by destruct (truthy (b_txid b)).
    + exists None. split; [by intros k | done].
  - exists Unchanged, w'. by split_and!; [|left|].
Qed.

Lemma mainStep_settled total c num x w :
  settledb chain (ledger w) = true -> nfts (ledger w) !! num = Some x -> quiet c ->
  exists c' w', mainStep (steady chain) total c num w = (Ok c', w') /\
    ledger w' = ledger w /\ quiet c'.
Proof.
  intros Hs Hx (Hc & Hb & He & Hf).
  destruct (processNFT_settled num x w Hs Hx) as (s & w1 & E & Hst & Hl).
  unfold mainStep, tryCatch, bind. rewrite E.
  destruct Hst as [-> | ->].
  - destruct (_ mod 50 =? 0); unfold log, emit, ret;
      (eexists _, _; split; [reflexivity|]; split; [exact Hl | done]).
  - destruct (_ mod 50 =? 0); unfold log, emit, ret;
      (eexists _, _; split; [reflexivity|]; split; [exact Hl | done]).
Qed.

Lemma forEach_settled total nums : forall c w,
  settledb chain (ledger w) = true ->
  (forall num, num ∈ nums -> is_Some (nfts (ledger w) !! num)) -> quiet c ->
  exists c' w', forEach (mainStep (steady chain) total) c nums w = (Ok c', w') /\
    ledger w' = ledger w /\ quiet c'.
Proof.
  induction nums as [|num nums IH]; intros c w Hs Hin Hq; cbn [forEach].
  - by exists c, w.
  - destruct (Hin num) as [x Hx]; [by left|].
    destruct (mainStep_settled total c num x w Hs Hx Hq) as (c1 & w1 & E1 & Hl1 & Hq1).
    unfold bind. rewrite E1.
    destruct (IH c1 w1) as (c2 & w2 & E2 & Hl2 & Hq2).
    + by rewrite Hl1.
    + intros n Hn. rewrite Hl1. apply Hin. by right.
    + done.
    + exists c2, w2. split; [done|]. split; [congruence | done].
Qed.

Lemma sortedNums_lookup l num : num ∈ sortedNums l -> is_Some (nfts l !! num).
Proof.
  unfold sortedNums. rewrite merge_sort_Permutation.
  intros Hin. apply list_elem_of_fmap in Hin as ([k x] & -> & Hkx).
  apply elem_of_map_to_list in Hkx. by exists x.
Qed.

Lemma refresh_settled w :
  settledb chain (ledger w) = true ->
  exists c w', refresh (steady chain) w = (Ok c, w') /\
    nfts (ledger w') = nfts (ledger w) /\ owners (ledger w') = owners (ledger w) /\
    quiet c.
Proof.
  intros Hs. unfold refresh, mainPass, bind, getLedger, log, emit.
  cbn [ledger].
  match goal with
  | |- context [forEach ?f ?c0 ?nums ?w0] =>
      destruct (forEach_settled (Z.of_nat (length (sortedNums (ledger w))))
                  (sortedNums (ledger w)) c0 w0) as (c1 & w1 & E1 & Hl1 & Hq1)
  end.
  - exact Hs.
  - intros num. apply sortedNums_lookup.
  - done.
  - rewrite E1. unfold saveLedger, ret. cbn [ledger].
    destruct Hq1 as (Hc & Hb & He & Hf).
    unfold retryRound, ret. repeat (rewrite Hf; cbv beta iota).
    eexists _, _. split; [reflexivity|]. cbn [ledger nfts owners].
    rewrite Hl1. by split_and!.
Qed.

End Settled.

(** ** Stops of the trace after the first hop *)

Section LateStops.

Variable provider : nat -> Endpoint -> Reply.

(** What [processNFT] commits when the trace from the first spending
    transaction stops at once with [hops = 1]: the cursor rests on the
    jig of that transaction, and the burned flag, the burn transaction
    and the history beyond the first hop are left alone. *)
Lemma processNFT_stop_at_second_hop num x txid vout w stx tx j :
  trackedAt w num x txid vout -> spentBy provider txid vout stx ->
  hasTx provider stx tx -> findJigVout tx = Ok (Some j) ->
  let cur := if movesTo j (owner x) then j_addr j else owner x in
  let first := if movesTo j (owner x)
               then [sendEvent stx (owner x) (j_addr j) tx] else [] in
  (forall w5, exists w6,
      traceForward provider stx (j_vout j) cur w5 =
        (Ok {| r_owner := cur; r_lastTx := stx; r_lastVout := j_vout j;
               r_newTransfers := []; r_hops := 1 |}, w6)) ->
  inherited (propertyKey (owner x)) = false -> inherited (propertyKey cur) = false ->
  exists w',
    processNFT provider num w = (Ok Changed, w') /\
    nfts (ledger w') !! num =
      Some {| owner := cur; lastTx := Some stx; lastVout := Some (j_vout j);
              transfers := transfers x ++ first; burned := false; burnTx := burnTx x |}.
Proof.
  intros Htr Hs Ht Hj cur first Htrace Hk Hk'.
  pose proof Htr as (_ & _ & _ & Hb & _).
  destruct (processNFT_traced provider num x txid vout w stx tx j Htr Hs Ht Hj)
    as (w5 & E5 & Hcommit).
  destruct (Htrace w5) as (w6 & E6).
  destruct (Hcommit _ _ E6) as (w' & Hrun & Hled & _).
  cbn [r_owner] in Hrun, Hled.
  rewrite (commitIndex_clean _ _ num (owners (ledger w)) Hk Hk') in Hrun, Hled.
  exists w'. split; [exact Hrun|]. rewrite Hled.
  cbn [nfts r_owner r_lastTx r_lastVout r_newTransfers]. rewrite lookup_insert_eq.
  unfold movedRecord. fold first. by rewrite Hb, app_nil_r.
Qed.

(** A destruction met at the second hop is not recorded by this call. *)
Lemma processNFT_late_destruction num x txid vout w stx tx j stx2 tx2 :
  trackedAt w num x txid vout -> spentBy provider txid vout stx ->
  hasTx provider stx tx -> findJigVout tx = Ok (Some j) ->
  spentBy provider stx (j_vout j) stx2 -> hasTx provider stx2 tx2 ->
  findJigVout tx2 = Ok None ->
  inherited (propertyKey (owner x)) = false ->
  inherited (propertyKey (j_addr j)) = false ->
  exists w' x',
    processNFT provider num w = (Ok Changed, w') /\
    nfts (ledger w') !! num = Some x' /\
    burned x' = false /\ burnTx x' = burnTx x /\ lastTx x' = Some stx.
Proof.
  intros Htr Hs Ht Hj Hs2 Ht2 Hj2 Hk Hk'.
  destruct (processNFT_stop_at_second_hop num x txid vout w stx tx j Htr Hs Ht Hj)
    as (w' & Hrun & Hrec); [| done | by destruct (movesTo j (owner x)) |].
  - intros w5. unfold traceForward, HOP_CEILING.
    destruct (traceLoop_noJig provider 99 stx (j_vout j)
                (if movesTo j (owner x) then j_addr j else owner x) [] 0 w5 stx2 tx2
                Hs2 Ht2 Hj2) as (w6 & E6 & _).
    by exists w6.
  - eexists w', _. split; [exact Hrun|]. split; [exact Hrec|]. done.
Qed.

(** A spending transaction that the provider does not have, met at the
    second hop, raises no error in this call. *)
Lemma processNFT_late_missing_tx num x txid vout w stx tx j stx2 :
  trackedAt w num x txid vout -> spentBy provider txid vout stx ->
  hasTx provider stx tx -> findJigVout tx = Ok (Some j) ->
  spentBy provider stx (j_vout j) stx2 -> noTx provider stx2 ->
  inherited (propertyKey (owner x)) = false ->
  inherited (propertyKey (j_addr j)) = false ->
  exists w' x',
    processNFT provider num w = (Ok Changed, w') /\
    nfts (ledger w') !! num = Some x' /\
    lastTx x' = Some stx /\ lastVout x' = Some (j_vout j).
Proof.
  intros Htr Hs Ht Hj Hs2 Hn2 Hk Hk'.
  destruct (processNFT_stop_at_second_hop num x txid vout w stx tx j Htr Hs Ht Hj)
    as (w' & Hrun & Hrec); [| done | by destruct (movesTo j (owner x)) |].
  - intros w5. unfold traceForward, HOP_CEILING.
    destruct (traceLoop_noTx provider 99 stx (j_vout j)
                (if movesTo j (owner x) then j_addr j else owner x) [] 0 w5 stx2
                Hs2 Hn2) as (w6 & E6 & _).
    by exists w6.
  - eexists w', _. split; [exact Hrun|]. split; [exact Hrec|]. done.
Qed.

End LateStops.

(** ** Properties of the world kept by every operation *)

Section Walk.

Variable provider : nat -> Endpoint -> Reply.
Variable P : World -> Prop.
Hypothesis P_emit : forall e, isRequest e = false -> preserves P (emit e).
Hypothesis P_withLedger : forall f, preserves P (withLedger f).
Hypothesis P_fetch : forall ep, preserves P (fetch provider ep).
Hypothesis P_onSuccess : preserves P onSuccess.
Hypothesis P_onThrottle : preserves P onThrottle.

Ltac walk :=
  repeat first
    [ apply preserves_ret
    | apply preserves_throw
    | apply preserves_liftRes
    | apply P_emit; reflexivity
    | apply P_withLedger
    | apply P_fetch
    | apply P_onSuccess
    | apply P_onThrottle
    | apply (proj1 (preserves_read P))
    | apply (proj2 (preserves_read P))
    | apply preserves_bind; [| intros ?]
    | apply preserves_tryCatch; [| intros ?]
    | assumption
    | case_match ].

Lemma walk_request ep : preserves P (request provider ep).
Proof. unfold request. walk. Qed.

Lemma walk_wocGetLoop left attempt ep : preserves P (wocGetLoop provider left attempt ep).
Proof.
  revert attempt. induction left as [|left IH]; intros attempt.
  - rewrite wocGetLoop_O. apply preserves_tryCatch; [apply walk_request | intros; walk].
  - rewrite wocGetLoop_S. apply preserves_tryCatch; [apply walk_request | intros].
    unfold sleep. apply preserves_bind; [by apply P_emit | intros; apply IH].
Qed.

Lemma walk_wocGet ep : preserves P (wocGet provider ep).
Proof. apply walk_wocGetLoop. Qed.

Lemma walk_getSpender txid vout : preserves P (getSpender provider txid vout).
Proof. unfold getSpender. apply preserves_bind; [apply walk_wocGet | intros; walk]. Qed.

Lemma walk_getTx txid : preserves P (getTx provider txid).
Proof. apply walk_wocGet. Qed.

Lemma walk_pace : preserves P pace.
Proof. unfold pace, sleep. walk. Qed.

Lemma walk_getNft num : preserves P (getNft num).
Proof. unfold getNft. walk. Qed.

Lemma walk_modifyNft num f : preserves P (modifyNft num f).
Proof. apply P_withLedger. Qed.

Lemma walk_setOwners f : preserves P (setOwners f).
Proof. apply P_withLedger. Qed.

Lemma walk_traceLoop fuel : forall txid vout o ts hops,
  preserves P (traceLoop provider fuel txid vout o ts hops).
Proof.
  induction fuel as [|fuel IH]; intros txid vout o ts hops; [apply preserves_ret|].
  rewrite traceLoop_S. cbv zeta.
  repeat first [ apply walk_getSpender | apply walk_getTx | apply walk_pace | apply IH
               | apply preserves_ret | apply preserves_liftRes
               | apply preserves_bind; [| intros ?] | case_match ].
Qed.

Lemma walk_traceForward txid vout o : preserves P (traceForward provider txid vout o).
Proof. apply walk_traceLoop. Qed.

Lemma walk_resolveLastVout num : preserves P (resolveLastVout provider num).
Proof.
  unfold resolveLastVout.
  repeat first [ apply walk_getNft | apply walk_getTx | apply walk_pace
               | apply walk_modifyNft
               | apply preserves_ret | apply preserves_liftRes
               | apply preserves_bind; [| intros ?] | case_match ].
Qed.

Lemma walk_processNFT num : preserves P (processNFT provider num).
Proof.
  unfold processNFT, removeFromOwnerIndex, addToOwnerIndex, log.
  repeat first [ apply walk_getNft | apply walk_getTx | apply walk_getSpender
               | apply walk_pace | apply walk_modifyNft | apply walk_setOwners
               | apply walk_resolveLastVout | apply walk_traceForward
               | apply P_emit; reflexivity
               | apply (proj1 (preserves_read P))
               | apply preserves_ret | apply preserves_throw | apply preserves_liftRes
               | apply preserves_bind; [| intros ?] | case_match ].
Qed.

End Walk.


(** ** The first request of a call *)

Lemma from_bind {A B} (P : World -> Prop) (m : M A) (k : A -> M B) w :
  P (m w).2 -> (forall a, preserves P (k a)) -> P (bind m k w).2.
Proof.
  unfold bind. destruct (m w) as [[a|e] w1]; cbn [snd]; intros H Hk; [by apply Hk | done].
Qed.

Lemma from_tryCatch {A} (P : World -> Prop) (m : M A) (h : Error -> M A) w :
  P (m w).2 -> (forall e, preserves P (h e)) -> P (tryCatch m h w).2.
Proof.
  unfold tryCatch. destruct (m w) as [[a|e] w1]; cbn [snd]; intros H Hk; [done | by apply Hk].
Qed.

Section FirstRequest.

Variable provider : nat -> Endpoint -> Reply.
Variable w0 : World.
Variable ep : Endpoint.

Lemma beginsWith_emit e : preserves (beginsWith w0 ep) (emit e).
Proof.
  intros w [evs H]. exists (evs ++ [e]). cbn [emit snd events]. rewrite H.
  by rewrite <- app_assoc.
Qed.

Lemma beginsWith_withLedger f : preserves (beginsWith w0 ep) (withLedger f).
Proof. by intros w H. Qed.

Lemma beginsWith_fetch ep' : preserves (beginsWith w0 ep) (fetch provider ep').
Proof.
  intros w [evs H]. exists (evs ++ [EvRequest ep']). cbn [fetch snd events]. rewrite H.
  by rewrite <- app_assoc.
Qed.

Lemma beginsWith_setDelay d : preserves (beginsWith w0 ep) (setDelay d).
Proof. by intros w H. Qed.

Lemma beginsWith_onSuccess : preserves (beginsWith w0 ep) onSuccess.
Proof.
  unfold onSuccess. apply preserves_bind; [apply (proj2 (preserves_read _))|].
  intros d. case_match; [apply beginsWith_setDelay | apply preserves_ret].
Qed.

Lemma beginsWith_onThrottle : preserves (beginsWith w0 ep) onThrottle.
Proof.
  unfold onThrottle, log.
  repeat first [ apply (proj2 (preserves_read _)) | apply beginsWith_setDelay
               | apply beginsWith_emit | apply preserves_bind; [| intros ?] ].
Qed.

Lemma getSpender_beginsWith txid vout :
  ep = EpSpent txid vout -> beginsWith w0 ep (getSpender provider txid vout w0).2.
Proof.
  intros Hep. unfold getSpender.
  apply from_bind; [|intros [b|]; cbv beta iota; [case_match|]; apply preserves_ret].
  unfold wocGet, MAX_RETRIES. rewrite wocGetLoop_S.
  apply from_tryCatch.
  - unfold request. apply from_bind; [exists []; rewrite Hep; reflexivity|].
    intros r.
    repeat first [ apply beginsWith_onSuccess | apply beginsWith_onThrottle
                 | apply preserves_ret | apply preserves_throw
                 | apply preserves_bind; [| intros ?] | case_match ].
  - intros e. apply preserves_bind; [apply beginsWith_emit|]. intros _.
    apply walk_wocGetLoop;
      auto using beginsWith_withLedger, beginsWith_fetch, beginsWith_onSuccess,
                 beginsWith_onThrottle.
    intros e' _. apply beginsWith_emit.
Qed.

End FirstRequest.

(** A call for an asset with a stored position first asks the provider
    for the spender of that position. *)
Lemma processNFT_first_request provider num x txid vout w :
  trackedAt w num x txid vout ->
  exists evs,
    events (processNFT provider num w).2 = events w ++ EvRequest (EpSpent txid vout) :: evs.
Proof.
  intros (Hx & Hl & Ht & Hb & Hv).
  change (beginsWith w (EpSpent txid vout) (processNFT provider num w).2).
  set (P := beginsWith w (EpSpent txid vout)).
  assert (forall e, isRequest e = false -> preserves P (emit e)) as Hemit
    by (intros e _; apply beginsWith_emit).
  pose proof (beginsWith_withLedger w (EpSpent txid vout)) as HwL.
  pose proof (beginsWith_fetch provider w (EpSpent txid vout)) as Hfetch.
  pose proof (beginsWith_onSuccess w (EpSpent txid vout)) as HonS.
  pose proof (beginsWith_onThrottle w (EpSpent txid vout)) as HonT.
  fold P in HwL, Hfetch, HonS, HonT.
  unfold processNFT; unfold bind at 1; rewrite getNft_run, Hx, Ht, Hb; cbn [negb];
    unfold bind at 1; unfold resolveLastVout at 1; unfold bind at 1;
    rewrite getNft_run, Hx, Hv; unfold ret at 1;
    unfold bind at 1; rewrite getNft_run, Hx.
  rewrite Hl. cbn [default from_option id].
  apply from_bind; [by apply getSpender_beginsWith|].
  intros s. unfold removeFromOwnerIndex, addToOwnerIndex, log.
  repeat first [ apply (walk_getNft P HwL) | apply (walk_getTx provider P Hemit Hfetch HonS HonT)
               | apply (walk_pace P Hemit)
               | apply (walk_modifyNft P HwL) | apply (walk_setOwners P HwL)
               | apply (walk_traceForward provider P Hemit Hfetch HonS HonT)
               | apply Hemit; reflexivity
               | apply (proj1 (preserves_read P))
               | apply preserves_ret | apply preserves_throw | apply preserves_liftRes
               | apply preserves_bind; [| intros ?] | case_match ].
Qed.
(** ** The escrow scenario *)

(** The escrow scenario for an asset whose output index is stored. *)
Lemma escrow_passthrough_tracked (provider : nat -> Endpoint -> Reply) (w : World)
    (num : Z) (x : Nft) (P : string) (v : Z)
    (T1 : string) (tx1 : Body) (j1 : Jig)
    (T2 : string) (tx2 : Body) (j2 : Jig) (B : string) :
  trackedAt w num x P v ->
  spentBy provider P v T1 -> hasTx provider T1 tx1 ->
  findJigVout tx1 = Ok (Some j1) -> isOrderLock j1 = true ->
  spentBy provider T1 (j_vout j1) T2 -> hasTx provider T2 tx2 ->
  findJigVout tx2 = Ok (Some j2) -> isOrderLock j2 = false -> j_addr j2 = Some B ->
  owner x <> Some B ->
  unspent provider T2 (j_vout j2) ->
  exists w',
    processNFT provider num w
      = (committed (commitIndex (owner x) (Some B) num (owners (ledger w))).1, w') /\
    nfts (ledger w') !! num =
      Some {| owner := Some B; lastTx := Some T2; lastVout := Some (j_vout j2);
              transfers := transfers x ++ [sendEvent T2 (owner x) (Some B) tx2];
              burned := false; burnTx := burnTx x |} /\
    owners (ledger w') = (commitIndex (owner x) (Some B) num (owners (ledger w))).2.
Proof.
  intros Htr Hs1 Ht1 Hj1 Hl1 Hs2 Ht2 Hj2 Hl2 Ha2 Hne Hu.
  pose proof Htr as (Hx & _ & _ & Hb & _).
  assert (movesTo j1 (owner x) = false) as Hm1 by (unfold movesTo; by rewrite Hl1).
  assert (movesTo j2 (owner x) = true) as Hm2.
  { unfold movesTo. rewrite Hl2.
    destruct (findJigVout_Some _ _ Hj2) as [[? _]|[_ ->]]; [congruence|].
    rewrite Ha2. cbn [negb andb]. by rewrite bool_decide_eq_false_2. }
  destruct (processNFT_traced provider num x P v w T1 tx1 j1 Htr Hs1 Ht1 Hj1)
    as (w5 & E5 & Hcommit).
  rewrite Hm1 in Hcommit.
  destruct (traceLoop_hop provider 99 T1 (j_vout j1) (owner x) [] 0 w5 T2 tx2 j2 Hs2 Ht2 Hj2)
    as (w6 & E6 & Hhop).
  rewrite Hm2, Ha2 in Hhop.
  destruct (traceLoop_tip provider 98 T2 (j_vout j2) (Some B)
              ([] ++ [sendEvent T2 (owner x) (Some B) tx2]) (0 + 1) w6 Hu)
    as (w7 & Htip & E7).
  edestruct (Hcommit) as (w' & Hrun & Hled & _).
  { unfold traceForward, HOP_CEILING. rewrite Hhop. exact Htip. }
  cbn [r_owner r_lastTx r_lastVout r_newTransfers] in Hrun, Hled.
  exists w'. split; [exact Hrun|]. rewrite Hled. cbn [nfts owners]. split; [|done].
  rewrite lookup_insert_eq. unfold movedRecord. by rewrite Hb.
Qed.

(** * The claims *)




(** C2, on the code.  The asset sits at [P:0] with owner [A]; [P:0] is
    spent by [T1], a transfer to [B]; output 0 of [T1] is spent by [T2],
    in which the classifier finds no jig.  The run ends with the asset
    not burned: owner [B], cursor on [T1:0], one send event, no burn
    event, no burn transaction, result [Changed].  The destruction is only
    recorded by the next run, which meets it at its first hop. *)
Theorem C2_destruction_after_first_hop :
  let w := Scenario.world7 (Some 0) in
  let w1 := (refresh Scenario.lateBurnChain w).2 in
  let w2 := (refresh Scenario.lateBurnChain w1).2 in
  findJigVout (Scenario.txBody "T2" [Scenario.payOut 0 "X"] 801) = Ok None /\
  (stopReason Scenario.lateBurnChain "T1" 0 w).1 = Ok NoJig /\
  (processNFT Scenario.lateBurnChain 7 w).1 = Ok Changed /\
  nfts (ledger w1) !! 7 =
    Some {| owner := Some "B"%string; lastTx := Some "T1"%string; lastVout := Some 0;
            transfers := [sendEvent "T1" (Some "A"%string) (Some "B"%string)
                            (Scenario.txBody "T1" [Scenario.dustOut 0 "B"] 800)];
            burned := false; burnTx := None |} /\
  nfts (ledger w2) !! 7 =
    Some {| owner := Some "B"%string; lastTx := Some "T1"%string; lastVout := Some 0;
            transfers := [sendEvent "T1" (Some "A"%string) (Some "B"%string)
                            (Scenario.txBody "T1" [Scenario.dustOut 0 "B"] 800);
                          burnEvent "T2" (Some "B"%string)
                            (Scenario.txBody "T2" [Scenario.payOut 0 "X"] 801)];
            burned := true; burnTx := Some "T2"%string |}.
Proof. cbv zeta. split_and!; vm_compute; reflexivity. Qed.

(** C3, on the code.  The asset sits at [P:0]; [P:0] is spent by [T1], a
    transfer to [B]; the provider reports output 0 of [T1] spent by [T2]
    but answers 404 for [T2] itself.  [traceForward] returns the position
    [T1:0] without an error, [processNFT] returns [Changed], and the run
    lists no failure.  Met at the first hop, by the next run, the same
    answer makes [processNFT] throw. *)
Theorem C3_missing_transaction_after_first_hop :
  let w := Scenario.world7 (Some 0) in
  let w1 := (refresh Scenario.missingTxChain w).2 in
  (getSpender Scenario.missingTxChain "T1" 0 w).1 = Ok (Some "T2"%string) /\
  (getTx Scenario.missingTxChain "T2" w).1 = Ok None /\
  (traceForward Scenario.missingTxChain "T1" 0 (Some "B"%string) w).1 =
    Ok {| r_owner := Some "B"%string; r_lastTx := "T1"; r_lastVout := 0;
          r_newTransfers := []; r_hops := 1 |} /\
  (processNFT Scenario.missingTxChain 7 w).1 = Ok Changed /\
  (refresh Scenario.missingTxChain w).1 =
    Ok {| checked := 1; changed := 1; burnedRun := 0; errors := 0; failedNFTs := [] |} /\
  logged (events w1) =
    [LogStart 1; LogMoved 7 2 (Some "B"%string); LogMainDone 1 1 0; LogSummary 1 1 0 0 0 1] /\
  (processNFT Scenario.missingTxChain 7 w1).1 = Throw CouldNotFetchSpendingTx.
Proof. cbv zeta. split_and!; vm_compute; reflexivity. Qed.

(** C4, as the code has it.  Run the script twice against a chain that
    answers the same each time.  If the first run left every record
    settled, that is without [lastTx], burned, or at a stored position
    that the chain reports unspent, then the second run returns with
    records and index exactly as the first run left them (only the
    timestamp is stamped anew), counts no change, no burn and no failure,
    and every call of [processNFT] on such a ledger returns [Unchanged],
    or [Skip] for a record without [lastTx].  A first run that stopped a
    trace before the tip, or in which an asset failed, does not leave the
    ledger settled and is not covered. *)
Theorem C4_second_run_on_settled_ledger (chain : Endpoint -> Reply) (w : World) :
  let w1 := (refresh (steady chain) w).2 in
  settledb chain (ledger w1) = true ->
  (exists c w2, refresh (steady chain) w1 = (Ok c, w2) /\
     nfts (ledger w2) = nfts (ledger w1) /\ owners (ledger w2) = owners (ledger w1) /\
     changed c = 0 /\ burnedRun c = 0 /\ errors c = 0 /\ failedNFTs c = []) /\
  (forall num x w0,
     ledger w0 = ledger w1 -> nfts (ledger w1) !! num = Some x ->
     exists s w', processNFT (steady chain) num w0 = (Ok s, w') /\
       (s = Unchanged \/ s = Skip) /\ ledger w' = ledger w0).
Proof.
  intros w1 Hs. split.
  - destruct (refresh_settled chain w1 Hs) as (c & w2 & E & Hn & Ho & Hc & Hb & He & Hf).
    exists c, w2. by split_and!.
  - intros num x w0 Hl Hx. apply (processNFT_settled chain num x w0); by rewrite Hl.
Qed.

Lemma C4_second_run_on_settled_ledger_witness :
  let chain := Scenario.escrowChain 0 in
  let w1 := (refresh (steady chain) (Scenario.world7 (Some 0))).2 in
  settledb chain (ledger w1) = true /\
  owner <$> nfts (ledger w1) !! 7 = Some (Some "B"%string) /\
  exists c w2, refresh (steady chain) w1 = (Ok c, w2) /\
     nfts (ledger w2) = nfts (ledger w1) /\ owners (ledger w2) = owners (ledger w1) /\
     changed c = 0 /\ burnedRun c = 0 /\ errors c = 0 /\ failedNFTs c = [].
Proof.
  assert (settledb (Scenario.escrowChain 0)
            (ledger (refresh (steady (Scenario.escrowChain 0)) (Scenario.world7 (Some 0))).2)
          = true) as H by (vm_compute; reflexivity).
  split; [exact H|]. split; [vm_compute; reflexivity|].
  exact (proj1 (C4_second_run_on_settled_ledger (Scenario.escrowChain 0)
                  (Scenario.world7 (Some 0)) H)).
Defined.

(** C4, as stated, fails.  Against the endless chain, which answers the
    same at every request, the first run stops at the hop ceiling; the
    second run takes up the trace where the first stopped, resolves the
    asset to [Changed] and moves the cursor on. *)
Lemma C4_counterexample :
  let chain := Scenario.longChain 0 in
  let w1 := (refresh (steady chain) Scenario.worldAtO).2 in
  let w2 := (refresh (steady chain) w1).2 in
  (processNFT (steady chain) 7 w1).1 = Ok Changed /\
  lastTx <$> nfts (ledger w1) !! 7 = Some (Some ("P" ++ Scenario.letters 100)%string) /\
  lastTx <$> nfts (ledger w2) !! 7 = Some (Some ("P" ++ Scenario.letters 201)%string) /\
  nfts (ledger w2) <> nfts (ledger w1) /\
  ~ refreshIdempotent.
Proof.
  cbv zeta.
  assert (lastTx <$> nfts (ledger (refresh (steady (Scenario.longChain 0))
                                     Scenario.worldAtO).2) !! 7
          = Some (Some ("P" ++ Scenario.letters 100)%string)) as H1
    by (vm_compute; reflexivity).
  assert (lastTx <$> nfts (ledger (refresh (steady (Scenario.longChain 0))
                                     (refresh (steady (Scenario.longChain 0))
                                        Scenario.worldAtO).2).2) !! 7
          = Some (Some ("P" ++ Scenario.letters 201)%string)) as H2
    by (vm_compute; reflexivity).
  assert (nfts (ledger (refresh (steady (Scenario.longChain 0))
                          (refresh (steady (Scenario.longChain 0)) Scenario.worldAtO).2).2)
          <> nfts (ledger (refresh (steady (Scenario.longChain 0)) Scenario.worldAtO).2))
    as H3.
  { intros E. rewrite E, H1 in H2. vm_compute in H2. discriminate H2. }
  split_and!; [by vm_compute | exact H1 | exact H2 | exact H3 |].
  intros Hid.
  destruct (Hid (Scenario.longChain 0) Scenario.worldAtO) as (c & w2 & E & Hn & _).
  apply H3. rewrite E. exact Hn.
Qed.

(** C5 (escrow passthrough).  Asset [num] sits at output [v] of [P] with
    owner [owner x] (the output index stored, or resolved by the call);
    that output is spent by [T1], which the classifier reads as an order
    lock; the lock output is spent by [T2], which the classifier reads as
    a dust output to [B], an address other than the owner; that output is
    unspent.  Then the call leaves a record that has gained exactly one
    event, a send from the old owner to [B] in [T2]; its owner is [B] and
    its cursor the output of [T2].  The result and the index are those of
    the two index calls of lines 283-286: when neither the old owner nor
    [B] is the name of a member of [Object.prototype], the call returns
    [Changed] and the index has moved the asset from the old owner to
    [B]. *)
Theorem C5_escrow_passthrough (provider : nat -> Endpoint -> Reply) (w : World)
    (num : Z) (x : Nft) (P : string) (v : Z)
    (T1 : string) (tx1 : Body) (j1 : Jig)
    (T2 : string) (tx2 : Body) (j2 : Jig) (B : string) :
  locatedAt provider w num x P v ->
  spentBy provider P v T1 -> hasTx provider T1 tx1 ->
  findJigVout tx1 = Ok (Some j1) -> isOrderLock j1 = true ->
  spentBy provider T1 (j_vout j1) T2 -> hasTx provider T2 tx2 ->
  findJigVout tx2 = Ok (Some j2) -> isOrderLock j2 = false -> j_addr j2 = Some B ->
  owner x <> Some B ->
  unspent provider T2 (j_vout j2) ->
  exists r w',
    processNFT provider num w = (r, w') /\
    nfts (ledger w') !! num =
      Some {| owner := Some B; lastTx := Some T2; lastVout := Some (j_vout j2);
              transfers := transfers x ++ [sendEvent T2 (owner x) (Some B) tx2];
              burned := false; burnTx := burnTx x |} /\
    r = committed (commitIndex (owner x) (Some B) num (owners (ledger w))).1 /\
    owners (ledger w') = (commitIndex (owner x) (Some B) num (owners (ledger w))).2 /\
    (inherited (propertyKey (owner x)) = false -> inherited B = false ->
     r = Ok Changed /\
     owners (ledger w') =
       listed (Some B) num (unlisted (owner x) num (owners (ledger w)))).
Proof.
  intros Hloc Hs1 Ht1 Hj1 Hl1 Hs2 Ht2 Hj2 Hl2 Ha2 Hne Hu.
  destruct (processNFT_resolve provider num x P v w Hloc)
    as (w1 & Htr & _ & Ho & _ & Hrun).
  destruct (escrow_passthrough_tracked provider w1 num (setLastVout v x) P v
              T1 tx1 j1 T2 tx2 j2 B Htr Hs1 Ht1 Hj1 Hl1 Hs2 Ht2 Hj2 Hl2 Ha2 Hne Hu)
    as (w' & Hrun' & Hrec & Hidx).
  rewrite Ho in Hrun', Hidx. cbn [setLastVout owner] in Hrun', Hidx.
  eexists _, w'. split; [by rewrite Hrun|]. split; [exact Hrec|].
  split; [reflexivity|]. split; [exact Hidx|].
  intros Hk HB. rewrite Hidx.
  rewrite (commitIndex_clean (owner x) (Some B) num (owners (ledger w)) Hk HB).
  cbn [fst snd committed]. split; [reflexivity|].
  unfold movedIndex. by rewrite bool_decide_eq_false_2.
Qed.

Lemma C5_escrow_passthrough_witness :
  exists w',
    processNFT Scenario.escrowChain 7 (Scenario.world7 (Some 0)) = (Ok Changed, w') /\
    nfts (ledger w') !! 7 =
      Some {| owner := Some "B"%string; lastTx := Some "T2"%string; lastVout := Some 0;
              transfers :=
                [{| t_txid := "T2"; t_type := "send"; t_from := Some "A"%string;
                    t_to := Some "B"%string; t_blockHeight := Some 801 |}];
              burned := false; burnTx := None |} /\
    owners (ledger w') =
      listed (Some "B"%string) 7
        (unlisted (Some "A"%string) 7 (owners (ledger (Scenario.world7 (Some 0))))).
Proof.
  destruct (C5_escrow_passthrough Scenario.escrowChain (Scenario.world7 (Some 0)) 7
           (Scenario.nftAt "A" "P" (Some 0)) "P" 0
           "T1" (Scenario.txBody "T1" [Scenario.payOut 0 "X"; Scenario.lockOut 1] 800)
           {| j_vout := 1; j_addr := None; isOrderLock := true |}
           "T2" (Scenario.txBody "T2" [Scenario.dustOut 0 "B"; Scenario.payOut 1 "A"] 801)
           {| j_vout := 0; j_addr := Some "B"%string; isOrderLock := false |} "B")
    as (r & w' & Hrun & Hrec & _ & _ & Hclean).
  - split_and!; [reflexivity.. | left; reflexivity].
  - eexists. split; [intros k; reflexivity|]. split; reflexivity.
  - intros k; reflexivity.
  - reflexivity.
  - reflexivity.
  - eexists. split; [intros k; reflexivity|]. split; reflexivity.
  - intros k; reflexivity.
  - reflexivity.
  - reflexivity.
  - reflexivity.
  - discriminate.
  - exists None. split; [intros k; reflexivity | exact Logic.I].
  - destruct Hclean as [Hr Hidx]; [reflexivity | reflexivity |].
    exists w'. split; [rewrite Hrun, Hr; reflexivity|]. split; [exact Hrec | exact Hidx].
Defined.

(** C6, as the code has it.  A 429 reply doubles the adaptive delay (capped
    at [MAX_DELAY_MS]) and logs it; while attempts remain the request is
    retried after a backoff of [BASE_BACKOFF_MS * 2 ^ attempt], with the
    attempt counter advanced, and on the last attempt the rate-limit error
    is thrown.  Throttled and hard failures share one budget: a request
    delivers a success that comes after at most [MAX_RETRIES] failed
    replies of any kind, it throws after [MAX_RETRIES + 1] of them, and
    [MAX_RETRIES + 1] throttled replies in a row throw the rate-limit
    error. *)
Theorem C6_throttling_shares_budget (provider : nat -> Endpoint -> Reply)
    (ep : Endpoint) (w : World) (body : option Body) :
  provider (clock w) ep = Http 429 body ->
  let d := Z.min MAX_DELAY_MS (callDelayMs w * 2) in
  let throttledWorld (tail : list Event) :=
    {| ledger := ledger w; disk := disk w; callDelayMs := d; clock := S (clock w);
       events := ((events w ++ [EvRequest ep]) ++ [EvLog (LogThrottle d)]) ++ tail |} in
  (forall left attempt,
      wocGetLoop provider (S left) attempt ep w =
      wocGetLoop provider left (S attempt) ep
        (throttledWorld [EvSleep (BASE_BACKOFF_MS * 2 ^ Z.of_nat attempt)])) /\
  (forall attempt,
      wocGetLoop provider O attempt ep w = (Throw RateLimited, throttledWorld [])) /\
  (forall n v,
      (n <= MAX_RETRIES)%nat ->
      (forall i, (i < n)%nat -> replyValue (provider (clock w + i)%nat ep) = None) ->
      replyValue (provider (clock w + n)%nat ep) = Some v ->
      (wocGet provider ep w).1 = Ok v) /\
  ((forall i, (i <= MAX_RETRIES)%nat -> replyValue (provider (clock w + i)%nat ep) = None) ->
   exists e, (wocGet provider ep w).1 = Throw e) /\
  ((forall i, (i <= MAX_RETRIES)%nat -> isThrottle (provider (clock w + i)%nat ep) = true) ->
   (wocGet provider ep w).1 = Throw RateLimited).
Proof.
  intros Hb d throttledWorld. split_and!.
  - intros left attempt. rewrite wocGetLoop_S. unfold tryCatch.
    rewrite (request_throttled _ _ _ _ Hb). reflexivity.
  - intros attempt. rewrite wocGetLoop_O. unfold tryCatch.
    rewrite (request_throttled _ _ _ _ Hb). unfold throw, throttledWorld.
    by rewrite app_nil_r.
  - intros n v Hn Hfail Hok. unfold wocGet.
    destruct (wocGetLoop_ok provider ep v n MAX_RETRIES O w Hn Hfail Hok) as (w' & -> & _).
    done.
  - intros Hfail. unfold wocGet.
    destruct (wocGetLoop_exhausted provider ep MAX_RETRIES O w Hfail) as (e & w' & ->).
    by exists e.
  - intros Hall. by apply wocGetLoop_throttled.
Qed.

Lemma C6_throttling_shares_budget_witness :
  let w := Scenario.world7 (Some 0) in
  let ep := EpSpent "P" 0 in
  Scenario.throttled (clock w) ep = Http 429 None /\
  wocGetLoop Scenario.throttled O 3 ep w =
    (Throw RateLimited,
     {| ledger := ledger w; disk := disk w; callDelayMs := 600; clock := 1%nat;
        events := [EvRequest ep; EvLog (LogThrottle 600)] |}).
Proof.
  split; [reflexivity|].
  exact (proj1 (proj2 (C6_throttling_shares_budget Scenario.throttled (EpSpent "P" 0)
                         (Scenario.world7 (Some 0)) None eq_refl)) 3%nat).
Defined.

(** C6, as stated, fails: four rate-limit replies exhaust the attempts of a
    request although none of them is a hard failure, and the success that
    the provider would give next is never asked for. *)
Lemma C6_counterexample :
  let w := Scenario.world7 (Some 0) in
  let ep := EpSpent "P" 0 in
  hardFailures Scenario.throttled ep (clock w) 4 = 0%nat /\
  replyValue (Scenario.throttled 4 ep) <> None /\
  (wocGet Scenario.throttled ep w).1 = Throw RateLimited /\
  ~ throttlingOutsideBudget.
Proof.
  split_and!; [reflexivity | done | by vm_compute |].
  intros H.
  specialize (H Scenario.throttled (EpSpent "P" 0) (Scenario.world7 (Some 0)) 4%nat
                (Some {| b_txid := Some "T1"%string; b_vout := None; b_blockheight := None |})).
  assert ((wocGet Scenario.throttled (EpSpent "P" 0) (Scenario.world7 (Some 0))).1
          = Throw RateLimited) as E by (by vm_compute).
  rewrite E in H. discriminate H.
  - intros i Hi. do 4 (destruct i as [|i]; [reflexivity|]). lia.
  - reflexivity.
  - vm_compute. lia.
Qed.




(** C8, as the code has it.  When the loop of [traceForward] ends because
    a hundred hops were taken, the call returns normally, the same kind of
    value as for every other exit: [hops = 100], and cursor, owner and
    transfers are those of the position that a hundred passes of the loop
    body lead to.  [processNFT] commits whatever a trace returns in one
    way: the record takes the returned owner and cursor, and, for
    addresses that are not names of members of [Object.prototype], the
    result is [Changed] and the only message is the usual line with the
    number of hops.  A later call for the asset starts from the stored
    cursor: its first request asks for the spender of that output. *)
Theorem C8_ceiling_returns_like_any_stop (provider : nat -> Endpoint -> Reply)
    (txid : string) (vout : Z) (o : option string) (w : World) :
  (stopReason provider txid vout w).1 = Ok Ceiling ->
  (exists q,
      reach provider 100 {| p_txid := txid; p_vout := vout; p_owner := o;
                            p_transfers := [] |} w
        = (Ok (Some q), (stopReason provider txid vout w).2) /\
      traceForward provider txid vout o w =
        (Ok {| r_owner := p_owner q; r_lastTx := p_txid q; r_lastVout := p_vout q;
               r_newTransfers := p_transfers q; r_hops := 100 |},
         (stopReason provider txid vout w).2)) /\
  (forall num x ptx pvout w0 tx j,
      trackedAt w0 num x ptx pvout -> spentBy provider ptx pvout txid ->
      hasTx provider txid tx -> findJigVout tx = Ok (Some j) ->
      let cur := if movesTo j (owner x) then j_addr j else owner x in
      let first := if movesTo j (owner x)
                   then [sendEvent txid (owner x) (j_addr j) tx] else [] in
      exists w5, ledger w5 = ledger w0 /\
        forall res w6,
          traceForward provider txid (j_vout j) cur w5 = (Ok res, w6) ->
          exists r w',
            processNFT provider num w0 = (r, w') /\
            trackedAt w' num
              (movedRecord x (first ++ r_newTransfers res) (r_owner res)
                 (r_lastTx res) (r_lastVout res))
              (r_lastTx res) (r_lastVout res) /\
            (inherited (propertyKey (owner x)) = false ->
             inherited (propertyKey (r_owner res)) = false ->
             r = Ok Changed /\
             events w' = events w6 ++
               [EvLog (LogMoved num
                         (Z.of_nat (length (first ++ r_newTransfers res)) + r_hops res)
                         (r_owner res))])) /\
  (forall num x ltx lv w1,
      trackedAt w1 num x ltx lv ->
      exists evs,
        events (processNFT provider num w1).2
          = events w1 ++ EvRequest (EpSpent ltx lv) :: evs).
Proof.
  intros Hstop. split_and!.
  - destruct (stopReason provider txid vout w) as [s w'] eqn:E. cbn [fst snd] in *.
    subst s. unfold stopReason in E.
    destruct (stopReasonLoop_reach provider HOP_CEILING
                {| p_txid := txid; p_vout := vout; p_owner := o; p_transfers := [] |}
                0 w w' E) as (q & h & Hq & Ht & Hh).
    exists q. split; [exact Hq|]. unfold traceForward.
    cbn [p_txid p_vout p_owner p_transfers] in Ht. rewrite Ht. by subst h.
  - intros num x ptx pvout w0 tx j Htr Hs Ht Hj cur first.
    destruct (processNFT_traced provider num x ptx pvout w0 txid tx j Htr Hs Ht Hj)
      as (w5 & E5 & Hcommit).
    exists w5. split; [exact E5|]. intros res w6 E6.
    destruct (Hcommit res w6 E6) as (w' & Hrun & Hled & Hev).
    eexists _, w'. split; [exact Hrun|]. split.
    + destruct Htr as (_ & _ & _ & Hb & _).
      destruct Hs as (b & _ & _ & Htruthy).
      destruct (traceForward_result provider _ _ _ _ _ _ E6) as (_ & _ & Hl & _).
      unfold trackedAt. rewrite Hled. cbn [nfts]. rewrite lookup_insert_eq.
      cbn [movedRecord lastTx lastVout burned]. split_and!; try done. by apply Hl.
    + intros Hk Hk'. fold cur first in Hev.
      rewrite (commitIndex_clean _ _ num (owners (ledger w0)) Hk Hk') in Hev |- *.
      cbn [fst committed] in Hev |- *. done.
  - intros num x ltx lv w1. apply processNFT_first_request.
Qed.

Lemma C8_ceiling_returns_like_any_stop_witness :
  (stopReason Scenario.longChain "P" 0 Scenario.worldAtO).1 = Ok Ceiling /\
  exists q,
    reach Scenario.longChain 100
      {| p_txid := "P"; p_vout := 0; p_owner := Some "A"%string; p_transfers := [] |}
      Scenario.worldAtO
      = (Ok (Some q), (stopReason Scenario.longChain "P" 0 Scenario.worldAtO).2) /\
    traceForward Scenario.longChain "P" 0 (Some "A"%string) Scenario.worldAtO
      = (Ok {| r_owner := p_owner q; r_lastTx := p_txid q; r_lastVout := p_vout q;
               r_newTransfers := p_transfers q; r_hops := 100 |},
         (stopReason Scenario.longChain "P" 0 Scenario.worldAtO).2).
Proof.
  assert ((stopReason Scenario.longChain "P" 0 Scenario.worldAtO).1 = Ok Ceiling) as H
    by (vm_compute; reflexivity).
  split; [exact H|].
  exact (proj1 (C8_ceiling_returns_like_any_stop Scenario.longChain "P" 0
                  (Some "A"%string) Scenario.worldAtO H)).
Defined.

(** C8, as stated, fails.  From [P:0] the endless chain stops
    [traceForward] at the ceiling, while in the cut chain the loop breaks
    at its hundredth hop on a transaction without a jig; the two calls
    return the same value.  No function of the returned value can tell
    the ceiling from another exit, [processNFT] gives the same result and
    the same ledger, and the two runs of the script log the same lines,
    none of them a warning. *)
Lemma C8_counterexample :
  let w := Scenario.worldAtO in
  (stopReason Scenario.longChain "P" 0 w).1 = Ok Ceiling /\
  (stopReason Scenario.cutChain "P" 0 w).1 = Ok NoJig /\
  (traceForward Scenario.longChain "P" 0 (Some "A"%string) w).1 = Ok Scenario.afterHundred /\
  (traceForward Scenario.cutChain "P" 0 (Some "A"%string) w).1 = Ok Scenario.afterHundred /\
  (processNFT Scenario.longChain 7 w).1 = Ok Changed /\
  (processNFT Scenario.cutChain 7 w).1 = Ok Changed /\
  ledger (processNFT Scenario.longChain 7 w).2 = ledger (processNFT Scenario.cutChain 7 w).2 /\
  logged (events (refresh Scenario.longChain w).2)
    = [LogStart 1; LogMoved 7 100 (Some "A"%string); LogMainDone 1 1 0;
       LogSummary 1 1 0 0 0 1] /\
  logged (events (refresh Scenario.cutChain w).2)
    = logged (events (refresh Scenario.longChain w).2) /\
  ~ ceilingReported.
Proof.
  assert ((stopReason Scenario.longChain "P" 0 Scenario.worldAtO).1 = Ok Ceiling) as H1
    by (vm_compute; reflexivity).
  assert ((stopReason Scenario.cutChain "P" 0 Scenario.worldAtO).1 = Ok NoJig) as H2
    by (vm_compute; reflexivity).
  assert ((traceForward Scenario.longChain "P" 0 (Some "A"%string) Scenario.worldAtO).1
          = Ok Scenario.afterHundred) as H3 by (vm_compute; reflexivity).
  assert ((traceForward Scenario.cutChain "P" 0 (Some "A"%string) Scenario.worldAtO).1
          = Ok Scenario.afterHundred) as H4 by (vm_compute; reflexivity).
  cbv zeta. split_and!; [done | done | done | done | by vm_compute | by vm_compute
                        | by vm_compute | by vm_compute | by vm_compute |].
  intros [report Hrep].
  pose proof (proj2 (Hrep _ _ _ _ _ _ H3) H1) as Htrue.
  pose proof (proj1 (Hrep _ _ _ _ _ _ H4) Htrue) as Hbad.
  rewrite H2 in Hbad. discriminate Hbad.
Qed.

(** C9 (burn finality).  For an asset whose record has [burned = true],
    [processNFT] returns at once: no request, no event, no mutation, the
    world is untouched.  No run of the script, nor any number of
    consecutive runs, changes its record; in particular its owner,
    transfers and burned flag stay as they are. *)
Theorem C9_burn_finality (provider : nat -> Endpoint -> Reply)
    (w : World) (num : Z) (x : Nft) :
  nfts (ledger w) !! num = Some x -> burned x = true ->
  (exists s, processNFT provider num w = (Ok s, w) /\ (s = Unchanged \/ s = Skip)) /\
  forall n, nfts (ledger (passes provider n w)) !! num = Some x.
Proof.
  intros Hx Hb. split.
  - unfold processNFT. unfold bind at 1. rewrite getNft_run, Hx.
    destruct (truthy (lastTx x)); cbn [negb]; [rewrite Hb|]; eauto.
  - set (I := fun (m : gmap Z Nft) (_ : gmap string (list Z)) => m !! num = Some x).
    assert (stable I) as HI.
    { split; unfold I.
      - intros m idx num' x' v Hm Hx' Hb' _. rewrite lookup_insert_ne; [done|]. congruence.
      - intros m idx num' x' stx tx Hm Hx' Hb'. rewrite lookup_insert_ne; [done|]. congruence.
      - intros m idx num' x' ts o ltx lv Hm Hx' Hb' _ _.
        rewrite lookup_insert_ne; [done|]. congruence. }
    assert (forall m idx idx', I m idx -> I m idx') as Hblind by done.
    intros n. revert w Hx. induction n as [|n IH]; intros w Hx; cbn [passes]; [done|].
    apply IH. by apply (preserves_refresh provider I HI Hblind w).
Qed.

Lemma C9_burn_finality_witness :
  nfts (ledger Scenario.burnedWorld) !! 7 = Some Scenario.burned7 /\
  nfts (ledger (passes Scenario.escrowChain 2 Scenario.burnedWorld)) !! 7
    = Some Scenario.burned7.
Proof.
  split; [reflexivity|].
  apply (C9_burn_finality Scenario.escrowChain Scenario.burnedWorld 7 Scenario.burned7);
    reflexivity.
Defined.

(** C10 (owner-index hygiene).  Starting from an index in which every
    listed array is non-empty and free of repetitions, any sequence of
    [addToOwnerIndex] and [removeFromOwnerIndex] calls ends in such an
    index, so that the unique-owner count, the number of keys, is the
    number of addresses that hold at least one asset. *)
Theorem C10_index_hygiene (cs : list IndexCall) (w : World) :
  hygienic (owners (ledger w)) ->
  hygienic (owners (ledger (runCalls cs w).2)) /\
  size (owners (ledger (runCalls cs w).2)) = holders (owners (ledger (runCalls cs w).2)).
Proof.
  intros Hw.
  assert (hygienic (owners (ledger (runCalls cs w).2))) as H.
  { revert w Hw. induction cs as [|c cs IH]; intros w Hw; cbn [runCalls]; [done|].
    unfold bind.
    destruct c as [addr num|addr num]; cbn [runCall].
    - rewrite addToOwnerIndex_run, addToIndex_spec.
      destruct (throwsOn (owners (ledger w)) addr); [done|].
      apply IH. by apply hygienic_listed.
    - rewrite removeFromOwnerIndex_run, removeFromIndex_spec.
      destruct (throwsOn (owners (ledger w)) addr); [done|].
      apply IH. by apply hygienic_unlisted. }
  split; [done | by apply hygienic_holders].
Qed.

Lemma C10_index_hygiene_witness :
  let w := (runCalls [CallRemove (Some "A"%string) 7; CallAdd (Some "B"%string) 7;
                      CallAdd (Some "B"%string) 7; CallAdd (Some "B"%string) 9;
                      CallRemove None 9; CallRemove (Some "B"%string) 7]
              (Scenario.world7 (Some 0))).2 in
  hygienic (owners (ledger (Scenario.world7 (Some 0)))) /\
  size (owners (ledger w)) = holders (owners (ledger w)).
Proof.
  split; [apply ledger7_hygienic|].
  apply (C10_index_hygiene _ (Scenario.world7 (Some 0))). apply ledger7_hygienic.
Defined.


(** * Further properties of the scripts *)

(** ** The backup wrapper *)

Lemma backups_Permutation files :
  Backup.backups files ≡ₚ filter (fun f => Backup.isBackup f = true) files.
Proof. unfold Backup.backups. by rewrite reverse_Permutation, merge_sort_Permutation. Qed.

Lemma backups_newest_first files :
  StronglySorted (flip String.le) (Backup.backups files).
Proof.
  unfold Backup.backups. apply Sorted_StronglySorted; [apply _|].
  apply Sorted_reverse, Sorted_merge_sort. apply _.
Qed.

Lemma removed_drop files : Backup.removed files = drop Backup.KEEP (Backup.backups files).
Proof.
  unfold Backup.removed. destruct (Backup.KEEP <? length (Backup.backups files))%nat eqn:E;
    [done|].
  apply Nat.ltb_ge in E. by rewrite drop_ge.
Qed.

Lemma filter_none {A} (P : A -> Prop) `{forall x, Decision (P x)} (l : list A) :
  (forall x, x ∈ l -> ~ P x) -> filter P l = [].
Proof.
  induction l as [|x l IH]; intros Hl; [done|].
  rewrite filter_cons. destruct (decide (P x)) as [HP|_].
  - exfalso. by apply (Hl x); [left|].
  - apply IH. intros y Hy. apply Hl. by right.
Qed.

Lemma cleanup_backups files :
  Backup.backups (Backup.cleanup files)
  ≡ₚ filter (fun f => f ∉ Backup.removed files) (take Backup.KEEP (Backup.backups files)).
Proof.
  rewrite backups_Permutation. unfold Backup.cleanup.
  rewrite list_filter_filter.
  rewrite (list_filter_iff _
             (fun f => (f ∉ Backup.removed files) /\ Backup.isBackup f = true))
    by (intros f; tauto).
  rewrite <- (list_filter_filter (fun f => f ∉ Backup.removed files)
                (fun f => Backup.isBackup f = true)).
  rewrite <- backups_Permutation.
  rewrite <- (take_drop Backup.KEEP (Backup.backups files)) at 1.
  rewrite filter_app, <- removed_drop.
  rewrite (filter_none (fun f => f ∉ Backup.removed files) (Backup.removed files))
    by (intros x Hx Hn; by apply Hn).
  by rewrite app_nil_r.
Qed.

(** X1.  After the clean-up at most thirty backups are left; a file that
    is not a backup is never removed; nothing is added; and a directory
    with at most thirty backups is left as it is. *)
Theorem X1_backup_retention (files : list string) :
  (length (Backup.backups (Backup.cleanup files)) <= 30)%nat /\
  (forall f, f ∈ files -> Backup.isBackup f = false -> f ∈ Backup.cleanup files) /\
  (forall f, f ∈ Backup.cleanup files -> f ∈ files) /\
  ((length (Backup.backups files) <= 30)%nat -> Backup.cleanup files = files).
Proof.
  split_and!.
  - rewrite cleanup_backups. etrans; [apply length_filter|].
    rewrite length_take. unfold Backup.KEEP. lia.
  - intros f Hf Hb. unfold Backup.cleanup. apply list_elem_of_filter. split; [|done].
    rewrite removed_drop. intros Hin. apply subseteq_drop in Hin.
    rewrite backups_Permutation in Hin. apply list_elem_of_filter in Hin as [Hb' _].
    congruence.
  - intros f Hf. unfold Backup.cleanup in Hf. by apply list_elem_of_filter in Hf as [_ ?].
  - intros Hlen. unfold Backup.cleanup. rewrite removed_drop, drop_ge by done.
    clear Hlen. induction files as [|f files IH]; [done|].
    rewrite filter_cons. destruct (decide (f ∉ [])) as [_|Hn].
    + by rewrite IH.
    + exfalso. apply Hn. apply not_elem_of_nil.
Qed.

(** X2.  The clean-up removes the oldest backups: every removed file comes
    before every backup that is kept, in the order of the names, which for
    the time-stamped names is the order of creation. *)
Theorem X2_backup_removes_oldest (files : list string) (r k : string) :
  r ∈ Backup.removed files -> k ∈ Backup.cleanup files -> Backup.isBackup k = true ->
  String.le r k.
Proof.
  intros Hr Hk Hb. unfold Backup.cleanup in Hk. apply list_elem_of_filter in Hk as [Hnr Hk].
  rewrite removed_drop in Hr, Hnr.
  assert (k ∈ Backup.backups files) as Hkb.
  { rewrite backups_Permutation. by apply list_elem_of_filter. }
  rewrite <- (take_drop Backup.KEEP (Backup.backups files)) in Hkb.
  apply elem_of_app in Hkb as [Hkt|Hkd]; [|done].
  pose proof (backups_newest_first files) as Hs.
  rewrite <- (take_drop Backup.KEEP (Backup.backups files)) in Hs.
  exact (StronglySorted_app_1_elem_of _ _ _ _ _ Hs Hkt Hr).
Qed.

Lemma X2_backup_removes_oldest_witness :
  "ledger-2026-a.json"%string ∈ Backup.removed Backup.sample /\
  "ledger-2026-aa.json"%string ∈ Backup.cleanup Backup.sample /\
  String.le "ledger-2026-a.json" "ledger-2026-aa.json".
Proof.
  assert ("ledger-2026-a.json"%string ∈ Backup.removed Backup.sample) as Hr
    by (apply (bool_decide_unpack _); vm_compute; exact Logic.I).
  assert ("ledger-2026-aa.json"%string ∈ Backup.cleanup Backup.sample) as Hk
    by (apply (bool_decide_unpack _); vm_compute; exact Logic.I).
  split; [exact Hr|]. split; [exact Hk|].
  exact (X2_backup_removes_oldest Backup.sample _ _ Hr Hk eq_refl).
Defined.

(** ** The copies of the classifier *)

Lemma firstOrderLock_findOrderLock outs :
  Backfill.firstOrderLock outs = j_vout <$> findOrderLock outs.
Proof.
  induction outs as [|v rest IH]; [done|]. cbn [Backfill.firstOrderLock findOrderLock].
  destruct (isOpReturn v); [done|]. by destruct (isOrderLockOut v).
Qed.

Lemma firstDust_findDust outs : Backfill.firstDust outs = j_vout <$> findDust outs.
Proof.
  induction outs as [|v rest IH]; [done|]. cbn [Backfill.firstDust findDust].
  destruct (isOpReturn v); [done|]. by destruct (isDustToAddress v).
Qed.

(** X3.  The classifier of the backfill script agrees with the one of the
    refresh script: on every response body it throws when that one
    throws, finds nothing when that one finds nothing, and otherwise
    returns the output index of the jig that one returns.  A [lastVout]
    written by the backfill is the one [resolveLastVout] would resolve. *)
Theorem X3_backfill_classifier_agrees (tx : Body) :
  Backfill.findJigVout tx =
  match findJigVout tx with
  | Ok j => Ok (j_vout <$> j)
  | Throw e => Throw e
  end.
Proof.
  unfold Backfill.findJigVout, findJigVout. destruct (b_vout tx) as [outs|]; [|done].
  rewrite firstOrderLock_findOrderLock, firstDust_findDust.
  by destruct (findOrderLock outs).
Qed.

Lemma lockLoop_findOrderLock outs :
  Indexer.lockLoop outs = j_vout <$> findOrderLock outs.
Proof.
  induction outs as [|v rest IH]; [done|]. cbn [Indexer.lockLoop findOrderLock].
  destruct (isOpReturn v); [done|]. by destruct (isOrderLockOut v).
Qed.

Lemma dustLoop_findDust outs :
  Indexer.dustLoop outs = (fun j => (j_addr j, j_vout j)) <$> findDust outs.
Proof.
  induction outs as [|v rest IH]; [done|]. cbn [Indexer.dustLoop findDust].
  destruct (isOpReturn v); [done|]. by destruct (isDustToAddress v).
Qed.

Lemma classify_findJigVout (tx : Body) :
  Indexer.classify tx =
    match findJigVout tx with
    | Ok (Some j) =>
        Ok {| Indexer.newAddr := j_addr j; Indexer.newVout := Some (j_vout j);
              Indexer.orderLock := isOrderLock j |}
    | Ok None =>
        Ok {| Indexer.newAddr := None; Indexer.newVout := None; Indexer.orderLock := false |}
    | Throw e => Throw e
    end.
Proof.
  unfold Indexer.classify, findJigVout. destruct (b_vout tx) as [outs|]; [|done].
  rewrite lockLoop_findOrderLock, dustLoop_findDust.
  destruct (findOrderLock outs) as [j|] eqn:Hl; cbn [fmap option_fmap option_map].
  - by destruct (findOrderLock_Some _ _ Hl) as [-> ->].
  - destruct (findDust outs) as [j|] eqn:Hd; cbn [fmap option_fmap option_map]; [|done].
    by destruct (findDust_Some _ _ Hd) as [-> _].
Qed.

(** X4.  One pass of the loop of [traceNFT] in the indexer, with its
    inlined classification, does what one pass of [traceForward] in the
    refresh script does with [findJigVout]: it throws on the same
    bodies, breaks exactly when [findJigVout] returns null, moves to the
    same output, and changes the holder and pushes the same [send]
    transfer exactly when the refresh would.  A history built by the
    indexer is continued by the refresh under one reading of the chain. *)
Theorem X4_indexer_pass_agrees (stx : string) (tx : Body) (currentAddr : option string) :
  Indexer.advance stx tx currentAddr =
    match findJigVout tx with
    | Throw e => Throw e
    | Ok None => Ok None
    | Ok (Some j) =>
        if movesTo j currentAddr
        then Ok (Some (j_vout j, j_addr j, [sendEvent stx currentAddr (j_addr j) tx]))
        else Ok (Some (j_vout j, currentAddr, []))
    end.
Proof.
  unfold Indexer.advance. rewrite classify_findJigVout.
  destruct (findJigVout tx) as [[j|]|e]; [|done|done].
  cbn [Indexer.newVout]. unfold Indexer.recordsTransfer, movesTo.
  cbn [Indexer.orderLock Indexer.newAddr]. reflexivity.
Qed.

(** ** What the classifier finds *)

(** The outputs the loops look at: not skipped as [OP_RETURN]. *)
Lemma findOrderLock_first outs j :
  findOrderLock outs = Some j ->
  exists pre v post, outs = pre ++ v :: post /\
    isOpReturn v = false /\ isOrderLockOut v = true /\ j_vout j = n v /\
    Forall (fun u => isOpReturn u = true \/ isOrderLockOut u = false) pre.
Proof.
  induction outs as [|v rest IH]; cbn [findOrderLock]; [done|].
  destruct (isOpReturn v) eqn:Hop.
  - intros H. destruct (IH H) as (pre & u & post & -> & ? & ? & ? & Hpre).
    exists (v :: pre), u, post. repeat split; try done. constructor; [by left|done].
  - destruct (isOrderLockOut v) eqn:Hl.
    + intros [= <-]. exists [], v, rest. repeat split; try done.
    + intros H. destruct (IH H) as (pre & u & post & -> & ? & ? & ? & Hpre).
      exists (v :: pre), u, post. repeat split; try done. constructor; [by right|done].
Qed.

Lemma findOrderLock_None outs :
  findOrderLock outs = None <->
  Forall (fun u => isOpReturn u = true \/ isOrderLockOut u = false) outs.
Proof.
  induction outs as [|v rest IH]; cbn [findOrderLock]; [by split; [constructor|]|].
  rewrite Forall_cons. destruct (isOpReturn v) eqn:Hop.
  - rewrite IH. split; [intros ?; split; [by left|done]|by intros [_ ?]].
  - destruct (isOrderLockOut v) eqn:Hl.
    + split; [done|]. by intros [[?|?] _].
    + rewrite IH. split; [intros ?; split; [by right|done]|by intros [_ ?]].
Qed.

Lemma findDust_first outs j :
  findDust outs = Some j ->
  exists pre v post, outs = pre ++ v :: post /\
    isOpReturn v = false /\ isDustToAddress v = true /\
    j_vout j = n v /\ j_addr j = firstAddress v /\
    Forall (fun u => isOpReturn u = true \/ isDustToAddress u = false) pre.
Proof.
  induction outs as [|v rest IH]; cbn [findDust]; [done|].
  destruct (isOpReturn v) eqn:Hop.
  - intros H. destruct (IH H) as (pre & u & post & -> & ? & ? & ? & ? & Hpre).
    exists (v :: pre), u, post. repeat split; try done. constructor; [by left|done].
  - destruct (isDustToAddress v) eqn:Hl.
    + intros [= <-]. exists [], v, rest. repeat split; try done.
    + intros H. destruct (IH H) as (pre & u & post & -> & ? & ? & ? & ? & Hpre).
      exists (v :: pre), u, post. repeat split; try done. constructor; [by right|done].
Qed.

Lemma findDust_None outs :
  findDust outs = None <->
  Forall (fun u => isOpReturn u = true \/ isDustToAddress u = false) outs.
Proof.
  induction outs as [|v rest IH]; cbn [findDust]; [by split; [constructor|]|].
  rewrite Forall_cons. destruct (isOpReturn v) eqn:Hop.
  - rewrite IH. split; [intros ?; split; [by left|done]|by intros [_ ?]].
  - destruct (isDustToAddress v) eqn:Hl.
    + split; [done|]. by intros [[?|?] _].
    + rewrite IH. split; [intros ?; split; [by right|done]|by intros [_ ?]].
Qed.

(** X5.  [findJigVout] returns null exactly when the transaction has an
    output list in which every output is an [OP_RETURN] or is neither a
    small nonstandard output nor a dust payment to an address: the stop
    of the trace that is read as a destruction. *)
Theorem X5_classifier_null (tx : Body) :
  findJigVout tx = Ok None <->
  exists outs, b_vout tx = Some outs /\
    Forall (fun u => isOpReturn u = true \/
                     (isOrderLockOut u = false /\ isDustToAddress u = false)) outs.
Proof.
  unfold findJigVout. destruct (b_vout tx) as [outs|].
  - destruct (findOrderLock outs) as [j|] eqn:Hl.
    + split; [done|]. intros (outs' & [= <-] & Hall).
      assert (findOrderLock outs = None) as Hn; [|congruence].
      apply findOrderLock_None. eapply Forall_impl; [exact Hall|]. cbn. tauto.
    + apply findOrderLock_None in Hl. split.
      * intros [= Hd]. apply findDust_None in Hd. exists outs. split; [done|].
        rewrite Forall_forall in Hl, Hd. apply Forall_forall. intros u Hu.
        specialize (Hl u Hu). specialize (Hd u Hu). tauto.
      * intros (outs' & [= <-] & Hall). f_equal. apply findDust_None.
        eapply Forall_impl; [exact Hall|]. cbn. tauto.
  - split; [done|]. by intros (? & ? & _).
Qed.

(** X6.  What [findJigVout] returns is the first output of its kind: an
    order lock is the first small nonstandard output that is not an
    [OP_RETURN], wherever dust payments stand; a dust payment is returned
    only when the transaction has no such nonstandard output at all, and
    is then the first one, with its first address. *)
Theorem X6_classifier_first_match (tx : Body) (j : Jig) :
  findJigVout tx = Ok (Some j) ->
  exists pre v post, b_vout tx = Some (pre ++ v :: post) /\
    isOpReturn v = false /\ j_vout j = n v /\
    ((isOrderLock j = true /\ j_addr j = None /\ isOrderLockOut v = true /\
      Forall (fun u => isOpReturn u = true \/ isOrderLockOut u = false) pre) \/
     (isOrderLock j = false /\ j_addr j = firstAddress v /\ isDustToAddress v = true /\
      Forall (fun u => isOpReturn u = true \/ isDustToAddress u = false) pre /\
      Forall (fun u => isOpReturn u = true \/ isOrderLockOut u = false) (pre ++ v :: post))).
Proof.
  unfold findJigVout. destruct (b_vout tx) as [outs|]; [|done].
  destruct (findOrderLock outs) as [j'|] eqn:Hl.
  - intros [= <-]. destruct (findOrderLock_Some _ _ Hl) as [Hk Ha].
    destruct (findOrderLock_first _ _ Hl) as (pre & v & post & -> & ? & ? & ? & ?).
    exists pre, v, post. repeat split; try done. by left.
  - intros [= Hd]. destruct (findDust_Some _ _ Hd) as [Hk _].
    apply findOrderLock_None in Hl.
    destruct (findDust_first _ _ Hd) as (pre & v & post & -> & ? & ? & ? & ? & ?).
    exists pre, v, post. repeat split; try done. by right.
Qed.

Lemma X6_classifier_first_match_witness :
  exists pre v post,
    b_vout (Scenario.txBody "t1" [Scenario.payOut 0 "bob"; Scenario.dustOut 1 "alice"] 800000) =
      Some (pre ++ v :: post) /\ n v = 1.
Proof.
  destruct (X6_classifier_first_match
              (Scenario.txBody "t1" [Scenario.payOut 0 "bob"; Scenario.dustOut 1 "alice"] 800000)
              {| j_vout := 1; j_addr := Some "alice"%string; isOrderLock := false |}
              eq_refl) as (pre & v & post & Hb & _ & Hn & _).
  exists pre, v, post. split; [exact Hb|]. cbn [j_vout] in Hn. by symmetry.
Defined.

(** ** The retry schedule of [wocGet] *)

Lemma request_step provider ep w :
  exists evs,
    events (request provider ep w).2 = events w ++ evs /\
    clock (request provider ep w).2 = S (clock w) /\
    requestsOf evs = [ep] /\ sleepsOf evs = [] /\
    match (request provider ep w).1 with
    | Ok v => replyValue (provider (clock w) ep) = Some v
    | Throw e => replyValue (provider (clock w) ep) = None /\
                 replyError (provider (clock w) ep) = Some e
    end.
Proof.
  unfold request, bind, fetch, replyValue, replyError.
  destruct (provider (clock w) ep) as [s b| |msg];
    [|exists [EvRequest ep]; unfold throw; cbn; by split_and!..].
  unfold onSuccess, onThrottle, bind, getDelay, setDelay, log, emit, ret, throw.
  destruct (s =? 200).
  { exists [EvRequest ep]. cbn. destruct (MIN_DELAY_MS <? callDelayMs w); cbn; by split_and!. }
  destruct (s =? 404).
  { exists [EvRequest ep]. cbn. destruct (MIN_DELAY_MS <? callDelayMs w); cbn; by split_and!. }
  destruct (s =? 429).
  - exists [EvRequest ep; EvLog (LogThrottle (Z.min MAX_DELAY_MS (callDelayMs w * 2)))].
    cbn. rewrite <- app_assoc. by split_and!.
  - exists [EvRequest ep]. cbn. by split_and!.
Qed.

Lemma requestsOf_app evs evs' : requestsOf (evs ++ evs') = requestsOf evs ++ requestsOf evs'.
Proof. apply omap_app. Qed.

Lemma sleepsOf_app evs evs' : sleepsOf (evs ++ evs') = sleepsOf evs ++ sleepsOf evs'.
Proof. apply omap_app. Qed.

Lemma requestsOf_sleep ms evs : requestsOf (EvSleep ms :: evs) = requestsOf evs.
Proof. reflexivity. Qed.

Lemma sleepsOf_sleep ms evs : sleepsOf (EvSleep ms :: evs) = ms :: sleepsOf evs.
Proof. reflexivity. Qed.

Lemma wocGetLoop_schedule provider ep : forall left attempt w,
  exists k evs, (k <= left)%nat /\
    events (wocGetLoop provider left attempt ep w).2 = events w ++ evs /\
    clock (wocGetLoop provider left attempt ep w).2 = (clock w + S k)%nat /\
    requestsOf evs = replicate (S k) ep /\
    sleepsOf evs = backoffs attempt k /\
    (forall i, (i < k)%nat -> replyValue (provider (clock w + i)%nat ep) = None) /\
    match (wocGetLoop provider left attempt ep w).1 with
    | Ok v => replyValue (provider (clock w + k)%nat ep) = Some v
    | Throw e => k = left /\ replyError (provider (clock w + k)%nat ep) = Some e
    end.
Proof.
  induction left as [|left IH]; intros attempt w.
  - rewrite wocGetLoop_O. unfold tryCatch, throw.
    destruct (request_step provider ep w) as (evs & He & Hc & Hr & Hs & Hres).
    destruct (request provider ep w) as [[v|e] w1]; cbn [fst snd] in *;
      exists O, evs; rewrite Nat.add_0_r; split_and!; try done; try lia.
    by destruct Hres.
  - rewrite wocGetLoop_S. unfold tryCatch.
    destruct (request_step provider ep w) as (evs & He & Hc & Hr & Hs & Hres).
    destruct (request provider ep w) as [[v|e] w1]; cbn [fst snd] in *.
    { exists O, evs. rewrite Nat.add_0_r. split_and!; try done; lia. }
    destruct Hres as [Hnone _]. unfold bind, sleep, emit.
    set (w2 := {| ledger := ledger w1; disk := disk w1; callDelayMs := callDelayMs w1;
                  clock := clock w1;
                  events := events w1 ++ [EvSleep (BASE_BACKOFF_MS * 2 ^ Z.of_nat attempt)] |}).
    destruct (IH (S attempt) w2) as (k & evs' & Hk & He' & Hc' & Hr' & Hs' & Hfail & Hres').
    exists (S k), (evs ++ EvSleep (BASE_BACKOFF_MS * 2 ^ Z.of_nat attempt) :: evs').
    assert (clock w2 = S (clock w)) as Hw2 by (by rewrite <- Hc).
    split_and!.
    + lia.
    + rewrite He'. unfold w2. cbn [events]. rewrite He. by rewrite <- !app_assoc.
    + rewrite Hc', Hw2. lia.
    + by rewrite requestsOf_app, requestsOf_sleep, Hr, Hr'.
    + by rewrite sleepsOf_app, sleepsOf_sleep, Hs, Hs'.
    + intros [|i] Hi; [by rewrite Nat.add_0_r|].
      replace (clock w + S i)%nat with (clock w2 + i)%nat by lia. apply Hfail. lia.
    + replace (clock w + S k)%nat with (clock w2 + k)%nat by lia.
      destruct (wocGetLoop provider left (S attempt) ep w2).1; [done|].
      destruct Hres' as [-> ?]. done.
Qed.

(** X7.  The retry schedule of [wocGet]: it sends between one and four
    requests, all to the same endpoint, and pauses before retry number
    [i + 1] for [2000 * 2^i] ms, so for 2, 4 and 8 seconds at most.  It
    returns the value of the first successful reply, every reply before
    that one being a failure, or throws the error of the fourth reply
    when all four fail. *)
Theorem X7_wocGet_schedule (provider : nat -> Endpoint -> Reply) (ep : Endpoint) (w : World) :
  exists k evs, (k <= 3)%nat /\
    events (wocGet provider ep w).2 = events w ++ evs /\
    clock (wocGet provider ep w).2 = (clock w + S k)%nat /\
    requestsOf evs = replicate (S k) ep /\
    sleepsOf evs = take k [2000; 4000; 8000] /\
    (forall i, (i < k)%nat -> replyValue (provider (clock w + i)%nat ep) = None) /\
    match (wocGet provider ep w).1 with
    | Ok v => replyValue (provider (clock w + k)%nat ep) = Some v
    | Throw e => k = 3%nat /\ replyError (provider (clock w + 3)%nat ep) = Some e
    end.
Proof.
  unfold wocGet, MAX_RETRIES.
  destruct (wocGetLoop_schedule provider ep 3 0 w)
    as (k & evs & Hk & He & Hc & Hr & Hs & Hfail & Hres).
  exists k, evs. split_and!; try done.
  - rewrite Hs. clear -Hk. unfold backoffs.
    destruct k as [|[|[|[|k]]]]; try reflexivity. lia.
  - destruct (wocGetLoop provider 3 0 ep w).1; [done|]. by destruct Hres as [-> ?].
Qed.

(** ** The adaptive delay *)

Lemma delay_onSuccess : preserves delayInRange onSuccess.
Proof.
  intros w. unfold delayInRange, onSuccess, bind, getDelay, setDelay, ret,
    MIN_DELAY_MS, MAX_DELAY_MS.
  destruct (200 <? callDelayMs w) eqn:E; cbn [snd callDelayMs]; lia.
Qed.

Lemma delay_onThrottle : preserves delayInRange onThrottle.
Proof.
  intros w. unfold delayInRange, onThrottle, bind, getDelay, setDelay, log, emit,
    MIN_DELAY_MS, MAX_DELAY_MS.
  cbn [snd callDelayMs]. lia.
Qed.

Lemma delay_processNFT provider num : preserves delayInRange (processNFT provider num).
Proof.
  apply walk_processNFT; try (by intros; intros w Hw);
    [apply delay_onSuccess | apply delay_onThrottle].
Qed.

(** X8.  The adaptive delay between requests never leaves the interval
    from [MIN_DELAY_MS] to [MAX_DELAY_MS]: when it is in the interval
    before a request, a call of [processNFT] or a whole run, it is in the
    interval afterwards, whatever the provider replies and whether the
    call returns or throws.  The script starts with 300 ms. *)
Theorem X8_delay_in_range (provider : nat -> Endpoint -> Reply) (w : World) :
  delayInRange w ->
  (forall ep, delayInRange (wocGet provider ep w).2) /\
  (forall num, delayInRange (processNFT provider num w).2) /\
  delayInRange (refresh provider w).2.
Proof.
  intros Hw. split_and!.
  - intros ep. revert w Hw.
    apply walk_wocGet; try (by intros; intros w Hw);
      [apply delay_onSuccess | apply delay_onThrottle].
  - intros num. by apply delay_processNFT.
  - revert w Hw. apply drive_refresh; try (by intros; intros w Hw).
    apply delay_processNFT.
Qed.

Lemma X8_delay_in_range_witness :
  delayInRange (Scenario.world7 (Some 0)) /\
  delayInRange (refresh Scenario.throttled (Scenario.world7 (Some 0))).2.
Proof.
  assert (delayInRange (Scenario.world7 (Some 0))) as H by (by vm_compute).
  split; [exact H|]. apply (X8_delay_in_range Scenario.throttled _ H).
Defined.

(** ** The ledger file *)

Lemma disk_processNFT provider num w : disk (processNFT provider num w).2 = disk w.
Proof.
  set (P := fun w' : World => disk w' = disk w).
  assert (preserves P (processNFT provider num)) as H; [|by apply H].
  apply walk_processNFT.
  - by intros e _ w1 Hw1.
  - by intros f w1 Hw1.
  - by intros ep w1 Hw1.
  - intros w1 Hw1. unfold onSuccess, bind, getDelay, setDelay, ret.
    by destruct (MIN_DELAY_MS <? callDelayMs w1).
  - by intros w1 Hw1.
Qed.

(** X9.  The ledger file is written by [saveLedger] only, and what a
    completed write leaves is a ledger in a committed state.
    [processNFT] never touches the file.  Let no owner in the ledger and
    no address reported by the provider be the name of a member of
    [Object.prototype].  Then for every property kept by the three
    committed updates of a record, such as index consistency: if the
    ledger and the file have it at the start, the file has it after any
    number of iterations of the main loop and of the retry loop, and at
    the end of the run. *)
Theorem X9_file_consistent (provider : nat -> Endpoint -> Reply)
    (I : gmap Z Nft -> gmap string (list Z) -> Prop) (w : World) :
  stable I ->
  cleanProvider provider -> cleanOwners (nfts (ledger w)) ->
  I (nfts (ledger w)) (owners (ledger w)) ->
  I (nfts (disk w)) (owners (disk w)) ->
  (forall num, disk (processNFT provider num w).2 = disk w) /\
  (forall total c nums,
     I (nfts (disk (forEach (mainStep provider total) c nums w).2))
       (owners (disk (forEach (mainStep provider total) c nums w).2))) /\
  (forall c nums,
     I (nfts (disk (forEach (retryStep provider) c nums w).2))
       (owners (disk (forEach (retryStep provider) c nums w).2))) /\
  I (nfts (disk (refresh provider w).2)) (owners (disk (refresh provider w).2)).
Proof.
  intros HI Hp Hcl Hl Hd.
  set (P := fun w : World => cleanInv I w /\ I (nfts (disk w)) (owners (disk w))).
  assert (forall e, isRequest e = false -> preserves P (emit e)) as P_emit
    by (by intros e _ w1 Hw1).
  assert (preserves P saveLedger) as P_save by (by intros w1 [[Hw1 Hc1] _]).
  assert (forall num, preserves P (processNFT provider num)) as P_proc.
  { intros num w1 [Hw1 Hd1]. split.
    - by apply clean_processNFT.
    - by rewrite disk_processNFT. }
  assert (P w) as Hw by done.
  split_and!.
  - intros num. apply disk_processNFT.
  - intros total c nums.
    apply (preserves_forEach P (mainStep provider total) nums); [|done].
    intros c' num. by apply drive_mainStep.
  - intros c nums.
    apply (preserves_forEach P (retryStep provider) nums); [|done].
    intros c' num. by apply drive_retryStep.
  - by apply (drive_refresh provider P P_emit P_save P_proc w).
Qed.

Lemma X9_file_consistent_witness :
  let w := Scenario.world7 (Some 0) in
  indexConsistent (nfts (disk (refresh Scenario.escrowChain w).2))
                  (owners (disk (refresh Scenario.escrowChain w).2)).
Proof.
  apply (X9_file_consistent Scenario.escrowChain indexConsistent (Scenario.world7 (Some 0))
           indexConsistent_stable escrowChain_clean (ledger7_clean (Some 0))
           (ledger7_consistent (Some 0)) (ledger7_consistent (Some 0))).
Defined.

(** ** Records through a run *)

Lemma continues_refl x : continues x x.
Proof. by split_and!. Qed.

Lemma continues_stable (m0 : gmap Z Nft) (num : Z) :
  stable (fun m _ =>
    match m0 !! num with
    | None => m !! num = None
    | Some x => exists x', m !! num = Some x' /\ continues x x'
    end).
Proof.
  assert (forall (m : gmap Z Nft) num' x1 y,
    m !! num' = Some x1 -> burned x1 = false ->
    (forall x, continues x x1 -> continues x y) ->
    match m0 !! num with
    | None => m !! num = None
    | Some x => exists x', m !! num = Some x' /\ continues x x'
    end ->
    match m0 !! num with
    | None => <[num' := y]> m !! num = None
    | Some x => exists x', <[num' := y]> m !! num = Some x' /\ continues x x'
    end) as Hstep.
  { intros m num' x1 y Hx1 Hb Hy Hm. destruct (decide (num' = num)) as [->|Hne].
    - rewrite lookup_insert_eq. destruct (m0 !! num) as [x|]; [|congruence].
      destruct Hm as (x' & Hx' & Hc). exists y. split; [done|]. apply Hy. congruence.
    - by rewrite lookup_insert_ne. }
  split.
  - intros m idx num' x1 v Hm Hx1 Hb Hv. eapply Hstep; [done..| |done].
    intros x (Ht & Ho & Hl & Hbx). split_and!; try done; try (intros _; by eexists).
  - intros m idx num' x1 stx tx Hm Hx1 Hb. eapply Hstep; [done..| |done].
    intros x (Ht & Ho & Hl & Hbx). split_and!; try done.
    cbn [transfers burnedRecord]. by apply prefix_app_r.
  - intros m idx num' x1 ts o ltx lv Hm Hx1 Hb Ho' _. eapply Hstep; [done..| |done].
    intros x (Ht & Ho & Hl & Hbx). split_and!.
    + cbn [transfers movedRecord]. by apply prefix_app_r.
    + intros Hx. cbn [owner movedRecord]. destruct Ho' as [->|?]; [by apply Ho | done].
    + intros _. by eexists.
    + intros Hx. apply Hbx in Hx. congruence.
Qed.

(** X10.  A run creates no record and deletes none, and what it does to
    a record is a continuation: the transfers it had are kept, in their
    order, at the start of its history; an owner is replaced only by an
    owner, never by nothing; a stored output index stays stored; a burned
    record stays burned.  The same holds for a single [processNFT]. *)
Theorem X10_records_continue (provider : nat -> Endpoint -> Reply) (w : World) (num id : Z) :
  let after (w' : World) :=
    match nfts (ledger w) !! id with
    | None => nfts (ledger w') !! id = None
    | Some x => exists x', nfts (ledger w') !! id = Some x' /\ continues x x'
    end in
  after (processNFT provider num w).2 /\ after (refresh provider w).2.
Proof.
  cbv zeta.
  pose proof (continues_stable (nfts (ledger w)) id) as HI.
  assert (match nfts (ledger w) !! id with
          | None => nfts (ledger w) !! id = None
          | Some x => exists x', nfts (ledger w) !! id = Some x' /\ continues x x'
          end) as Hw.
  { destruct (nfts (ledger w) !! id) as [x|] eqn:E; [|done].
    exists x. split; [done | apply continues_refl]. }
  split.
  - exact (preserves_processNFT provider _ HI (fun _ _ _ H => H) num w Hw).
  - exact (preserves_refresh provider _ HI (fun _ _ _ H => H) w Hw).
Qed.

Lemma burnRecorded_stable :
  stable (fun m _ => forall id x, m !! id = Some x -> burnRecorded x).
Proof.
  split.
  - intros m idx num x v Hm Hx Hb _ id y.
    destruct (decide (id = num)) as [->|Hne].
    + rewrite lookup_insert_eq. intros [= <-] Hy. cbn in Hy. congruence.
    + rewrite lookup_insert_ne by done. apply Hm.
  - intros m idx num x stx tx Hm Hx Hb id y.
    destruct (decide (id = num)) as [->|Hne].
    + rewrite lookup_insert_eq. intros [= <-] _.
      exists stx, (burnEvent stx (owner x) tx). cbn [burnTx transfers owner burnedRecord].
      split_and!; try done. apply last_snoc.
    + rewrite lookup_insert_ne by done. apply Hm.
  - intros m idx num x ts o ltx lv Hm Hx Hb _ _ id y.
    destruct (decide (id = num)) as [->|Hne].
    + rewrite lookup_insert_eq. intros [= <-] Hy. cbn in Hy. congruence.
    + rewrite lookup_insert_ne by done. apply Hm.
Qed.

(** X11.  Every burned record names its burn: if in the loaded ledger
    each burned record has a [burnTx] and a history ending with the
    [burn] event of that transaction, sent by the owner of the record to
    nobody, then the same is true after a [processNFT] call and after a
    run, for the records burned before and for those the run burned. *)
Theorem X11_burn_recorded (provider : nat -> Endpoint -> Reply) (w : World) (num : Z) :
  (forall id x, nfts (ledger w) !! id = Some x -> burnRecorded x) ->
  (forall id x, nfts (ledger (processNFT provider num w).2) !! id = Some x -> burnRecorded x) /\
  (forall id x, nfts (ledger (refresh provider w).2) !! id = Some x -> burnRecorded x).
Proof.
  intros Hw. split.
  - exact (preserves_processNFT provider _ burnRecorded_stable (fun _ _ _ H => H) num w Hw).
  - exact (preserves_refresh provider _ burnRecorded_stable (fun _ _ _ H => H) w Hw).
Qed.

Lemma X11_burn_recorded_witness :
  exists x,
    nfts (ledger (refresh Scenario.escrowChain Scenario.burnedWorld).2) !! 7 = Some x /\
    burnRecorded x.
Proof.
  assert (nfts (ledger (refresh Scenario.escrowChain Scenario.burnedWorld).2) !! 7
          = Some Scenario.burned7) as H by (vm_compute; reflexivity).
  exists Scenario.burned7. split; [exact H|].
  refine (proj2 (X11_burn_recorded Scenario.escrowChain Scenario.burnedWorld 7 _) 7 _ H).
  intros id x. unfold Scenario.burnedWorld. cbn [ledger nfts].
  intros [_ <-]%lookup_singleton_Some _.
  exists "T0"%string, (burnEvent "T0" (Some "A"%string) (Scenario.txBody "T0" [] 790)).
  repeat split; reflexivity.
Defined.

(** ** The owner index through a run *)

Lemma hygienic_stable : stable (fun _ idx => hygienic idx).
Proof.
  split; [done..|].
  intros m idx num x ts o ltx lv Hh _ _ _ _. unfold movedIndex.
  case_bool_decide; [done|]. by apply hygienic_listed, hygienic_unlisted.
Qed.

Lemma keysAreOwners_intro m idx :
  indexConsistent m idx -> hygienic idx -> keysAreOwners m idx.
Proof.
  intros Hc Hh a. split.
  - intros [l Hl]. destruct (Hh a l Hl) as [Hne _].
    destruct l as [|id l]; [done|].
    destruct (proj1 (Hc a id)) as (x & Hx & Ho); [|by exists id, x].
    exists (id :: l). split; [done | by left].
  - intros (id & x & Hx & Ho). destruct (proj2 (Hc a id)) as (l & Hl & _); [by exists x|].
    by exists l.
Qed.

(** X12.  The owner count of the summary is the number of owners.  Let
    no owner in the ledger and no address reported by the provider be the
    name of a member of [Object.prototype].  When the loaded index is
    consistent with the records and has no empty and no repeating array,
    then so has the index after a run, and its property names are exactly
    the addresses that own at least one asset, so that
    [Object.keys(ledger.owners).length] counts them. *)
Theorem X12_owner_keys (provider : nat -> Endpoint -> Reply) (w : World) :
  cleanProvider provider -> cleanOwners (nfts (ledger w)) ->
  ledgerInv indexConsistent w ->
  hygienic (owners (ledger w)) ->
  hygienic (owners (ledger (refresh provider w).2)) /\
  keysAreOwners (nfts (ledger (refresh provider w).2)) (owners (ledger (refresh provider w).2)) /\
  size (owners (ledger (refresh provider w).2)) = holders (owners (ledger (refresh provider w).2)).
Proof.
  intros Hp Hcl Hc Hh.
  destruct (clean_refresh provider _ indexConsistent_stable Hp w (conj Hc Hcl)) as [Hc' _].
  destruct (clean_refresh provider _ hygienic_stable Hp w (conj Hh Hcl)) as [Hh' _].
  unfold ledgerInv in Hh', Hc'.
  split_and!; [done | by apply keysAreOwners_intro | by apply hygienic_holders].
Qed.

Lemma X12_owner_keys_witness :
  let w := (refresh Scenario.escrowChain (Scenario.world7 (Some 0))).2 in
  keysAreOwners (nfts (ledger w)) (owners (ledger w)).
Proof.
  apply (X12_owner_keys Scenario.escrowChain (Scenario.world7 (Some 0))
           escrowChain_clean (ledger7_clean (Some 0))
           (ledger7_consistent (Some 0)) (ledger7_hygienic (Some 0))).
Defined.

(** ** The two index helpers *)

Lemma filter_ne_notin (num : Z) (l : list Z) :
  num ∉ l -> filter (fun n => n ≠ num) l = l.
Proof.
  induction l as [|y l IH]; [done|]. intros Hn.
  apply not_elem_of_cons in Hn as [Hne Hn].
  rewrite filter_cons_True by done. by rewrite IH.
Qed.

Lemma filter_ne_idem (num : Z) (l : list Z) :
  filter (fun n => n ≠ num) (filter (fun n => n ≠ num) l) = filter (fun n => n ≠ num) l.
Proof.
  apply filter_ne_notin. intros Hin. apply list_elem_of_filter in Hin as [Hne _]. done.
Qed.

Lemma unlisted_listed (addr : option string) (num : Z) (idx : gmap string (list Z)) :
  hygienic idx -> ~ holds idx (propertyKey addr) num ->
  unlisted addr num (listed addr num idx) = idx.
Proof.
  intros Hh Hn. unfold listed. set (k := propertyKey addr) in *.
  destruct (idx !! k) as [l|] eqn:Hk.
  - rewrite Hk. assert (num ∉ l) as Hnl by (intros ?; apply Hn; by exists l).
    rewrite bool_decide_eq_false_2 by done.
    unfold unlisted. fold k. rewrite lookup_insert_eq.
    rewrite filter_app, filter_ne_notin by done.
    rewrite filter_cons_False, filter_nil, app_nil_r by (intros ?; done).
    destruct (Hh k l Hk) as [Hne _].
    rewrite bool_decide_eq_false_2 by (by destruct l).
    rewrite insert_insert_eq. by apply insert_id.
  - rewrite lookup_insert_eq. rewrite bool_decide_eq_false_2 by apply not_elem_of_nil.
    rewrite insert_insert_eq. cbn [app].
    unfold unlisted. fold k. rewrite lookup_insert_eq.
    rewrite filter_cons_False, filter_nil by (intros ?; done).
    rewrite bool_decide_eq_true_2 by done.
    rewrite delete_insert_eq, delete_insert_eq. by apply delete_id.
Qed.

Lemma throwsOn_listed addr num idx : throwsOn (listed addr num idx) addr = false.
Proof.
  assert (holds (listed addr num idx) (propertyKey addr) num) as (l & Hl & _).
  { apply holds_listed. by right. }
  unfold throwsOn, readOwners. by rewrite Hl.
Qed.

(** X13.  Removing undoes adding: on an index without empty arrays, for
    an asset that is not listed under the address, [addToOwnerIndex]
    followed by [removeFromOwnerIndex] gives back the index, also when
    the address had to be created and is then deleted again.  Where the
    address reads a member of [Object.prototype], both helpers throw and
    the index is never written. *)
Theorem X13_index_round_trip (addr : option string) (num : Z) (idx : gmap string (list Z)) :
  hygienic idx -> ~ holds idx (propertyKey addr) num ->
  unlisted addr num (listed addr num idx) = idx /\
  match addToIndex addr num idx with
  | Ok idx1 => idx1 = listed addr num idx /\ removeFromIndex addr num idx1 = Ok idx
  | Throw e =>
      e = TypeError /\ readOwners idx addr = Member /\
      removeFromIndex addr num idx = Throw TypeError
  end.
Proof.
  intros Hh Hn. pose proof (unlisted_listed addr num idx Hh Hn) as Hround.
  split; [exact Hround|].
  rewrite addToIndex_spec. destruct (throwsOn idx addr) eqn:Ht.
  - split; [done|]. rewrite removeFromIndex_spec, Ht. split; [|done].
    unfold throwsOn in Ht. by destruct (readOwners idx addr).
  - split; [done|]. rewrite removeFromIndex_spec, throwsOn_listed. by rewrite Hround.
Qed.

Lemma X13_index_round_trip_witness :
  exists idx1,
    addToIndex (Some "B"%string) 9 (owners (Scenario.ledger7 (Some 0))) = Ok idx1 /\
    removeFromIndex (Some "B"%string) 9 idx1 = Ok (owners (Scenario.ledger7 (Some 0))).
Proof.
  destruct (X13_index_round_trip (Some "B"%string) 9 _ (ledger7_hygienic (Some 0)))
    as [_ H].
  - intros (l & Hl & _). discriminate Hl.
  - destruct (addToIndex (Some "B"%string) 9 (owners (Scenario.ledger7 (Some 0))))
      as [idx1|e] eqn:E.
    + exists idx1. split; [reflexivity | exact (proj2 H)].
    + exfalso. destruct H as (_ & Hm & _). vm_compute in Hm. discriminate Hm.
Defined.

(** X14.  The index helpers on a second call.  When [addToOwnerIndex]
    returns, the asset is listed under the address and a second call with
    the same address and asset returns without a change.  When
    [removeFromOwnerIndex] returns, the asset is not listed under the
    address, and a second call returns without a change unless the
    address reads a member of [Object.prototype] once its array is gone.
    A helper throws exactly when the address is not a property of the
    index and reads such a member; for every other address both return. *)
Theorem X14_index_idempotent (addr : option string) (num : Z) (idx : gmap string (list Z)) :
  (forall idx1, addToIndex addr num idx = Ok idx1 ->
     holds idx1 (propertyKey addr) num /\ addToIndex addr num idx1 = Ok idx1) /\
  (forall idx1, removeFromIndex addr num idx = Ok idx1 ->
     ~ holds idx1 (propertyKey addr) num /\
     (inherited (propertyKey addr) = false -> removeFromIndex addr num idx1 = Ok idx1)) /\
  (readOwners idx addr = Member <-> addToIndex addr num idx = Throw TypeError) /\
  (readOwners idx addr = Member <-> removeFromIndex addr num idx = Throw TypeError) /\
  (inherited (propertyKey addr) = false ->
   addToIndex addr num idx = Ok (listed addr num idx) /\
   removeFromIndex addr num idx = Ok (unlisted addr num idx)).
Proof.
  assert (listed addr num (listed addr num idx) = listed addr num idx) as Hadd.
  { assert (holds (listed addr num idx) (propertyKey addr) num) as (l & Hl & Hin).
    { apply holds_listed. by right. }
    set (i := listed addr num idx) in *. unfold listed.
    rewrite Hl. cbv beta iota zeta. rewrite Hl. by rewrite bool_decide_eq_true_2. }
  assert (unlisted addr num (unlisted addr num idx) = unlisted addr num idx) as Hrem.
  { unfold unlisted at 2 3. set (k := propertyKey addr).
    destruct (idx !! k) as [l|] eqn:Hk.
    + case_bool_decide as Hlen.
      * unfold unlisted. fold k. by rewrite lookup_delete_eq.
      * unfold unlisted. fold k. rewrite lookup_insert_eq, filter_ne_idem.
        rewrite bool_decide_eq_false_2 by done. by rewrite insert_insert_eq.
    + unfold unlisted. fold k. by rewrite Hk. }
  assert (forall i, readOwners i addr = Member <-> throwsOn i addr = true) as Hmem.
  { intros i. unfold throwsOn. by destruct (readOwners i addr). }
  assert (forall i, inherited (propertyKey addr) = false -> throwsOn i addr = false) as Hclean.
  { intros i Hk. destruct (throwsOn i addr) eqn:Ht; [|done].
    apply throwsOn_inherited in Ht. congruence. }
  split_and!.
  - intros idx1. rewrite addToIndex_spec. destruct (throwsOn idx addr); [done|].
    intros [= <-]. split; [apply holds_listed; by right|].
    by rewrite addToIndex_spec, throwsOn_listed, Hadd.
  - intros idx1. rewrite removeFromIndex_spec. destruct (throwsOn idx addr); [done|].
    intros [= <-]. split; [rewrite holds_unlisted; by intros [_ []]|].
    intros Hk. by rewrite removeFromIndex_spec, (Hclean _ Hk), Hrem.
  - rewrite Hmem, addToIndex_spec. by destruct (throwsOn idx addr).
  - rewrite Hmem, removeFromIndex_spec. by destruct (throwsOn idx addr).
  - intros Hk. by rewrite addToIndex_spec, removeFromIndex_spec, (Hclean _ Hk).
Qed.

(** ** Custody *)

Lemma traceForward_hops provider txid vout o w r w' :
  traceForward provider txid vout o w = (Ok r, w') -> 0 <= r_hops r <= 100.
Proof.
  unfold traceForward. intros H.
  pose proof (traceLoop_hops provider _ _ _ _ _ _ _ _ _ H) as Hh.
  unfold HOP_CEILING in Hh. lia.
Qed.

Lemma bind_Ok {A B} (m : M A) (k : A -> M B) w b w' :
  bind m k w = (Ok b, w') -> exists a w1, m w = (Ok a, w1) /\ k a w1 = (Ok b, w').
Proof. unfold bind. destruct (m w) as [[a|e] w1]; [by exists a, w1 | done]. Qed.

Section Detail.

Variable provider : nat -> Endpoint -> Reply.

(** What a call that returns [Changed] has done to the record. *)
Lemma processNFT_changed num w w' :
  processNFT provider num w = (Ok Changed, w') ->
  exists x x' ts,
    nfts (ledger w) !! num = Some x /\ burned x = false /\ truthy (lastTx x) = true /\
    nfts (ledger w') !! num = Some x' /\
    transfers x' = transfers x ++ ts /\ custody (owner x) ts (owner x') /\
    truthy (lastTx x') = true /\ is_Some (lastVout x') /\
    burned x' = false /\ burnTx x' = burnTx x.
Proof.
  intros E. destruct (processNFT_outcome provider num w _ _ E) as (L1 & Hc & Ho).
  inversion Ho as [| | | | x1 ts o ltx lv idx' Hx1 Hb Htx Hcus Hrep Hltx Hcommit Hr HL|].
  assert (exists x, nfts (ledger w) !! num = Some x /\ burned x = false /\
            truthy (lastTx x) = true /\ transfers x1 = transfers x /\
            owner x1 = owner x /\ burnTx x1 = burnTx x) as (x & Hx & Hbx & Htxx & Ht & Hown & Hbt).
  { destruct Hc as [|x0 v Hx0 Hv Hb0].
    - exists x1. by split_and!.
    - cbn [withNfts nfts] in Hx1. rewrite lookup_insert_eq in Hx1. injection Hx1 as <-.
      exists x0. by split_and!. }
  exists x, (movedRecord x1 ts o ltx lv), ts. cbn [nfts]. rewrite lookup_insert_eq.
  cbn [movedRecord transfers owner lastTx lastVout burned burnTx].
  split_and!; try done; [by rewrite Ht | by rewrite <- Hown].
Qed.

End Detail.

(** ** What one call touches *)

Lemma lookup_unlisted_ne addr num idx a :
  a <> propertyKey addr -> unlisted addr num idx !! a = idx !! a.
Proof.
  intros Hne. unfold unlisted. destruct (idx !! propertyKey addr); [|done].
  case_bool_decide.
  - by rewrite lookup_delete_ne, lookup_insert_ne.
  - by rewrite lookup_insert_ne.
Qed.

Lemma lookup_listed_ne addr num idx a :
  a <> propertyKey addr -> listed addr num idx !! a = idx !! a.
Proof.
  intros Hne. unfold listed. destruct (idx !! propertyKey addr) as [l|] eqn:Hk.
  - rewrite Hk. case_bool_decide; [done|]. by rewrite lookup_insert_ne.
  - rewrite lookup_insert_eq. case_bool_decide; by rewrite ?lookup_insert_ne.
Qed.

Lemma cached_others num L L1 id :
  cached num L L1 -> id <> num -> nfts L1 !! id = nfts L !! id.
Proof. intros [|x v Hx Hv Hb] Hne; [done|]. cbn [withNfts nfts]. by rewrite lookup_insert_ne. Qed.

Lemma cached_frame num L L1 :
  cached num L L1 -> owners L1 = owners L /\ lastUpdated L1 = lastUpdated L.
Proof. by intros [|x v Hx Hv Hb]. Qed.

Lemma processNFT_others provider num w id :
  id <> num ->
  nfts (ledger (processNFT provider num w).2) !! id = nfts (ledger w) !! id.
Proof.
  intros Hne. destruct (processNFT provider num w) as [r w'] eqn:E. cbn [snd].
  destruct (processNFT_outcome provider num w r w' E) as (L1 & Hc & Ho).
  rewrite <- (cached_others _ _ _ _ Hc Hne).
  destruct Ho; try done; cbn [withNfts nfts]; by rewrite lookup_insert_ne.
Qed.

(** X15.  A call of [processNFT] for one asset is local.  It never
    changes the record of another asset nor the time stamp of the ledger.
    A call that returns anything but [Changed] leaves the owner index as
    it is: in particular a burn does, the burned asset stays listed under
    its last owner.  A call that throws leaves the index as it is or,
    when it throws the [TypeError] of [addToOwnerIndex], without the
    asset under its old owner.  In every case the index changes only
    under the old and the new owner of the asset. *)
Theorem X15_call_is_local (provider : nat -> Endpoint -> Reply) (num : Z) (w : World) :
  (forall id, id <> num ->
     nfts (ledger (processNFT provider num w).2) !! id = nfts (ledger w) !! id) /\
  lastUpdated (ledger (processNFT provider num w).2) = lastUpdated (ledger w) /\
  (forall s, (processNFT provider num w).1 = Ok s -> s <> Changed ->
     owners (ledger (processNFT provider num w).2) = owners (ledger w)) /\
  (forall e, (processNFT provider num w).1 = Throw e ->
     owners (ledger (processNFT provider num w).2) = owners (ledger w) \/
     (e = TypeError /\
      exists x, nfts (ledger w) !! num = Some x /\
        owners (ledger (processNFT provider num w).2)
          = unlisted (owner x) num (owners (ledger w)))) /\
  (forall x x' a,
     nfts (ledger w) !! num = Some x ->
     nfts (ledger (processNFT provider num w).2) !! num = Some x' ->
     a <> propertyKey (owner x) -> a <> propertyKey (owner x') ->
     owners (ledger (processNFT provider num w).2) !! a = owners (ledger w) !! a).
Proof.
  split; [intros id; apply processNFT_others|].
  destruct (processNFT provider num w) as [r w'] eqn:E. cbn [fst snd].
  destruct (processNFT_outcome provider num w r w' E) as (L1 & Hc & Ho).
  destruct (cached_frame _ _ _ Hc) as [Hco Hcl].
  assert (forall x1, nfts L1 !! num = Some x1 ->
            exists x, nfts (ledger w) !! num = Some x /\ owner x1 = owner x) as Hown.
  { intros x1 Hx1. destruct Hc as [|x0 v Hx0 Hv Hb]; [by exists x1|].
    cbn [withNfts nfts] in Hx1. rewrite lookup_insert_eq in Hx1. injection Hx1 as <-.
    by exists x0. }
  destruct Ho as [e| | |x1 stx tx Hx1 Hb
                  |x1 ts o ltx lv idx' Hx1 Hb Htx Hcus Hrep Hltx Hcommit
                  |x1 ts o ltx lv e idx' Hx1 Hb Htx Hcus Hrep Hltx Hcommit];
    cbn [withNfts nfts owners lastUpdated]; rewrite ?Hco, ?Hcl.
  - split_and!; try done. intros e' _. by left.
  - by split_and!.
  - by split_and!.
  - by split_and!.
  - split_and!; try done. { by intros s [= <-]. }
    intros x x' a Hx. destruct (Hown x1 Hx1) as (x0 & Hx0 & Ho1).
    assert (x0 = x) as -> by congruence.
    rewrite lookup_insert_eq. intros [= <-]. cbn [owner movedRecord].
    rewrite <- Ho1. intros Ha Ha'.
    apply commitIndex_Ok in Hcommit as ->. rewrite Hco.
    unfold movedIndex. case_bool_decide; [done|].
    by rewrite lookup_listed_ne, lookup_unlisted_ne.
  - rewrite Hco in Hcommit.
    apply commitIndex_Throw in Hcommit as (-> & Hne & [[_ ->] | (_ & _ & ->)]).
    + split_and!; try done. intros e' _. by left.
    + destruct (Hown x1 Hx1) as (x0 & Hx0 & Ho1). split_and!; try done.
      * intros e' [= <-]. right. split; [done|]. exists x0. by rewrite <- Ho1.
      * intros x x' a Hx. assert (x0 = x) as -> by congruence.
        intros _ Ha _. rewrite Ho1. by rewrite lookup_unlisted_ne.
Qed.

(** X16.  A call that returns [Changed] has extended the history of the
    asset by a chain of custody that leads from the owner it had to the
    owner it has now: each new transfer is a [send] from the holder at
    that point to a different, non-empty address.  The record was not
    burned and still is not, and it keeps a usable position: a non-empty
    [lastTx] and a stored [lastVout]. *)
Theorem X16_changed_custody (provider : nat -> Endpoint -> Reply) (num : Z) (w w' : World) :
  processNFT provider num w = (Ok Changed, w') ->
  exists x x' ts,
    nfts (ledger w) !! num = Some x /\ burned x = false /\ truthy (lastTx x) = true /\
    nfts (ledger w') !! num = Some x' /\
    transfers x' = transfers x ++ ts /\ custody (owner x) ts (owner x') /\
    truthy (lastTx x') = true /\ is_Some (lastVout x') /\
    burned x' = false /\ burnTx x' = burnTx x.
Proof. apply processNFT_changed. Qed.

Lemma X16_changed_custody_witness :
  exists x x' ts,
    nfts (ledger (Scenario.world7 (Some 0))) !! 7 = Some x /\
    nfts (ledger (processNFT Scenario.escrowChain 7 (Scenario.world7 (Some 0))).2) !! 7
      = Some x' /\
    transfers x' = transfers x ++ ts /\ custody (owner x) ts (owner x').
Proof.
  destruct (X16_changed_custody Scenario.escrowChain 7 (Scenario.world7 (Some 0))
              (processNFT Scenario.escrowChain 7 (Scenario.world7 (Some 0))).2)
    as (x & x' & ts & H1 & _ & _ & H2 & H3 & H4 & _).
  { vm_compute. reflexivity. }
  exists x, x', ts. split; [exact H1|]. split; [exact H2|]. split; [exact H3 | exact H4].
Defined.

(** X21.  What [traceForward] returns.  When the trace returns, it has
    made between 0 and 100 hops; the transfers it collected are a chain
    of custody from the owner it was started with to the owner it
    reports, at most one for each hop; the position it reports has a
    non-empty transaction id when it was started with one; and the
    ledger is as it was. *)
Theorem X21_trace_result (provider : nat -> Endpoint -> Reply) (txid : string) (vout : Z)
    (o : option string) (w w' : World) (r : TraceResult) :
  traceForward provider txid vout o w = (Ok r, w') ->
  custody o (r_newTransfers r) (r_owner r) /\
  0 <= r_hops r <= 100 /\
  Z.of_nat (length (r_newTransfers r)) <= r_hops r /\
  (truthy (Some txid) = true -> truthy (Some (r_lastTx r)) = true) /\
  ledger w' = ledger w.
Proof.
  intros H.
  destruct (traceForward_result provider _ _ _ _ _ _ H) as (Hc & Hlen & Hl & _).
  pose proof (traceForward_hops provider _ _ _ _ _ _ H) as Hh.
  pose proof (netOp_run _ _ _ _ (netOp_traceForward provider txid vout o) H) as Hled.
  split_and!; try done; lia.
Qed.

Lemma X21_trace_result_witness :
  exists r,
    (traceForward Scenario.escrowChain "P" 0 (Some "A"%string) (Scenario.world7 (Some 0))).1
      = Ok r /\
    custody (Some "A"%string) (r_newTransfers r) (r_owner r).
Proof.
  eexists. split; [vm_compute; reflexivity|].
  eapply (X21_trace_result Scenario.escrowChain "P" 0 (Some "A"%string)
            (Scenario.world7 (Some 0))).
  vm_compute. reflexivity.
Defined.

(** ** Owner and history *)

Lemma recipient_app ts ts' :
  recipient (ts ++ ts') =
  foldl (fun acc t => if String.eqb (t_type t) "burn" then acc else Some (t_to t))
        (recipient ts) ts'.
Proof. unfold recipient. apply foldl_app. Qed.

Lemma recipient_custody ts : forall acc o o',
  (forall a, acc = Some a -> a = o) -> custody o ts o' ->
  forall a,
    foldl (fun acc t => if String.eqb (t_type t) "burn" then acc else Some (t_to t)) acc ts
      = Some a -> a = o'.
Proof.
  induction ts as [|t ts IH]; intros acc o o' Hacc; cbn [custody foldl].
  - intros -> a. apply Hacc.
  - intros (Hty & _ & _ & _ & Hc). rewrite Hty. cbn [String.eqb Ascii.eqb Bool.eqb].
    apply (IH _ (t_to t)); [|done]. by intros a [= <-].
Qed.

Lemma coherent_processNFT provider num :
  preserves (fun w => forall id x, nfts (ledger w) !! id = Some x -> coherent x)
            (processNFT provider num).
Proof.
  intros w Hw id y. destruct (decide (id = num)) as [->|Hne].
  2:{ rewrite processNFT_others by done. apply Hw. }
  destruct (processNFT provider num w) as [r w'] eqn:E. cbn [snd].
  assert (forall x1 L, cached num (ledger w) L -> nfts L !! num = Some x1 -> coherent x1) as Hc1.
  { intros x1 L [|x0 v Hx0 Hv Hb]; [apply Hw|].
    cbn [withNfts nfts]. rewrite lookup_insert_eq. intros [= <-]. by apply (Hw num x0). }
  destruct (processNFT_outcome provider num w r w' E) as (L1 & Hc & Ho).
  assert (forall x1 ts o ltx lv, nfts L1 !! num = Some x1 -> custody (owner x1) ts o ->
            coherent (movedRecord x1 ts o ltx lv)) as Hmoved.
  { intros x1 ts o ltx lv Hx1 Hcus a. cbn [movedRecord transfers owner].
    rewrite recipient_app.
    apply (recipient_custody ts _ (owner x1)); [|done]. by apply (Hc1 x1 L1). }
  remember (ledger w') as L' eqn:HL'.
  destruct Ho as [e| | |x1 stx tx Hx1 Hb
                  |x1 ts o ltx lv idx' Hx1 Hb Htx Hcus Hrep Hltx Hcommit
                  |x1 ts o ltx lv e idx' Hx1 Hb Htx Hcus Hrep Hltx Hcommit].
  - by apply Hc1.
  - by apply Hc1.
  - by apply Hc1.
  - cbn [withNfts nfts]. rewrite lookup_insert_eq. intros [= <-] a.
    cbn [transfers owner burnedRecord]. rewrite recipient_app. cbn [foldl burnEvent t_type].
    cbn [String.eqb Ascii.eqb Bool.eqb]. by apply (Hc1 x1 L1).
  - cbn [nfts]. rewrite lookup_insert_eq. intros [= <-]. by apply Hmoved.
  - cbn [nfts]. rewrite lookup_insert_eq. intros [= <-]. by apply Hmoved.
Qed.

(** X17.  The owner field and the history agree.  If in the loaded
    ledger the owner of every record is the recipient of the last
    transfer of its history that is not a burn, as in a ledger built by
    the indexer, then this is so after every [processNFT] call and after
    a run. *)
Theorem X17_owner_is_last_recipient (provider : nat -> Endpoint -> Reply) (w : World) :
  (forall id x, nfts (ledger w) !! id = Some x -> coherent x) ->
  (forall num id x,
     nfts (ledger (processNFT provider num w).2) !! id = Some x -> coherent x) /\
  (forall id x, nfts (ledger (refresh provider w).2) !! id = Some x -> coherent x).
Proof.
  intros Hw. split.
  - intros num. by apply coherent_processNFT.
  - revert w Hw.
    apply (drive_refresh provider
             (fun w => forall id x, nfts (ledger w) !! id = Some x -> coherent x)).
    + by intros e _ w Hw.
    + by intros w Hw.
    + apply coherent_processNFT.
Qed.

Lemma X17_owner_is_last_recipient_witness :
  exists x,
    nfts (ledger (refresh Scenario.escrowChain minted7).2) !! 7 = Some x /\ coherent x.
Proof.
  eexists. split; [vm_compute; reflexivity|].
  refine (proj2 (X17_owner_is_last_recipient Scenario.escrowChain minted7 _) 7 _ _);
    [|vm_compute; reflexivity].
  intros id x. unfold minted7. cbn [ledger nfts].
  intros [_ <-]%lookup_singleton_Some a. vm_compute. intros H. injection H as <-. reflexivity.
Defined.

(** ** Counting requests *)

Lemma ticks_le {A} (m : M A) n n' : ticks m n -> (n <= n')%nat -> ticks m n'.
Proof. intros H Hle w. specialize (H w). lia. Qed.

Lemma ticks_bind {A B} (m : M A) (k : A -> M B) a n :
  ticks m a -> (a <= n)%nat -> (forall x, ticks (k x) (n - a)) -> ticks (bind m k) n.
Proof.
  intros Hm Hle Hk w. unfold bind. specialize (Hm w).
  destruct (m w) as [[x|e] w1]; cbn [snd] in *; [|lia].
  specialize (Hk x w1). lia.
Qed.

Lemma ticks_ret {A} (a : A) n : ticks (ret a) n.
Proof. intros w. cbn. lia. Qed.

Lemma ticks_throw {A} (e : Error) n : ticks (@throw A e) n.
Proof. intros w. cbn. lia. Qed.

Lemma ticks_liftRes {A} (r : Res A) n : ticks (liftRes r) n.
Proof. intros w. cbn. lia. Qed.

Lemma ticks_emit e : ticks (emit e) 0.
Proof. intros w. cbn. lia. Qed.

Lemma ticks_withLedger f : ticks (withLedger f) 0.
Proof. intros w. cbn. lia. Qed.

Lemma ticks_getDelay : ticks getDelay 0.
Proof. intros w. cbn. lia. Qed.

Lemma ticks_getLedger : ticks getLedger 0.
Proof. intros w. cbn. lia. Qed.

Lemma ticks_getNft num : ticks (getNft num) 0.
Proof.
  intros w. rewrite getNft_run. cbn [snd]. lia.
Qed.

Lemma ticks_pace : ticks pace 0.
Proof. intros w. cbn. lia. Qed.

Lemma ticks_wocGet provider ep : ticks (wocGet provider ep) 4.
Proof.
  intros w. unfold wocGet, MAX_RETRIES.
  destruct (wocGetLoop_schedule provider ep 3 0 w) as (k & evs & Hk & _ & Hc & _).
  rewrite Hc. lia.
Qed.

Create HintDb ticks discriminated.
#[local] Hint Resolve ticks_emit ticks_withLedger ticks_getDelay ticks_getLedger
  ticks_getNft ticks_pace ticks_wocGet : ticks.

Ltac tick :=
  repeat first
    [ apply ticks_ret
    | apply ticks_throw
    | apply ticks_liftRes
    | eapply ticks_bind; [ solve [eauto with ticks] | lia | intros ? ]
    | eapply ticks_le; [ solve [eauto with ticks] | lia ]
    | case_match ].

Lemma ticks_getSpender provider txid vout : ticks (getSpender provider txid vout) 4.
Proof. unfold getSpender. tick. Qed.

Lemma ticks_getTx provider txid : ticks (getTx provider txid) 4.
Proof. apply ticks_wocGet. Qed.

Lemma ticks_modifyNft num f : ticks (modifyNft num f) 0.
Proof. apply ticks_withLedger. Qed.

Lemma ticks_setOwners f : ticks (setOwners f) 0.
Proof. apply ticks_withLedger. Qed.

Lemma ticks_log m : ticks (log m) 0.
Proof. apply ticks_emit. Qed.

#[local] Hint Resolve ticks_getSpender ticks_getTx ticks_modifyNft ticks_setOwners
  ticks_log : ticks.

Lemma ticks_traceLoop provider fuel : forall txid vout o ts hops,
  ticks (traceLoop provider fuel txid vout o ts hops) (8 * fuel).
Proof.
  induction fuel as [|fuel IH]; intros txid vout o ts hops; [apply ticks_ret|].
  rewrite traceLoop_S. cbv zeta.
  repeat first
    [ apply ticks_ret
    | apply ticks_liftRes
    | eapply ticks_le; [ apply IH | lia ]
    | eapply ticks_bind; [ solve [eauto with ticks] | lia | intros ? ]
    | case_match ].
Qed.

Lemma ticks_traceForward provider txid vout o :
  ticks (traceForward provider txid vout o) 800.
Proof. apply (ticks_traceLoop provider 100). Qed.

Lemma ticks_resolveLastVout provider num : ticks (resolveLastVout provider num) 4.
Proof. unfold resolveLastVout. tick. Qed.

Lemma ticks_removeFromOwnerIndex addr num : ticks (removeFromOwnerIndex addr num) 0.
Proof.
  intros w. rewrite removeFromOwnerIndex_run.
  destruct (removeFromIndex addr num (owners (ledger w)));
    unfold setOwners, withLedger; cbn [snd clock]; lia.
Qed.

Lemma ticks_addToOwnerIndex addr num : ticks (addToOwnerIndex addr num) 0.
Proof.
  intros w. rewrite addToOwnerIndex_run.
  destruct (addToIndex addr num (owners (ledger w)));
    unfold setOwners, withLedger; cbn [snd clock]; lia.
Qed.

Lemma ticks_commit old new num :
  ticks (removeFromOwnerIndex old num;; addToOwnerIndex new num) 0.
Proof.
  eapply ticks_bind; [apply ticks_removeFromOwnerIndex | lia |].
  intros ?. apply ticks_addToOwnerIndex.
Qed.

#[local] Hint Resolve ticks_traceForward ticks_resolveLastVout
  ticks_removeFromOwnerIndex ticks_addToOwnerIndex ticks_commit : ticks.

Lemma ticks_processNFT provider num : ticks (processNFT provider num) 812.
Proof.
  unfold processNFT. tick.
Qed.

Lemma requestsOf_other e : isRequest e = false -> requestsOf [e] = [].
Proof. by destruct e. Qed.

Lemma accounted_refl w : accounted w [] w.
Proof. split; [by rewrite app_nil_r | cbn; lia]. Qed.

Lemma accounted_processNFT provider num w :
  exists evs, accounted w evs (processNFT provider num w).2.
Proof.
  set (P := fun w' : World => exists evs, accounted w evs w').
  assert (preserves P (processNFT provider num)) as H;
    [|apply H; exists []; apply accounted_refl].
  apply walk_processNFT.
  - intros e He w1 (evs & Hev & Hc). exists (evs ++ [e]). split.
    + cbn [emit snd events]. by rewrite Hev, <- app_assoc.
    + cbn [emit snd clock]. rewrite requestsOf_app, requestsOf_other, app_nil_r by done. done.
  - by intros f w1 Hw1.
  - intros ep w1 (evs & Hev & Hc). exists (evs ++ [EvRequest ep]). split.
    + cbn [fetch snd events]. by rewrite Hev, <- app_assoc.
    + cbn [fetch snd clock]. rewrite requestsOf_app, length_app.
      change (requestsOf [EvRequest ep]) with [ep]. cbn [length]. lia.
  - intros w1 Hw1. unfold onSuccess, bind, getDelay, setDelay, ret.
    by destruct (MIN_DELAY_MS <? callDelayMs w1).
  - intros w1 (evs & Hev & Hc).
    exists (evs ++ [EvLog (LogThrottle (Z.min MAX_DELAY_MS (callDelayMs w1 * 2)))]). split.
    + cbn. by rewrite Hev, <- app_assoc.
    + cbn. rewrite requestsOf_app, app_nil_r. done.
Qed.

(** X18.  The cost of one asset is bounded.  A call of [processNFT]
    only adds events to the log, and among them at most 812 requests:
    up to four attempts to resolve [lastVout], four for the spent check,
    four for the spending transaction, and eight for each of at most a
    hundred hops of the trace. *)
Theorem X18_request_budget (provider : nat -> Endpoint -> Reply) (num : Z) (w : World) :
  exists evs,
    accounted w evs (processNFT provider num w).2 /\
    (length (requestsOf evs) <= 812)%nat.
Proof.
  destruct (accounted_processNFT provider num w) as (evs & Hev & Hc).
  exists evs. split; [by split|].
  pose proof (ticks_processNFT provider num w) as Ht. lia.
Qed.

(** ** The common case: one request *)

Lemma request_ok_events provider ep w v :
  replyValue (provider (clock w) ep) = Some v ->
  exists w', request provider ep w = (Ok v, w') /\
    clock w' = S (clock w) /\ ledger w' = ledger w /\ disk w' = disk w /\
    events w' = events w ++ [EvRequest ep].
Proof.
  intros H. unfold request, bind, fetch, replyValue in *.
  destruct (provider (clock w) ep) as [s b| |msg]; [|done..].
  unfold onSuccess, bind, getDelay.
  destruct (s =? 200).
  { injection H as <-. cbn [callDelayMs]. destruct (MIN_DELAY_MS <? callDelayMs w); by eexists. }
  destruct (s =? 404); [|done].
  injection H as <-. cbn [callDelayMs]. destruct (MIN_DELAY_MS <? callDelayMs w); by eexists.
Qed.

Lemma getSpender_first provider txid vout w v :
  replyValue (provider (clock w) (EpSpent txid vout)) = Some v ->
  match v with Some b => truthy (b_txid b) = false | None => True end ->
  exists w', getSpender provider txid vout w = (Ok None, w') /\
    clock w' = S (clock w) /\ ledger w' = ledger w /\ disk w' = disk w /\
    events w' = events w ++ [EvRequest (EpSpent txid vout)].
Proof.
  intros Hr Hu.
  destruct (request_ok_events provider _ w v Hr) as (w' & E & Hc & Hl & Hd & He).
  exists w'. split; [|done].
  unfold getSpender, bind, wocGet, MAX_RETRIES. rewrite wocGetLoop_S. unfold tryCatch.
  rewrite E. destruct v as [b|]; [|done]. by rewrite Hu.
Qed.

(** X19.  The common case costs one request.  For an asset with a
    stored position whose output the provider reports unspent at the
    first attempt, [processNFT] sends that one request, pauses once for
    the current delay and returns [Unchanged]; the ledger and the file
    are untouched. *)
Theorem X19_settled_asset_one_request (provider : nat -> Endpoint -> Reply) (w : World)
    (num : Z) (x : Nft) (txid : string) (vout : Z) (v : option Body) :
  trackedAt w num x txid vout ->
  replyValue (provider (clock w) (EpSpent txid vout)) = Some v ->
  match v with Some b => truthy (b_txid b) = false | None => True end ->
  exists w', processNFT provider num w = (Ok Unchanged, w') /\
    ledger w' = ledger w /\ disk w' = disk w /\ clock w' = S (clock w) /\
    events w' = events w ++ [EvRequest (EpSpent txid vout); EvSleep (callDelayMs w')].
Proof.
  intros (Hx & Hl & Ht & Hb & Hv) Hr Hu.
  unfold processNFT; unfold bind at 1; rewrite getNft_run, Hx, Ht, Hb; cbn [negb];
    unfold bind at 1; unfold resolveLastVout at 1; unfold bind at 1;
    rewrite getNft_run, Hx, Hv; unfold ret at 1;
    unfold bind at 1; rewrite getNft_run, Hx.
  rewrite Hl. cbn [default from_option id]. unfold bind.
  destruct (getSpender_first provider txid vout w v Hr Hu) as (w1 & -> & Hc & Hl1 & Hd1 & He1).
  unfold pace, bind, getDelay, sleep, emit, ret. eexists. split; [reflexivity|].
  cbn [ledger disk clock events callDelayMs]. split_and!; try done.
  by rewrite He1, <- app_assoc.
Qed.

Lemma X19_settled_asset_one_request_witness :
  exists w', processNFT (fun _ _ => Scenario.notSpent) 7 (Scenario.world7 (Some 0))
             = (Ok Unchanged, w') /\ clock w' = 1%nat.
Proof.
  destruct (X19_settled_asset_one_request (fun _ _ => Scenario.notSpent)
              (Scenario.world7 (Some 0)) 7 (Scenario.nftAt "A" "P" (Some 0)) "P" 0 None)
    as (w' & E & _ & _ & Hc & _).
  - unfold trackedAt. repeat split; reflexivity.
  - reflexivity.
  - exact Logic.I.
  - exists w'. split; [exact E | exact Hc].
Defined.

(** ** The counters of the driver *)

Lemma yields_ret {A} (a : A) (Q : A -> Prop) : Q a -> yields (ret a) Q.
Proof. intros H w. by exists a, w. Qed.

Lemma yields_bind {A B} (m : M A) (k : A -> M B) (Q : A -> Prop) (R : B -> Prop) :
  yields m Q -> (forall a, Q a -> yields (k a) R) -> yields (bind m k) R.
Proof.
  intros Hm Hk w. unfold bind. destruct (Hm w) as (a & w1 & -> & Ha). by apply Hk.
Qed.

Lemma yields_any {A} (m : M A) : returns m -> yields m (fun _ => True).
Proof. intros H w. destruct (H w) as (a & w' & ->). by exists a, w'. Qed.

(** [try { const result = await m; k(result) } catch (e) { h(e) }] with
    [k] and [h] that do not throw. *)
Lemma yields_tryCatch_bind {A B} (m : M A) (k : A -> M B) (h : Error -> M B) (Q : B -> Prop) :
  (forall a, yields (k a) Q) -> (forall e, yields (h e) Q) ->
  yields (tryCatch (bind m k) h) Q.
Proof.
  intros Hk Hh w. unfold tryCatch, bind. destruct (m w) as [[a|e] w1].
  - destruct (Hk a w1) as (b & w' & -> & Hb). by exists b, w'.
  - apply Hh.
Qed.

Lemma yields_forEach {A B} (f : A -> B -> M A) (Inv : list B -> list B -> A -> Prop) :
  (forall done x todo a, Inv done (x :: todo) a -> yields (f a x) (Inv (done ++ [x]) todo)) ->
  forall l done a, Inv done l a -> yields (forEach f a l) (Inv (done ++ l) []).
Proof.
  intros Hf. induction l as [|x l IH]; intros done a Ha; cbn [forEach].
  - rewrite app_nil_r. by apply yields_ret.
  - eapply yields_bind; [by apply Hf|]. intros a' Ha'.
    replace (done ++ x :: l) with ((done ++ [x]) ++ l) by (by rewrite <- app_assoc).
    by apply IH.
Qed.

Ltac quiet_op :=
  solve [ repeat first
    [ apply returns_ret | apply returns_saveLedger | apply returns_emit
    | apply returns_getLedger | apply returns_bind; [| intros ?] ] ].

Ltac yield :=
  repeat first
    [ eapply yields_bind; [ apply yields_any; quiet_op | intros ? _ ]
    | case_match ].

Section Counters.

Variable provider : nat -> Endpoint -> Reply.

Lemma tally_mainStep total done c num :
  tally done c -> yields (mainStep provider total c num) (tally (done ++ [num])).
Proof.
  intros (Hch & Her & Hsub & H0 & H1 & Hle).
  unfold mainStep, log. apply yields_tryCatch_bind.
  - intros s. destruct s; yield; apply yields_ret; unfold tally;
      cbn [checked changed burnedRun errors failedNFTs];
      rewrite length_app; cbn [length];
      (split_and!; [lia | lia | by apply sublist_inserts_r | lia | lia | lia]).
  - intros e. yield.
    apply yields_ret. unfold tally. cbn [checked changed burnedRun errors failedNFTs].
    rewrite !length_app. cbn [length].
    split_and!; [lia | lia | by apply sublist_app | lia | lia | lia].
Qed.

Lemma retrying_retryStep n done num todo c :
  retrying n done (num :: todo) c ->
  yields (retryStep provider c num) (retrying n (done ++ [num]) todo).
Proof.
  intros (Hch & Her & Hsub & H0 & H1 & Hle). cbn [length] in Her.
  unfold retryStep, log. apply yields_tryCatch_bind.
  - intros s. destruct s; yield; apply yields_ret; unfold retrying;
      cbn [checked changed burnedRun errors failedNFTs];
      (split_and!; [done | lia | by apply sublist_inserts_r | lia | lia | lia]).
  - intros e. yield. apply yields_ret. unfold retrying.
    cbn [checked changed burnedRun errors failedNFTs]. rewrite length_app. cbn [length].
    split_and!; [done | lia | by apply sublist_app | lia | lia | lia].
Qed.

Lemma tally_retryRound round all c :
  tally all c -> yields (retryRound provider round c) (tally all).
Proof.
  intros Ht. unfold retryRound.
  destruct (failedNFTs c) as [|f l] eqn:Hf; [by apply yields_ret|].
  destruct Ht as (Hch & Her & Hsub & H0 & H1 & Hle). rewrite Hf in Her, Hsub.
  unfold log, sleep.
  eapply yields_bind; [apply yields_any; quiet_op | intros ? _].
  eapply yields_bind; [apply yields_any; quiet_op | intros ? _].
  eapply yields_bind.
  { apply (yields_forEach (retryStep provider) (retrying (checked c)) ) with (done := []).
    - intros done0 x0 todo0 c0. apply retrying_retryStep.
    - unfold retrying. cbn [checked changed burnedRun errors failedNFTs length] in *.
      split_and!; [done | lia | done | lia | lia | lia]. }
  intros c' (Hch' & Her' & Hsub' & H0' & H1' & Hle'). cbn [app length] in *.
  eapply yields_bind; [apply yields_any; quiet_op | intros ? _].
  apply yields_ret. unfold tally.
  split_and!; [congruence | lia | by etrans | lia | lia | lia].
Qed.

Lemma tally_mainPass w :
  exists c w', mainPass provider w = (Ok c, w') /\ tally (sortedNums (ledger w)) c.
Proof.
  assert (yields
    (let nums := sortedNums (ledger w) in
     let total := Z.of_nat (length nums) in
     log (LogStart total);;
     let* c := forEach (mainStep provider total)
                 {| checked := 0; changed := 0; burnedRun := 0; errors := 0;
                    failedNFTs := [] |} nums in
     saveLedger;;
     log (LogMainDone (checked c) (changed c) (errors c));;
     ret c) (tally (sortedNums (ledger w)))) as H.
  { cbv zeta. unfold log.
    eapply yields_bind; [apply yields_any; quiet_op | intros ? _].
    eapply yields_bind.
    { apply (yields_forEach (mainStep provider _) (fun done _ => tally done)) with (done := []).
      - intros done0 x0 todo0 c0. apply tally_mainStep.
      - unfold tally. cbn. split_and!; [done | done | done | lia | lia | lia]. }
    intros c Hc. cbn [app] in Hc. yield. by apply yields_ret. }
  destruct (H w) as (c & w' & E & Ht). exists c, w'. split; [exact E | exact Ht].
Qed.

Lemma yields_run {A} (m : M A) (Q : A -> Prop) w :
  yields m Q -> exists a w', m w = (Ok a, w') /\ Q a.
Proof. intros H. apply H. Qed.

Lemma tally_refresh w :
  exists c w', refresh provider w = (Ok c, w') /\ tally (sortedNums (ledger w)) c.
Proof.
  destruct (tally_mainPass w) as (c1 & w1 & E1 & T1).
  unfold refresh. unfold bind at 1. rewrite E1. apply yields_run.
  eapply yields_bind; [by apply tally_retryRound | intros c2 T2].
  eapply yields_bind; [by apply tally_retryRound | intros c3 T3].
  unfold log. yield; by apply yields_ret.
Qed.

End Counters.

(** X20.  The counters of a run add up.  A run always comes to its end,
    and then every asset of the ledger has been counted as checked
    exactly once; the error counter is the length of the retry queue,
    which the summary prints in its place; the queue lists assets of the
    ledger in ascending order, each at most once in a position; and the
    changes, the burns and the open failures together are at most the
    number of assets. *)
Theorem X20_counters_add_up (provider : nat -> Endpoint -> Reply) (w : World) :
  exists c w', refresh provider w = (Ok c, w') /\
    checked c = Z.of_nat (length (sortedNums (ledger w))) /\
    errors c = Z.of_nat (length (failedNFTs c)) /\
    failedNFTs c `sublist_of` sortedNums (ledger w) /\
    0 <= changed c /\ 0 <= burnedRun c /\
    changed c + burnedRun c + Z.of_nat (length (failedNFTs c)) <= checked c.
Proof.
  destruct (tally_refresh provider w) as (c & w' & E & (Hch & Her & Hsub & H0 & H1 & Hle)).
  exists c, w'. split_and!; try done. lia.
Qed.

(** ** The client without a retry budget *)

Lemma plain_wocGet_S provider fuel ep w :
  Plain.wocGet provider (S fuel) ep w =
  match provider (clock w) ep with
  | Http statusCode body =>
      if statusCode =? 200 then Some (Ok body, (fetch provider ep w).2)
      else if statusCode =? 404 then Some (Ok None, (fetch provider ep w).2)
      else if statusCode =? 429
           then Plain.wocGet provider fuel ep (sleep 5000 (fetch provider ep w).2).2
           else Some (Throw (WocStatus statusCode), (fetch provider ep w).2)
  | ReqTimeout => Some (Throw TimeoutError, (fetch provider ep w).2)
  | ReqError msg => Some (Throw (NetworkError msg), (fetch provider ep w).2)
  end.
Proof. reflexivity. Qed.

Lemma plain_settled provider fuel ep w :
  isThrottle (provider (clock w) ep) = false ->
  Plain.wocGet provider (S fuel) ep w =
    Some (settles (provider (clock w) ep), (fetch provider ep w).2).
Proof.
  intros Hn. rewrite plain_wocGet_S. unfold settles, replyValue, replyError.
  destruct (provider (clock w) ep) as [s b| |msg]; [|done..].
  cbn [isThrottle] in Hn. rewrite Hn.
  destruct (s =? 200); [done|]. by destruct (s =? 404).
Qed.

Lemma plain_throttled provider fuel ep w :
  isThrottle (provider (clock w) ep) = true ->
  Plain.wocGet provider (S fuel) ep w =
    Plain.wocGet provider fuel ep (sleep 5000 (fetch provider ep w).2).2.
Proof.
  intros Hn. rewrite plain_wocGet_S.
  destruct (provider (clock w) ep) as [s b| |msg]; [|done..].
  cbn [isThrottle] in Hn. apply Z.eqb_eq in Hn as ->. reflexivity.
Qed.

(** X22.  The [wocGet] of the indexer and of the backfill script has no
    retry budget.  After [n] rate-limit replies and a reply of another
    kind it has sent [n + 1] requests, waited five seconds after each
    429, and is settled with that reply, however large [n] is; and
    against a provider that answers 429 for ever it is never settled,
    where the [wocGet] of the refresh script gives up at the fourth
    reply. *)
Theorem X22_plain_client_retries_without_bound (provider : nat -> Endpoint -> Reply)
    (ep : Endpoint) (n : nat) :
  (forall w fuel,
     (forall i, (i < n)%nat -> isThrottle (provider (clock w + i)%nat ep) = true) ->
     isThrottle (provider (clock w + n)%nat ep) = false ->
     (n < fuel)%nat ->
     exists w' evs,
       Plain.wocGet provider fuel ep w = Some (settles (provider (clock w + n)%nat ep), w') /\
       events w' = events w ++ evs /\ clock w' = (clock w + S n)%nat /\
       requestsOf evs = replicate (S n) ep /\ sleepsOf evs = replicate n 5000 /\
       ledger w' = ledger w) /\
  (forall w fuel,
     (forall i, isThrottle (provider (clock w + i)%nat ep) = true) ->
     Plain.wocGet provider fuel ep w = None /\
     (wocGet provider ep w).1 = Throw RateLimited).
Proof.
  split.
  - induction n as [|n IH]; intros w fuel Hthr Hlast Hfuel.
    + destruct fuel as [|fuel]; [lia|]. rewrite Nat.add_0_r in *.
      rewrite plain_settled by done.
      exists (fetch provider ep w).2, [EvRequest ep]. cbn [fetch snd events clock ledger].
      split_and!; try done. lia.
    + destruct fuel as [|fuel]; [lia|].
      pose proof (Hthr O ltac:(lia)) as H0. rewrite Nat.add_0_r in H0.
      rewrite plain_throttled by done.
      set (w1 := (sleep 5000 (fetch provider ep w).2).2).
      assert (clock w1 = S (clock w)) as Hc1 by reflexivity.
      destruct (IH w1 fuel) as (w' & evs & E & He & Hc & Hr & Hs & Hl).
      * intros i Hi. rewrite Hc1.
        replace (S (clock w) + i)%nat with (clock w + S i)%nat by lia. apply Hthr. lia.
      * rewrite Hc1. by replace (S (clock w) + n)%nat with (clock w + S n)%nat by lia.
      * lia.
      * exists w', (EvRequest ep :: EvSleep 5000 :: evs).
        rewrite Hc1 in E, Hc.
        replace (S (clock w) + n)%nat with (clock w + S n)%nat in E by lia.
        split_and!.
        -- exact E.
        -- rewrite He. unfold w1. cbn [sleep emit fetch snd events]. by rewrite <- !app_assoc.
        -- lia.
        -- change (requestsOf (EvRequest ep :: EvSleep 5000 :: evs))
             with (ep :: requestsOf evs). by rewrite Hr.
        -- change (sleepsOf (EvRequest ep :: EvSleep 5000 :: evs))
             with (5000 :: sleepsOf evs). by rewrite Hs.
        -- by rewrite Hl.
  - intros w fuel Hthr. split.
    + revert w Hthr. induction fuel as [|fuel IH]; intros w Hthr; [done|].
      pose proof (Hthr O) as H0. rewrite Nat.add_0_r in H0.
      rewrite plain_throttled by done. apply IH. intros i.
      change (clock (sleep 5000 (fetch provider ep w).2).2) with (S (clock w)).
      replace (S (clock w) + i)%nat with (clock w + S i)%nat by lia. apply Hthr.
    + apply wocGetLoop_throttled. intros i _. apply Hthr.
Qed.

Lemma X22_plain_client_retries_without_bound_witness :
  exists w',
    Plain.wocGet Scenario.throttled 5 (EpSpent "P" 0) (Scenario.world7 (Some 0))
      = Some (Ok (Some {| b_txid := Some "T1"%string; b_vout := None; b_blockheight := None |}),
              w') /\
    clock w' = 5%nat.
Proof.
  destruct (proj1 (X22_plain_client_retries_without_bound Scenario.throttled
                     (EpSpent "P" 0) 4) (Scenario.world7 (Some 0)) 5%nat)
    as (w' & evs & E & _ & Hc & _).
  - intros i Hi. destruct i as [|[|[|[|i]]]]; try reflexivity. lia.
  - reflexivity.
  - lia.
  - exists w'. split; [exact E | exact Hc].
Defined.
